(** * Animometer (src/animometer.ts): uniform layout, binding strategies,
      chunked upload and frame driver.

    The development embeds the part of [init] that decides how the
    per-triangle uniforms are laid out, bound and drawn:
    [configure] with its two loops and the nested [recordRenderPass] and
    [doDraw], [updateSettings] with the three input handlers, and [frame].

    Conventions of the embedding.
    - Byte sizes, offsets and indices are integers ([Z], [nat] for positions
      in a list).
    - JavaScript numbers that carry real quantities (time stamps, random
      draws, averages) are values of a type [num] with the interface
      [Number]; the definitions are written once over that interface and
      read at three instances: IEEE binary64 as the primitive [float], over
      which the code is evaluated on concrete inputs; [double], the finite
      binary64 values as the rationals they are, every operation rounded to
      nearest-even, over which ranges are proved for all inputs; and exact
      rationals [Q], an idealisation in which nothing rounds, used where a
      statement is about exact arithmetic.  A store into a [Float32Array]
      rounds to binary32 ([nfround]).
    - [settings.numTriangles] comes from [valueAsNumber] and may be any
      JavaScript number: it is a [jsnumber] (finite, NaN or an infinity),
      and arithmetic on it rounds to binary64.
    - The shader computes in f32: its values are the rationals they are,
      and every operation ends with a rounding that is a parameter of the
      shader's definitions, since WGSL leaves the direction of rounding
      open: any rounding that keeps a result between the f32 next to it
      ([rounds_within_f32], of which [binary32] is one), or none ([exact])
      where a statement is about exact arithmetic and says so.
    - [binary32] and [binary64] round to the precision of the format and
      know its subnormal numbers but no largest number: overflow to an
      infinity exists only at the instance [float].
    - Code that can throw or loop returns an [Outcome]; state (device, queue, the
      counter of [Math.random] draws) is threaded through a small
      state-and-exception monad in which the state survives a throw.
    - Allocation of the typed array of the instance table can fail; whether
      it does is a parameter of the runtime.
    - The presentation surface is not modelled. *)

From Stdlib Require Import ZArith QArith Qround Qpower Lia Lqa Bool.
From Stdlib Require Import Floats Uint63.
From stdpp Require Import base list.

Open Scope Z_scope.

(** ** Rounding to a binary format *)

(* The integer nearest to q, the even one of two that are equally near. *)
Definition round_half_even (q : Q) : Z :=
  let f := Qfloor q in
  match Qcompare (q - inject_Z f) (1 # 2) with
  | Lt => f
  | Gt => f + 1
  | Eq => if Z.even f then f else f + 1
  end.

(* The exponent e of a positive q: 2^e <= q < 2^(e+1). *)
Definition Qlog2 (q : Q) : Z :=
  if Qle_bool 1 q then Z.log2 (Qfloor q) else - Z.log2_up (Qceiling (/ q)).

(* Round-to-nearest-even of a positive q to [prec] significant bits, with
   2^emin the smallest positive value of the format: q is rounded to a
   multiple of its unit in the last place. *)
Definition round_positive (prec emin : Z) (q : Q) : Q :=
  let k := Z.max (Qlog2 q - prec + 1) emin in
  (inject_Z (round_half_even (q / 2 ^ k)) * 2 ^ k)%Q.

(* Rounding is symmetric in the sign.  The result is the finite value of
   the format; overflow to an infinity is left to the caller. *)
Definition round_nearest (prec emin : Z) (q : Q) : Q :=
  match Qcompare q 0 with
  | Eq => 0%Q
  | Gt => round_positive prec emin q
  | Lt => (- round_positive prec emin (- q))%Q
  end.

Definition binary64 : Q -> Q := round_nearest 53 (-1074).
Definition binary32 : Q -> Q := round_nearest 24 (-149).

(** ** Numbers *)

Class Number (num : Type) := {
  nlit : Q -> num;            (* a numeric literal of the source *)
  nadd : num -> num -> num;
  nsub : num -> num -> num;
  nmul : num -> num -> num;
  ndiv : num -> num -> num;
  nfround : num -> num        (* the value an element of a Float32Array
                                 holds after it was assigned the number *)
}.

Declare Scope num_scope.
Delimit Scope num_scope with num.
Infix "+" := nadd : num_scope.
Infix "-" := nsub : num_scope.
Infix "*" := nmul : num_scope.
Infix "/" := ndiv : num_scope.

(* Exact rationals: no operation rounds, nor does a store. *)
#[export] Instance Q_Number : Number Q := {
  nlit q := q;
  nadd := Qplus;
  nsub := Qminus;
  nmul := Qmult;
  ndiv := Qdiv;
  nfround q := q
}.

Definition f64_of_Z (z : Z) : float :=
  if z <? 0 then PrimFloat.opp (PrimFloat.of_uint63 (Uint63.of_Z (- z)))
  else PrimFloat.of_uint63 (Uint63.of_Z z).

(* The binary64 value of a decimal literal n/d: the correctly rounded
   quotient of two exactly representable integers. *)
Definition f64_lit (q : Q) : float :=
  PrimFloat.div (f64_of_Z (Qnum q)) (f64_of_Z (Zpos (Qden q))).

(* The rational a finite binary64 value is; None for NaN and the
   infinities. *)
Definition f64_to_Q (x : float) : option Q :=
  match Prim2SF x with
  | S754_zero _ => Some 0%Q
  | S754_finite s m e =>
      let q := (inject_Z (Zpos m) * 2 ^ e)%Q in
      Some (if s then (- q)%Q else q)
  | _ => None
  end.

(* Math.fround: the binary32 value nearest to x (ties to even), as a
   binary64; NaN, the infinities and the zeros are kept, and a magnitude
   that rounds to 2^128 or more becomes an infinity. *)
Definition f64_fround (x : float) : float :=
  match Prim2SF x with
  | S754_finite s m e =>
      let q := (inject_Z (Zpos m) * 2 ^ e)%Q in
      let k := Z.max (Qlog2 q - 24 + 1) (-149) in
      let n := round_half_even (q / 2 ^ k) in
      let r :=
        if (104 <? k) || ((k =? 104) && (2 ^ 24 <=? n)) then infinity
        else Z.ldexp (PrimFloat.of_uint63 (Uint63.of_Z n)) k in
      if s then PrimFloat.opp r else r
  | _ => x
  end.

#[export] Instance f64_Number : Number float := {
  nlit := f64_lit;
  nadd := PrimFloat.add;
  nsub := PrimFloat.sub;
  nmul := PrimFloat.mul;
  ndiv := PrimFloat.div;
  nfround := f64_fround
}.

(* A finite binary64 value, as the rational it is: every operation is the
   exact one followed by rounding to binary64, and a store into a
   Float32Array rounds once more, to binary32.  Infinities and NaN are not
   values of this type: it serves where no operation overflows or divides
   by zero. *)
Record double : Type := Double { dval : Q }.

#[export] Instance double_Number : Number double := {
  nlit q := Double (binary64 q);
  nadd x y := Double (binary64 (dval x + dval y));
  nsub x y := Double (binary64 (dval x - dval y));
  nmul x y := Double (binary64 (dval x * dval y));
  ndiv x y := Double (binary64 (dval x / dval y));
  nfround x := Double (binary32 (dval x))
}.

(** A JavaScript number as [valueAsNumber] can deliver it. *)
Inductive jsnumber : Type :=
| JFinite (q : Q)
| JNaN
| JInfinity (negative : bool).

(* x * k and x + k for an integer constant k of the source, rounded to
   binary64.  A finite result too large for binary64 is kept as the large
   rational: every conversion below treats it as it treats an infinity. *)
Definition jmulZ (x : jsnumber) (k : Z) : jsnumber :=
  match x with
  | JFinite q => JFinite (binary64 (q * inject_Z k))
  | JNaN => JNaN
  | JInfinity neg => if k =? 0 then JNaN else JInfinity (xorb neg (k <? 0))
  end.

Definition jaddZ (x : jsnumber) (k : Z) : jsnumber :=
  match x with
  | JFinite q => JFinite (binary64 (q + inject_Z k))
  | _ => x
  end.

(* IntegerPart / truncation toward zero. *)
Definition Qtrunc (q : Q) : Z :=
  if Qle_bool 0 q then Qfloor q else Qceiling q.

Definition Qis_integer (q : Q) : bool := Qeq_bool (inject_Z (Qfloor q)) q.

(** ** Outcomes and the state-and-exception monad *)

Inductive Error : Type := TypeError | RangeError.

(* [Diverge]: the code does not return (a loop that never ends). *)
Inductive Outcome (A : Type) : Type :=
| Return (a : A)
| Throw (e : Error)
| Diverge.
Arguments Return {A} a.
Arguments Throw {A} e.
Arguments Diverge {A}.

Definition M (S A : Type) : Type := S -> Outcome A * S.

Definition ret {S A} (a : A) : M S A := fun s => (Return a, s).
Definition throw {S A} (e : Error) : M S A := fun s => (Throw e, s).
Definition bind {S A B} (c : M S A) (k : A -> M S B) : M S B :=
  fun s => match c s with
           | (Return a, s') => k a s'
           | (Throw e, s') => (Throw e, s')
           | (Diverge, s') => (Diverge, s')
           end.
Definition lift {S A} (o : Outcome A) : M S A := fun s => (o, s).

Notation "x <- c1 ;; c2" := (bind c1 (fun x => c2))
  (at level 100, c1 at next level, right associativity).
Notation "c1 ;; c2" := (bind c1 (fun _ => c2))
  (at level 100, right associativity).

(* for (let i = start; i < start + count; ++i) body, threading the local
   variables the body assigns. *)
Fixpoint for_loop {S A} (i count : nat) (body : nat -> A -> M S A) (a : A)
  : M S A :=
  match count with
  | O => ret a
  | Datatypes.S c => a' <- body i a ;; for_loop (Datatypes.S i) c body a'
  end.

(** ** Typed arrays and arrays *)

Definition BYTES_PER_ELEMENT : Z := 4.

(* ToIndex(length): the integer part, a RangeError outside 0 .. 2^53 - 1. *)
Definition to_index (len : jsnumber) : Outcome Z :=
  match len with
  | JNaN => Return 0
  | JInfinity _ => Throw RangeError
  | JFinite q =>
      let t := Qtrunc q in
      if (t <? 0) || (2 ^ 53 - 1 <? t) then Throw RangeError else Return t
  end.

(* new Float32Array(length): ToIndex(length), then the allocation of
   4 * length bytes, a RangeError when the host cannot provide them
   ([allocatable] says for which byte lengths it can); elements 0. *)
Definition new_Float32Array {num} `{Number num} (allocatable : Z -> bool)
    (len : jsnumber) : Outcome (list num) :=
  match to_index len with
  | Return t =>
      if allocatable (t * BYTES_PER_ELEMENT)
      then Return (replicate (Z.to_nat t) (nlit 0))
      else Throw RangeError
  | Throw e => Throw e
  | Diverge => Diverge
  end.

(* new Array(len) for a Number len: RangeError unless ToUint32(len) = len. *)
Definition new_Array {A} (len : jsnumber) : Outcome (list (option A)) :=
  match len with
  | JFinite q =>
      if Qis_integer q && (0 <=? Qfloor q) && (Qfloor q <=? 2 ^ 32 - 1)
      then Return (replicate (Z.to_nat (Qfloor q)) None)
      else Throw RangeError
  | _ => Throw RangeError
  end.

Definition byteLength {A} (a : list A) : Z := BYTES_PER_ELEMENT * Z.of_nat (length a).

(** ** Device objects *)

Definition BufferId : Type := nat.

Inductive BindGroupLayout : Type :=
| timeBindGroupLayout
| bindGroupLayout
| dynamicBindGroupLayout.

Definition hasDynamicOffset (l : BindGroupLayout) : bool :=
  match l with dynamicBindGroupLayout => true | _ => false end.

Definition minBindingSize (l : BindGroupLayout) : Z :=
  match l with timeBindGroupLayout => 4 | _ => 20 end.

Inductive Pipeline : Type := pipeline | dynamicPipeline.

Definition pipelineLayout (p : Pipeline) : list BindGroupLayout :=
  match p with
  | pipeline => [timeBindGroupLayout; bindGroupLayout]
  | dynamicPipeline => [timeBindGroupLayout; dynamicBindGroupLayout]
  end.

Record BindGroup : Type := {
  bg_layout : BindGroupLayout;
  bg_buffer : BufferId;
  bg_offset : Z;
  bg_size : Z
}.

Inductive Command : Type :=
| setPipeline (p : Pipeline)
| setVertexBuffer (slot : Z) (buffer : BufferId)
| setBindGroup (index : Z) (group : BindGroup) (dynamicOffsets : list Z)
| draw (vertexCount instanceCount firstVertex firstInstance : Z).

Definition RenderBundle : Type := list Command.

Inductive PassCommand : Type :=
| encoded (c : Command)
| executeBundles (bundles : list RenderBundle).

(* GPURenderBundleEncoder | GPURenderPassEncoder: what recordRenderPass
   needs of its argument. *)
Class Encoder (E : Type) := { encode : Command -> E -> E }.

#[export] Instance bundle_Encoder : Encoder (list Command) :=
  { encode c e := e ++ [c] }.
#[export] Instance pass_Encoder : Encoder (list PassCommand) :=
  { encode c e := e ++ [encoded c] }.

Definition emit {E} `{Encoder E} (c : Command) : M E unit :=
  fun e => (Return tt, encode c e).

(* The commands a submitted pass executes: bundles are replayed in place. *)
Definition replay (p : list PassCommand) : list Command :=
  flat_map (fun c => match c with
                     | encoded c => [c]
                     | executeBundles bs => concat bs
                     end) p.

(** ** The program: constants of [init] and [configure] *)

Record Settings : Type := {
  numTriangles : jsnumber;
  renderBundles : bool;
  dynamicOffsets : bool
}.

Definition vec4Size : Z := 4 * BYTES_PER_ELEMENT.

(* The vertex buffer is the first buffer [init] creates. *)
Definition vertexBuffer : BufferId := 0%nat.

Definition uniformBytes : Z := 5 * BYTES_PER_ELEMENT.

(* Math.ceil(uniformBytes / 256) * 256 *)
Definition alignedUniformBytes : Z :=
  Qceiling (inject_Z uniformBytes / 256)%Q * 256.

Definition alignedUniformFloats : Z := alignedUniformBytes / BYTES_PER_ELEMENT.

Definition maxMappingLength : Z := (14 * 1024 * 1024) / BYTES_PER_ELEMENT.

(* GPUSize64 is an [EnforceRange] unsigned long long. *)
Definition enforce_range_u64 (x : jsnumber) : Outcome Z :=
  match x with
  | JFinite q =>
      let t := Qtrunc q in
      if (t <? 0) || (2 ^ 53 - 1 <? t) then Throw TypeError else Return t
  | _ => Throw TypeError
  end.

(* setBindGroup(index, bindGroups[i]): an empty slot is not a GPUBindGroup. *)
Definition setBindGroup_at {E} `{Encoder E} (index : Z)
    (slot : option (option BindGroup)) : M E unit :=
  match slot with
  | Some (Some g) => emit (setBindGroup index g [])
  | _ => throw TypeError
  end.

(* function recordRenderPass(passEncoder), with the variables of [configure]
   it closes over as arguments; [settings] is the shared settings object as
   it is when the function runs.  setBindGroup copies the offsets it is
   given, so the one array [dynamicOffsets] that the loop overwrites is
   recorded by value. *)
Definition recordRenderPass {E} `{Encoder E} (settings : Settings)
    (n : nat) (bindGroups : list (option BindGroup))
    (dynamicBindGroup timeBindGroup : BindGroup) : M E unit :=
  (if dynamicOffsets settings
   then emit (setPipeline dynamicPipeline)
   else emit (setPipeline pipeline)) ;;
  emit (setVertexBuffer 0 vertexBuffer) ;;
  emit (setBindGroup 0 timeBindGroup []) ;;
  let dynamicOffsets_ : list Z := [0] in
  for_loop 0 n (fun i dynamicOffsets_ =>
    (if dynamicOffsets settings
     then
       let dynamicOffsets_ := <[0%nat := Z.of_nat i * alignedUniformBytes]> dynamicOffsets_ in
       emit (setBindGroup 1 dynamicBindGroup dynamicOffsets_) ;;
       emit (draw 3 1 0 0) ;;
       ret dynamicOffsets_
     else
       setBindGroup_at 1 (bindGroups !! i) ;;
       emit (draw 3 1 0 0) ;;
       ret dynamicOffsets_)) dynamicOffsets_ ;;
  ret tt.

(* device.createRenderBundleEncoder(..); record(encoder); encoder.finish() *)
Definition finish_bundle {S} (record : M (list Command) unit) : M S RenderBundle :=
  fun s => match record [] with
           | (Return _, e) => (Return e, s)
           | (Throw err, _) => (Throw err, s)
           | (Diverge, _) => (Diverge, s)
           end.

(* commandEncoder.beginRenderPass(..); record(passEncoder); endPass() *)
Definition finish_pass {S} (record : M (list PassCommand) unit)
  : M S (list PassCommand) :=
  fun s => match record [] with
           | (Return _, e) => (Return e, s)
           | (Throw err, _) => (Throw err, s)
           | (Diverge, _) => (Diverge, s)
           end.

Definition pass_executeBundles (bs : list RenderBundle) : M (list PassCommand) unit :=
  fun e => (Return tt, e ++ [executeBundles bs]).

(** ** The program: [configure], [doDraw], [updateSettings], [frame] *)

Section Program.
Context {num : Type} `{Number num}.

(* The k-th value Math.random() returns. *)
Variable random : nat -> num.

(* device.queue.writeBuffer(buffer, bufferOffset, typedArray.buffer,
   dataOffset, size), offsets and size in bytes, the source given by the
   Float32Array that views it; and device.queue.submit of one render pass. *)
Inductive QueueOp : Type :=
| writeBuffer (buffer : BufferId) (bufferOffset : Z) (data : list num)
              (dataOffset size : Z)
| submit (pass : list PassCommand).

Record Runtime : Type := {
  buffers : list Z;        (* size of each buffer the device created, by id *)
  queue : list QueueOp;    (* operations issued on device.queue, oldest first *)
  randoms : nat;           (* number of Math.random() calls so far *)
  heapLimit : Z            (* the largest byte length of which the host
                              can allocate an ArrayBuffer *)
}.

Definition allocatable (rt : Runtime) (bytes : Z) : bool :=
  bytes <=? heapLimit rt.

Definition createBuffer (size : jsnumber) : M Runtime BufferId :=
  sz <- lift (enforce_range_u64 size) ;;
  fun rt => (Return (length (buffers rt)),
             {| buffers := buffers rt ++ [sz];
                queue := queue rt;
                randoms := randoms rt;
                heapLimit := heapLimit rt |}).

Definition queue_push (op : QueueOp) : M Runtime unit :=
  fun rt => (Return tt,
             {| buffers := buffers rt;
                queue := queue rt ++ [op];
                randoms := randoms rt;
                heapLimit := heapLimit rt |}).

Definition Math_random : M Runtime num :=
  fun rt => (Return (random (randoms rt)),
             {| buffers := buffers rt;
                queue := queue rt;
                randoms := Datatypes.S (randoms rt);
                heapLimit := heapLimit rt |}).

(* Index alignedUniformFloats * i + k of the Float32Array. *)
Definition slot_index (i : nat) (k : Z) : nat :=
  Z.to_nat (alignedUniformFloats * Z.of_nat i + k).

(* Body of the first loop of [configure] (lines 188-208); the assignments
   to uniformBufferData and bindGroups stay within the arrays' lengths,
   where an indexed store replaces the element, in the Float32Array by the
   binary32 value nearest to the number assigned. *)
Definition instance_body (uniformBuffer : BufferId) (i : nat)
    (arrays : list num * list (option BindGroup))
  : M Runtime (list num * list (option BindGroup)) :=
  let uniformBufferData := fst arrays in
  let bindGroups := snd arrays in
  r <- Math_random ;;
  let uniformBufferData :=
    <[slot_index i 0 := nfround (r * nlit 0.2 + nlit 0.2)%num]> uniformBufferData in
  r <- Math_random ;;
  let uniformBufferData :=
    <[slot_index i 1 := nfround (nlit 0.9 * nlit 2 * (r - nlit 0.5))%num]> uniformBufferData in
  r <- Math_random ;;
  let uniformBufferData :=
    <[slot_index i 2 := nfround (nlit 0.9 * nlit 2 * (r - nlit 0.5))%num]> uniformBufferData in
  r <- Math_random ;;
  let uniformBufferData :=
    <[slot_index i 3 := nfround (r * nlit 1.5 + nlit 0.5)%num]> uniformBufferData in
  r <- Math_random ;;
  let uniformBufferData :=
    <[slot_index i 4 := nfround (r * nlit 10)%num]> uniformBufferData in
  let bindGroups :=
    <[i := Some {| bg_layout := bindGroupLayout;
                   bg_buffer := uniformBuffer;
                   bg_offset := Z.of_nat i * alignedUniformBytes;
                   bg_size := 6 * BYTES_PER_ELEMENT |}]> bindGroups in
  ret (uniformBufferData, bindGroups).

(* Lines 186-208: the two arrays and the loop that fills them.  Once
   new Array(numTriangles) has returned, numTriangles is the length of the
   array, which bounds the loop. *)
Definition build_instances (uniformBuffer : BufferId) (numTriangles : jsnumber)
  : M Runtime (list num * list (option BindGroup)) :=
  uniformBufferData <-
    (fun rt => lift (new_Float32Array (allocatable rt)
                       (jmulZ numTriangles alignedUniformFloats)) rt) ;;
  bindGroups <- lift (new_Array numTriangles) ;;
  for_loop 0 (length bindGroups) (instance_body uniformBuffer)
    (uniformBufferData, bindGroups).

(* Lines 241-252: for (offset = 0; offset < length; offset += maxLen).
   Each pass through the body uses one unit of fuel; a loop that is still
   running when the fuel is gone does not return.  The byteOffset of the
   freshly constructed uniformBufferData is 0. *)
Fixpoint upload_loop (fuel : nat) (maxLen : Z) (uniformBuffer : BufferId)
    (uniformBufferData : list num) (offset : Z) : M Runtime unit :=
  if offset <? Z.of_nat (length uniformBufferData) then
    match fuel with
    | O => fun rt => (Diverge, rt)
    | Datatypes.S fuel' =>
        let uploadCount := Z.min (Z.of_nat (length uniformBufferData) - offset) maxLen in
        queue_push (writeBuffer uniformBuffer
                      (offset * BYTES_PER_ELEMENT)
                      uniformBufferData
                      (0 + offset * BYTES_PER_ELEMENT)
                      (uploadCount * BYTES_PER_ELEMENT)) ;;
        upload_loop fuel' maxLen uniformBuffer uniformBufferData (offset + maxLen)
    end
  else ret tt.

(* The offset grows by maxLen on each pass: with a positive maxLen the loop
   runs at most [length] times. *)
Definition upload (maxLen : Z) (uniformBuffer : BufferId)
    (uniformBufferData : list num) : M Runtime unit :=
  upload_loop (length uniformBufferData) maxLen uniformBuffer uniformBufferData 0.

(* The function [configure] returns: the variables it closes over, of which
   startTime and uniformTime are assigned by [doDraw]. *)
Record Closure : Type := {
  triangles : nat;          (* numTriangles, as an array length *)
  uniformBuffer : BufferId;
  bindGroups : list (option BindGroup);
  dynamicBindGroup : BindGroup;
  timeOffset : Z;
  timeBindGroup : BindGroup;
  renderBundle : RenderBundle;
  startTime : option num;
  uniformTime : list num
}.

Definition configure (settings : Settings) : M Runtime Closure :=
  let numTriangles := numTriangles settings in
  uniformBuffer <- createBuffer
    (jaddZ (jmulZ numTriangles alignedUniformBytes) BYTES_PER_ELEMENT) ;;
  arrays <- build_instances uniformBuffer numTriangles ;;
  let uniformBufferData := fst arrays in
  let bindGroups := snd arrays in
  let n := length bindGroups in
  let dynamicBindGroup :=
    {| bg_layout := dynamicBindGroupLayout;
       bg_buffer := uniformBuffer;
       bg_offset := 0;
       bg_size := 6 * BYTES_PER_ELEMENT |} in
  let timeOffset := Z.of_nat n * alignedUniformBytes in
  let timeBindGroup :=
    {| bg_layout := timeBindGroupLayout;
       bg_buffer := uniformBuffer;
       bg_offset := timeOffset;
       bg_size := BYTES_PER_ELEMENT |} in
  upload maxMappingLength uniformBuffer uniformBufferData ;;
  renderBundle <- finish_bundle
    (recordRenderPass settings n bindGroups dynamicBindGroup timeBindGroup) ;;
  ret {| triangles := n;
         uniformBuffer := uniformBuffer;
         bindGroups := bindGroups;
         dynamicBindGroup := dynamicBindGroup;
         timeOffset := timeOffset;
         timeBindGroup := timeBindGroup;
         renderBundle := renderBundle;
         startTime := None;
         uniformTime := [nlit 0] |}.

(* The render pass [doDraw] encodes. *)
Definition encode_pass (settings : Settings) (c : Closure) : M Runtime (list PassCommand) :=
  finish_pass
    (if renderBundles settings
     then pass_executeBundles [renderBundle c]
     else recordRenderPass settings (triangles c) (bindGroups c)
            (dynamicBindGroup c) (timeBindGroup c)).

(* function doDraw(timestamp): the closure's own variables and the runtime
   are both state, so that what was assigned before a throw stays assigned. *)
Definition doDraw (settings : Settings) (timestamp : num)
  : M (Closure * Runtime) unit :=
  fun st =>
    let c := fst st in
    let startTime_ := match startTime c with
                      | None => timestamp
                      | Some t => t
                      end in
    let uniformTime_ :=
      <[0%nat := nfround ((timestamp - startTime_) / nlit 1000)%num]> (uniformTime c) in
    let c := {| triangles := triangles c;
                uniformBuffer := uniformBuffer c;
                bindGroups := bindGroups c;
                dynamicBindGroup := dynamicBindGroup c;
                timeOffset := timeOffset c;
                timeBindGroup := timeBindGroup c;
                renderBundle := renderBundle c;
                startTime := Some startTime_;
                uniformTime := uniformTime_ |} in
    let run :=
      queue_push (writeBuffer (uniformBuffer c) (timeOffset c) uniformTime_
                    0 (byteLength uniformTime_)) ;;
      pass <- encode_pass settings c ;;
      queue_push (submit pass) in
    let r := run (snd st) in
    (fst r, (c, snd r)).

(* Calls of the closure one after the other, each under the settings the
   shared object holds at its frame. *)
Fixpoint draws (calls : list (Settings * num)) : M (Closure * Runtime) unit :=
  match calls with
  | [] => ret tt
  | (settings, timestamp) :: rest => doDraw settings timestamp ;; draws rest
  end.

(* The variables of [init] that outlive a call. *)
Record World : Type := {
  settings : Settings;
  runtime : Runtime;
  current_doDraw : Closure;                (* let doDraw *)
  previousFrameTimestamp : option num;
  jsTimeAvg : option num;
  frameTimeAvg : option num
}.

(* const updateSettings = () => { doDraw = configure(); } *)
Definition updateSettings : M World unit :=
  fun w =>
    match configure (settings w) (runtime w) with
    | (Return c, rt) =>
        (Return tt,
         {| settings := settings w; runtime := rt; current_doDraw := c;
            previousFrameTimestamp := previousFrameTimestamp w;
            jsTimeAvg := jsTimeAvg w; frameTimeAvg := frameTimeAvg w |})
    | (Throw e, rt) =>
        (Throw e,
         {| settings := settings w; runtime := rt;
            current_doDraw := current_doDraw w;
            previousFrameTimestamp := previousFrameTimestamp w;
            jsTimeAvg := jsTimeAvg w; frameTimeAvg := frameTimeAvg w |})
    | (Diverge, rt) =>
        (Diverge,
         {| settings := settings w; runtime := rt;
            current_doDraw := current_doDraw w;
            previousFrameTimestamp := previousFrameTimestamp w;
            jsTimeAvg := jsTimeAvg w; frameTimeAvg := frameTimeAvg w |})
    end.

Definition set_settings (s : Settings) : M World unit :=
  fun w =>
    (Return tt,
     {| settings := s; runtime := runtime w;
        current_doDraw := current_doDraw w;
        previousFrameTimestamp := previousFrameTimestamp w;
        jsTimeAvg := jsTimeAvg w; frameTimeAvg := frameTimeAvg w |}).

(* The "change" and "input" listeners of the three controls. *)
Definition numTriangles_change (valueAsNumber : jsnumber) : M World unit :=
  fun w =>
    (set_settings {| numTriangles := valueAsNumber;
                     renderBundles := renderBundles (settings w);
                     dynamicOffsets := dynamicOffsets (settings w) |} ;;
     updateSettings) w.

Definition dynamicOffsets_input (checked : bool) : M World unit :=
  fun w =>
    (set_settings {| numTriangles := numTriangles (settings w);
                     renderBundles := renderBundles (settings w);
                     dynamicOffsets := checked |} ;;
     updateSettings) w.

Definition renderBundles_input (checked : bool) : M World unit :=
  fun w =>
    (set_settings {| numTriangles := numTriangles (settings w);
                     renderBundles := checked;
                     dynamicOffsets := dynamicOffsets (settings w) |} ;;
     updateSettings) w.

(* avg = (1 - w) * avg + w * sample, after seeding an undefined avg. *)
Definition smooth (avg : option num) (sample : num) : num :=
  let avg_ := match avg with
              | None => sample
              | Some a => a
              end in
  let w := nlit 0.2 in
  ((nlit 1 - w) * avg_ + w * sample)%num.

(* function frame(timestamp); [now_start] and [now_end] are the two readings
   of performance.now() around the call of doDraw.  An exception of doDraw
   leaves the function before the averages are touched. *)
Definition frame (timestamp now_start now_end : num) : M World unit :=
  fun w =>
    let frameTime := match previousFrameTimestamp w with
                     | None => nlit 0
                     | Some p => (timestamp - p)%num
                     end in
    let start := now_start in
    match doDraw (settings w) timestamp (current_doDraw w, runtime w) with
    | (Return _, (c, rt)) =>
        let jsTime := (now_end - start)%num in
        (Return tt,
         {| settings := settings w; runtime := rt; current_doDraw := c;
            previousFrameTimestamp := Some timestamp;
            jsTimeAvg := Some (smooth (jsTimeAvg w) jsTime);
            frameTimeAvg := Some (smooth (frameTimeAvg w) frameTime) |})
    | (Throw e, (c, rt)) =>
        (Throw e,
         {| settings := settings w; runtime := rt; current_doDraw := c;
            previousFrameTimestamp := Some timestamp;
            jsTimeAvg := jsTimeAvg w; frameTimeAvg := frameTimeAvg w |})
    | (Diverge, (c, rt)) =>
        (Diverge,
         {| settings := settings w; runtime := rt; current_doDraw := c;
            previousFrameTimestamp := Some timestamp;
            jsTimeAvg := jsTimeAvg w; frameTimeAvg := frameTimeAvg w |})
    end.

End Program.

Arguments QueueOp : clear implicits.
Arguments Runtime : clear implicits.
Arguments Closure : clear implicits.
Arguments World : clear implicits.

(** ** Reading what the program produced *)

Definition byte : Type := Byte.byte.

Record Range : Type := {
  range_buffer : BufferId;
  range_offset : Z;
  range_size : Z
}.

(* The bytes a setBindGroup call binds: the range of the group, moved by the
   dynamic offset when the layout of the group declares hasDynamicOffset. *)
Definition bound_range (g : BindGroup) (dynamicOffsets : list Z) : Range :=
  {| range_buffer := bg_buffer g;
     range_offset :=
       bg_offset g +
       (if hasDynamicOffset (bg_layout g)
        then default 0 (dynamicOffsets !! 0%nat)
        else 0);
     range_size := bg_size g |}.

Definition read_range (memory : BufferId -> list byte) (r : Range) : list byte :=
  take (Z.to_nat (range_size r))
       (drop (Z.to_nat (range_offset r)) (memory (range_buffer r))).

(* What each draw of a command sequence sees in bind groups 0 (time) and 1
   (uniforms), given the contents of the buffers. *)
Fixpoint draw_inputs (memory : BufferId -> list byte) (group0 group1 : list byte)
    (cmds : list Command) : list (list byte * list byte) :=
  match cmds with
  | [] => []
  | setBindGroup index g offsets :: rest =>
      let bytes := read_range memory (bound_range g offsets) in
      if index =? 0 then draw_inputs memory bytes group1 rest
      else if index =? 1 then draw_inputs memory group0 bytes rest
      else draw_inputs memory group0 group1 rest
  | draw _ _ _ _ :: rest =>
      (group0, group1) :: draw_inputs memory group0 group1 rest
  | _ :: rest => draw_inputs memory group0 group1 rest
  end.

(* The bind group the first loop of [configure] stores at index i. *)
Definition static_group (uniformBuffer : BufferId) (i : nat) : BindGroup :=
  {| bg_layout := bindGroupLayout;
     bg_buffer := uniformBuffer;
     bg_offset := Z.of_nat i * alignedUniformBytes;
     bg_size := 6 * BYTES_PER_ELEMENT |}.

(* The per-frame sequence in the words of the specification: pipeline,
   vertex buffer, time bind group, then per instance in index order one
   bind-group set and one draw of 3 vertices. *)
Definition instance_commands (dynamic : bool) (uniformBuffer : BufferId)
    (dynamicGroup : BindGroup) (i : nat) : list Command :=
  [ if dynamic
    then setBindGroup 1 dynamicGroup [Z.of_nat i * alignedUniformBytes]
    else setBindGroup 1 (static_group uniformBuffer i) [];
    draw 3 1 0 0 ].

Definition frame_sequence (dynamic : bool) (n : nat) (uniformBuffer : BufferId)
    (dynamicGroup timeGroup : BindGroup) : list Command :=
  [ setPipeline (if dynamic then dynamicPipeline else pipeline);
    setVertexBuffer 0 vertexBuffer;
    setBindGroup 0 timeGroup [] ]
  ++ flat_map (instance_commands dynamic uniformBuffer dynamicGroup) (seq 0 n).

(* One writeBuffer as a copy of bytes. *)
Record Transfer : Type := {
  dst_offset : Z;
  src_offset : Z;
  size : Z
}.

Definition slice (src : list byte) (t : Transfer) : list byte :=
  take (Z.to_nat (size t)) (drop (Z.to_nat (src_offset t)) src).

Definition apply_transfer (src : list byte) (dst : list byte) (t : Transfer)
  : list byte :=
  take (Z.to_nat (dst_offset t)) dst ++ slice src t
  ++ drop (Z.to_nat (dst_offset t + size t)) dst.

(* Transfers that follow one another from byte [from] to byte [to]: each
   starts, in source and destination, where the one before ended, and moves
   at least one and at most [ceiling] bytes. *)
Fixpoint tiles (ceiling from : Z) (ts : list Transfer) (to : Z) : Prop :=
  match ts with
  | [] => from = to
  | t :: rest =>
      dst_offset t = from /\ src_offset t = from /\
      0 < size t <= ceiling /\
      tiles ceiling (from + size t) rest to
  end.

(* The element a Float32Array holds at a byte offset of its buffer. *)
Definition element_at {A} (a : list A) (byteOffset : Z) : option A :=
  if (0 <=? byteOffset) && (byteOffset mod BYTES_PER_ELEMENT =? 0)
  then a !! Z.to_nat (byteOffset / BYTES_PER_ELEMENT)
  else None.

Section Reading.
Context {num : Type} `{Number num}.

Definition transfer_op (uniformBuffer : BufferId) (data : list num) (t : Transfer)
  : QueueOp num :=
  writeBuffer uniformBuffer (dst_offset t) data (src_offset t) (size t).

(* The runtime after more operations were issued on the queue. *)
Definition pushed (rt : Runtime num) (ops : list (QueueOp num)) : Runtime num :=
  {| buffers := buffers rt; queue := queue rt ++ ops; randoms := randoms rt;
     heapLimit := heapLimit rt |}.

(* The closure is as [configure] builds it: a bind group per index and the
   one-element uniformTime. *)
Definition closure_ok (c : Closure num) : Prop :=
  bindGroups c = map (fun i => Some (static_group (uniformBuffer c) i)) (seq 0 (triangles c))
  /\ length (uniformTime c) = 1%nat.

(* The closure [configure] returns for n triangles when the device hands out
   buffer [ub], in closed form. *)
Definition closure_for (s : Settings) (ub : BufferId) (n : nat) : Closure num :=
  let dynamicGroup :=
    {| bg_layout := dynamicBindGroupLayout; bg_buffer := ub;
       bg_offset := 0; bg_size := 6 * BYTES_PER_ELEMENT |} in
  let timeGroup :=
    {| bg_layout := timeBindGroupLayout; bg_buffer := ub;
       bg_offset := Z.of_nat n * alignedUniformBytes;
       bg_size := BYTES_PER_ELEMENT |} in
  {| triangles := n;
     uniformBuffer := ub;
     bindGroups := map (fun i => Some (static_group ub i)) (seq 0 n);
     dynamicBindGroup := dynamicGroup;
     timeOffset := Z.of_nat n * alignedUniformBytes;
     timeBindGroup := timeGroup;
     renderBundle := frame_sequence (dynamicOffsets s) n ub dynamicGroup timeGroup;
     startTime := None;
     uniformTime := [nlit 0] |}.

(* The sequence of a closure under a value of the dynamicOffsets flag. *)
Definition sequence_of (dynamic : bool) (c : Closure num) : list Command :=
  frame_sequence dynamic (triangles c) (uniformBuffer c)
    (dynamicBindGroup c) (timeBindGroup c).

(* What a call doDraw(timestamp) on closure c writes to the time uniform
   (the element uniformTime[0] after the store), leaves in the closure, and
   submits. *)
Definition elapsed (c : Closure num) (timestamp : num) : num :=
  nfround ((timestamp - match startTime c with
                        | None => timestamp
                        | Some t => t
                        end) / nlit 1000)%num.

Definition ticked (c : Closure num) (timestamp : num) : Closure num :=
  {| triangles := triangles c;
     uniformBuffer := uniformBuffer c;
     bindGroups := bindGroups c;
     dynamicBindGroup := dynamicBindGroup c;
     timeOffset := timeOffset c;
     timeBindGroup := timeBindGroup c;
     renderBundle := renderBundle c;
     startTime := Some match startTime c with
                       | None => timestamp
                       | Some t => t
                       end;
     uniformTime := [elapsed c timestamp] |}.

Definition pass_of (s : Settings) (c : Closure num) : list PassCommand :=
  if renderBundles s
  then [executeBundles [renderBundle c]]
  else map encoded (sequence_of (dynamicOffsets s) c).

Definition draw_ops (s : Settings) (c : Closure num) (timestamp : num)
  : list (QueueOp num) :=
  [ writeBuffer (uniformBuffer c) (timeOffset c) [elapsed c timestamp]
      0 BYTES_PER_ELEMENT;
    submit (pass_of s c) ].

(* The variables of [init] right after  let doDraw = configure()  and the
   declarations of lines 354-356, before the first frame. *)
Definition fresh_world (s : Settings) (rt : Runtime num) (c : Closure num)
  : World num :=
  {| settings := s; runtime := rt; current_doDraw := c;
     previousFrameTimestamp := None; jsTimeAvg := None; frameTimeAvg := None |}.

End Reading.

(* The value field k of a slot holds after the store of lines 189-193,
   from the draw r. *)
Definition drawn_value {num} `{Number num} (k : nat) (r : num) : num :=
  nfround
    match k with
    | 0%nat => (r * nlit 0.2 + nlit 0.2)%num
    | 1%nat | 2%nat => (nlit 0.9 * nlit 2 * (r - nlit 0.5))%num
    | 3%nat => (r * nlit 1.5 + nlit 0.5)%num
    | _ => (r * nlit 10)%num
    end.

(** ** Runs of the program *)

Section Runs.
Context {num : Type} `{Number num}.
Variable random : nat -> num.

(* One of the three controls fired and its listener ran to the end. *)
Inductive reconfigured : World num -> World num -> Prop :=
| reconfigured_numTriangles (v : jsnumber) (w w' : World num) :
    numTriangles_change random v w = (Return tt, w') -> reconfigured w w'
| reconfigured_dynamicOffsets (b : bool) (w w' : World num) :
    dynamicOffsets_input random b w = (Return tt, w') -> reconfigured w w'
| reconfigured_renderBundles (b : bool) (w w' : World num) :
    renderBundles_input random b w = (Return tt, w') -> reconfigured w w'.

(* The states of [init] after  let doDraw = configure()  returned: any
   interleaving of listeners (whatever their outcome) and frames. *)
Inductive reachable : World num -> Prop :=
| reachable_init (s : Settings) (rt rt' : Runtime num) (c : Closure num) :
    configure random s rt = (Return c, rt') ->
    reachable (fresh_world s rt' c)
| reachable_numTriangles (v : jsnumber) (w w' : World num) (o : Outcome unit) :
    reachable w -> numTriangles_change random v w = (o, w') -> reachable w'
| reachable_dynamicOffsets (b : bool) (w w' : World num) (o : Outcome unit) :
    reachable w -> dynamicOffsets_input random b w = (o, w') -> reachable w'
| reachable_renderBundles (b : bool) (w w' : World num) (o : Outcome unit) :
    reachable w -> renderBundles_input random b w = (o, w') -> reachable w'
| reachable_frame (t now_start now_end : num) (w w' : World num) (o : Outcome unit) :
    reachable w -> frame t now_start now_end w = (o, w') -> reachable w'.

End Runs.

(* The average after n more frames that all deliver the same sample. *)
Fixpoint smooth_repeat {num} `{Number num} (n : nat) (avg : option num) (sample : num)
  : option num :=
  match n with
  | O => avg
  | Datatypes.S n' => smooth_repeat n' (Some (smooth avg sample)) sample
  end.

(* A value of [valueAsNumber] that is negative or not finite. *)
Definition negative_or_non_finite (v : jsnumber) : Prop :=
  match v with
  | JFinite q => (q < 0)%Q
  | JNaN => True
  | JInfinity _ => True
  end.

(** ** Inputs for examples *)

(* The device after [init] created the vertex buffer, on a host that
   allocates array buffers of up to 2^31 bytes. *)
Definition device_start {num} : Runtime num :=
  {| buffers := [2 * 3 * vec4Size]; queue := []; randoms := 0;
     heapLimit := 2 ^ 31 |}.

Definition two_triangles : Settings :=
  {| numTriangles := JFinite 2; renderBundles := false; dynamicOffsets := false |}.

(* Math.random() returning 1/2, and returning 0, every time. *)
Definition always_half : nat -> Q := fun _ => 0.5%Q.
Definition always_zero : nat -> Q := fun _ => 0%Q.

(* The world of two triangles before its first frame, and after a frame at
   time stamp 5. *)
Definition fresh_example : World Q :=
  fresh_world two_triangles
    (snd (configure always_half two_triangles device_start))
    (closure_for two_triangles 1%nat 2%nat).

Definition running_example : World Q := snd (frame 5%Q 0%Q 0%Q fresh_example).

(* The same in binary64, with one triangle. *)
Definition one_triangle : Settings :=
  {| numTriangles := JFinite 1; renderBundles := false; dynamicOffsets := false |}.

Definition always_half_f64 : nat -> float := fun _ => nlit 0.5%Q.

Definition fresh_example_f64 : World float :=
  fresh_world one_triangle
    (snd (configure always_half_f64 one_triangle device_start))
    (closure_for one_triangle 1%nat 1%nat).

(* An encoder after it has been given a list of commands. *)
Definition encode_all {E} `{Encoder E} (cmds : list Command) (e : E) : E :=
  foldl (fun e c => encode c e) e cmds.

(** ** The rest of [init]: vertex buffer, vertex layout, shader *)

(* Float32Array.prototype.set(array): RangeError when the source is longer
   than the target, else the numbers of the source, each rounded to
   binary32, replace the start of the target. *)
Definition typed_array_set {num} `{Number num} (target source : list num)
  : Outcome (list num) :=
  if (length target <? length source)%nat then Throw RangeError
  else Return (map nfround source ++ drop (length source) target).

(* Lines 157-169: size of the vertex buffer, the array literal given to
   set (position, then colour, per vertex), and the Float32Array over the
   mapped range after the call of set. *)
Definition vertexBufferSize : Z := 2 * 3 * vec4Size.

Definition vertexData {num} `{Number num} : list num :=
  map nlit
    [ 0;     0.1; 0; 1;   1; 0; 0; 1;
      -0.1; -0.1; 0; 1;   0; 1; 0; 1;
      0.1;  -0.1; 0; 1;   0; 0; 1; 1 ]%Q.

Definition mapped_vertexBuffer {num} `{Number num} : Outcome (list num) :=
  typed_array_set
    (replicate (Z.to_nat (vertexBufferSize / BYTES_PER_ELEMENT)) (nlit 0))
    vertexData.

(* Lines 123-139: the one vertex buffer layout of pipelineDesc. *)
Definition arrayStride : Z := 2 * vec4Size.

Definition attribute_offset (shaderLocation : nat) : option Z :=
  match shaderLocation with
  | 0%nat => Some 0
  | 1%nat => Some vec4Size
  | _ => None
  end.

Record vec4 (A : Type) : Type := {
  vec_x : A; vec_y : A; vec_z : A; vec_w : A
}.
Arguments vec_x {A} v.
Arguments vec_y {A} v.
Arguments vec_z {A} v.
Arguments vec_w {A} v.

(* A float32x4 attribute read at a byte offset of a buffer of floats. *)
Definition fetch_float32x4 {A} (buffer : list A) (byteOffset : Z) : option (vec4 A) :=
  match element_at buffer byteOffset,
        element_at buffer (byteOffset + 4),
        element_at buffer (byteOffset + 8),
        element_at buffer (byteOffset + 12) with
  | Some x, Some y, Some z, Some w =>
      Some {| vec_x := x; vec_y := y; vec_z := z; vec_w := w |}
  | _, _, _, _ => None
  end.

(* stepMode "vertex": attribute [shaderLocation] of vertex [vertexIndex]. *)
Definition vertex_fetch {A} (buffer : list A) (shaderLocation vertexIndex : nat)
  : option (vec4 A) :=
  match attribute_offset shaderLocation with
  | Some off => fetch_float32x4 buffer (arrayStride * Z.of_nat vertexIndex + off)
  | None => None
  end.

(* Lines 71-115: the WGSL module.  An f32 is modelled as the rational it
   is, and every operation of the shader ends with the rounding [rnd] of
   its exact result: WGSL leaves the direction of the rounding open, so
   [rnd] is a parameter, [binary32] being one choice and [exact] (no
   rounding at all) the arithmetic of the rationals.  The literals 0.0,
   0.5, 1.0, 2.0 and 10.0 are f32 as they stand, 3.1415926 is not.
   e1 % e2 on f32 is e1 - e2 * trunc(e1 / e2); cos and sin are builtins of
   the shading language and are taken as given. *)
Record Uniforms : Type := {
  scale : Q;
  offsetX : Q;
  offsetY : Q;
  scalar : Q;
  scalarOffset : Q
}.

Record VertexOutput : Type := {
  Position : vec4 Q;
  v_color : vec4 Q
}.

Definition exact : Q -> Q := fun q => q.

(* What is asked of a rounding of the shader: the result of a number
   between two f32 stays between them.  So an f32 is not rounded, and any
   other number ends between the f32 below it and the f32 above it:
   rounding to nearest, up, down or toward zero all do that, as does a
   result kept at a higher precision. *)
Definition is_f32 (q : Q) : Prop := (binary32 q == q)%Q.

Definition rounds_within_f32 (rnd : Q -> Q) : Prop :=
  forall lo hi x : Q, is_f32 lo -> is_f32 hi ->
    (lo <= x <= hi)%Q -> (lo <= rnd x <= hi)%Q.

Definition wgsl_lt (a b : Q) : bool := negb (Qle_bool b a).

Section Shader.
Variable rnd : Q -> Q.
Variables cos sin : Q -> Q.

Definition wgsl_rem (e1 e2 : Q) : Q :=
  rnd (e1 - rnd (e2 * inject_Z (Qtrunc (rnd (e1 / e2))))).

(* The value of the variable fade after the if of lines 94-98. *)
Definition fade_of (time : Q) (uniforms : Uniforms) : Q :=
  let fade :=
    wgsl_rem
      (rnd (scalarOffset uniforms + rnd (rnd (time * scalar uniforms) / 10.0)))
      1.0 in
  if wgsl_lt fade 0.5 then rnd (fade * 2.0) else rnd (rnd (1.0 - fade) * 2.0).

Definition vert_main (time : Q) (uniforms : Uniforms) (position color : vec4 Q)
  : VertexOutput :=
  let fade := fade_of time uniforms in
  let xpos := rnd (vec_x position * scale uniforms) in
  let ypos := rnd (vec_y position * scale uniforms) in
  let angle := rnd (rnd (rnd 3.1415926 * 2.0) * fade) in
  let xrot := rnd (rnd (xpos * cos angle) - rnd (ypos * sin angle)) in
  let yrot := rnd (rnd (xpos * sin angle) + rnd (ypos * cos angle)) in
  let xpos := rnd (xrot + offsetX uniforms) in
  let ypos := rnd (yrot + offsetY uniforms) in
  {| v_color :=
       {| vec_x := rnd (fade + vec_x color);
          vec_y := rnd (rnd (1.0 - fade) + vec_y color);
          vec_z := rnd (0.0 + vec_z color);
          vec_w := rnd (1.0 + vec_w color) |};
     Position :=
       {| vec_x := xpos; vec_y := ypos; vec_z := 0.0%Q; vec_w := 1.0%Q |} |}.

Definition frag_main (v_color : vec4 Q) : vec4 Q := v_color.

End Shader.

(* The struct Uniforms as the shader reads it from a binding that starts at
   slot i of the instance table: five f32 at byte offsets 0, 4, 8, 12, 16. *)
Definition uniforms_at (data : list Q) (i : nat) : option Uniforms :=
  let slot := Z.of_nat i * alignedUniformBytes in
  match element_at data (slot + 0), element_at data (slot + 4),
        element_at data (slot + 8), element_at data (slot + 12),
        element_at data (slot + 16) with
  | Some a, Some b, Some c, Some d, Some e =>
      Some {| scale := a; offsetX := b; offsetY := c; scalar := d; scalarOffset := e |}
  | _, _, _, _, _ => None
  end.

(** ** Reading the runtime: which buffer an operation writes *)

Definition written_buffer {num} (op : QueueOp num) : option BufferId :=
  match op with
  | writeBuffer b _ _ _ _ => Some b
  | submit _ => None
  end.

(** ** The contents of a buffer, and the frame loop *)

Section Memory.
Context {num : Type} `{Number num}.

(* The four bytes a value takes as an element of a Float32Array. *)
Variable enc : num -> list byte.

(* The ArrayBuffer behind a Float32Array. *)
Definition array_bytes (a : list num) : list byte := concat (map enc a).

(* What an operation of the queue does to the contents of buffer b:
   writeBuffer copies, submit writes no buffer. *)
Definition write_op (b : BufferId) (contents : list byte) (op : QueueOp num)
  : list byte :=
  match op with
  | writeBuffer b' bufferOffset data dataOffset sz =>
      if Nat.eqb b' b
      then apply_transfer (array_bytes data) contents
             {| dst_offset := bufferOffset; src_offset := dataOffset; size := sz |}
      else contents
  | submit _ => contents
  end.

(* The contents of buffer b once the queue has run, for a buffer that was
   not mapped at creation: createBuffer hands out zeroed memory. *)
Definition buffer_contents (rt : Runtime num) (b : BufferId) : list byte :=
  match buffers rt !! b with
  | Some sz => foldl (write_op b) (replicate (Z.to_nat sz) Byte.x00) (queue rt)
  | None => []
  end.

End Memory.

(* No operation on the queue writes a buffer that does not exist yet. *)
Definition queue_ok {num} (rt : Runtime num) : Prop :=
  Forall (fun op => match written_buffer op with
                    | Some b => (b < length (buffers rt))%nat
                    | None => True
                    end) (queue rt).

(* Lines 386 and 389: frame asks for the next frame as its last statement,
   so the callbacks run one after the other for as long as each returns. *)
Fixpoint run_frames {num} `{Number num} (frames : list (num * num * num))
  : M (World num) unit :=
  match frames with
  | [] => ret tt
  | (timestamp, now_start, now_end) :: rest =>
      frame timestamp now_start now_end ;; run_frames rest
  end.

(* The time stamps of a list of frames, and the last of them (or a default). *)
Definition timestamps {num} (frames : list (num * num * num)) : list num :=
  map (fun f => fst (fst f)) frames.

(* The six leading elements of slot i of the table [configure] builds when
   [r0] numbers were drawn before: five fields and one untouched element. *)
Definition slot_values {num} `{Number num} (random : nat -> num) (r0 i : nat)
  : list num :=
  [ drawn_value 0 (random (0 + 5 * i + r0)%nat);
    drawn_value 1 (random (1 + 5 * i + r0)%nat);
    drawn_value 2 (random (2 + 5 * i + r0)%nat);
    drawn_value 3 (random (3 + 5 * i + r0)%nat);
    drawn_value 4 (random (4 + 5 * i + r0)%nat);
    nlit 0 ].

(* The uniform buffer of the current closure holds the bytes [table] of the
   instance table and, after them, the four bytes [tb] of the time slot. *)
Definition holds {num} `{Number num} (enc : num -> list byte) (w : World num)
    (table tb : list byte) : Prop :=
  let c := current_doDraw w in
  closure_ok c /\
  buffers (runtime w) !! uniformBuffer c
    = Some (Z.of_nat (triangles c) * alignedUniformBytes + BYTES_PER_ELEMENT) /\
  timeOffset c = Z.of_nat (triangles c) * alignedUniformBytes /\
  buffer_contents enc (runtime w) (uniformBuffer c) = table ++ tb /\
  length table = (256 * triangles c)%nat /\ length tb = 4%nat.

(* Two closures that differ at most in startTime and uniformTime. *)
Definition same_configuration {num} (c c' : Closure num) : Prop :=
  triangles c' = triangles c /\ uniformBuffer c' = uniformBuffer c /\
  bindGroups c' = bindGroups c /\ dynamicBindGroup c' = dynamicBindGroup c /\
  timeOffset c' = timeOffset c /\ timeBindGroup c' = timeBindGroup c /\
  renderBundle c' = renderBundle c.

(* The values the writeBuffer operations of a list carry, in order. *)
Definition written_values {num} (ops : list (QueueOp num)) : list num :=
  flat_map (fun op => match op with
                      | writeBuffer _ _ data _ _ => data
                      | submit _ => []
                      end) ops.

(* A closure whose array of bind groups has a hole at index 1: what
   recordRenderPass would meet if the first loop of configure had skipped an
   index. *)
Definition closure_with_hole : Closure Q :=
  {| triangles := 2%nat;
     uniformBuffer := 1%nat;
     bindGroups := [Some (static_group 1%nat 0%nat); None];
     dynamicBindGroup := dynamicBindGroup (closure_for (num:=Q) two_triangles 1%nat 2%nat);
     timeOffset := 512;
     timeBindGroup := timeBindGroup (closure_for (num:=Q) two_triangles 1%nat 2%nat);
     renderBundle := [];
     startTime := None;
     uniformTime := [0%Q] |}.

(** ** The state of an encoder at its draws *)

(* What a draw call finds set on its encoder: the pipeline, the buffer in
   vertex slot 0, the groups at indices 0 and 1 with the dynamic offsets they
   were set with, and the vertices it asks for. *)
Record DrawCall : Type := {
  at_pipeline : option Pipeline;
  at_vertexBuffer : option BufferId;
  at_group0 : option (BindGroup * list Z);
  at_group1 : option (BindGroup * list Z);
  at_firstVertex : Z;
  at_vertexCount : Z
}.

Fixpoint draw_calls (p : option Pipeline) (vb : option BufferId)
    (g0 g1 : option (BindGroup * list Z)) (cmds : list Command) : list DrawCall :=
  match cmds with
  | [] => []
  | setPipeline p' :: rest => draw_calls (Some p') vb g0 g1 rest
  | setVertexBuffer slot b :: rest =>
      if slot =? 0 then draw_calls p (Some b) g0 g1 rest
      else draw_calls p vb g0 g1 rest
  | setBindGroup index g offsets :: rest =>
      if index =? 0 then draw_calls p vb (Some (g, offsets)) g1 rest
      else if index =? 1 then draw_calls p vb g0 (Some (g, offsets)) rest
      else draw_calls p vb g0 g1 rest
  | draw vertexCount _ firstVertex _ :: rest =>
      {| at_pipeline := p; at_vertexBuffer := vb; at_group0 := g0; at_group1 := g1;
         at_firstVertex := firstVertex; at_vertexCount := vertexCount |}
      :: draw_calls p vb g0 g1 rest
  end.

Definition layout_eqb (a b : BindGroupLayout) : bool :=
  match a, b with
  | timeBindGroupLayout, timeBindGroupLayout
  | bindGroupLayout, bindGroupLayout
  | dynamicBindGroupLayout, dynamicBindGroupLayout => true
  | _, _ => false
  end.

(* A group set at an index fits the layout the pipeline declares there: it
   was created with that layout, and it was set with one dynamic offset per
   binding that declares hasDynamicOffset, each a multiple of 256. *)
Definition group_fits (l : BindGroupLayout) (g : option (BindGroup * list Z)) : bool :=
  match g with
  | Some (g, offsets) =>
      layout_eqb (bg_layout g) l
      && (length offsets =? (if hasDynamicOffset l then 1 else 0))%nat
      && forallb (fun o => o mod 256 =? 0) offsets
  | None => false
  end.

(* The draw has a pipeline, groups that fit the two layouts of the pipeline,
   and the vertex buffer of [init] in slot 0, long enough for the vertices
   asked for under the arrayStride of pipelineDesc. *)
Definition draw_fits (d : DrawCall) : bool :=
  match at_pipeline d with
  | Some p =>
      match pipelineLayout p with
      | [l0; l1] => group_fits l0 (at_group0 d) && group_fits l1 (at_group1 d)
      | _ => false
      end
  | None => false
  end
  && match at_vertexBuffer d with
     | Some b =>
         Nat.eqb b vertexBuffer
         && (0 <=? at_firstVertex d)
         && (arrayStride * (at_firstVertex d + at_vertexCount d) <=? vertexBufferSize)
     | None => false
     end.

(** ** The page: the two displays and their throttle *)

Section Display.
Context {num : Type} `{Number num}.
Variable random : nat -> num.

(* The variables of [init] with those of lines 349-357: what was assigned to
   the innerText of each div so far (the interpolated average, newest
   first; empty while the div is empty), the flag updateDisplay, and the
   callbacks given to setTimeout that have not run yet. *)
Record Page : Type := {
  world : World num;
  avgFrameDisplay : list (option num);
  avgJavascript : list (option num);
  updateDisplay : bool;
  timeouts : nat
}.

Definition page_start (w : World num) : Page :=
  {| world := w; avgFrameDisplay := []; avgJavascript := [];
     updateDisplay := true; timeouts := 0 |}.

Definition with_world (p : Page) (w : World num) : Page :=
  {| world := w; avgFrameDisplay := avgFrameDisplay p;
     avgJavascript := avgJavascript p;
     updateDisplay := updateDisplay p; timeouts := timeouts p |}.

(* function frame(timestamp) with lines 379-384; an exception of doDraw
   leaves the function before them. *)
Definition frame_page (timestamp now_start now_end : num) : M Page unit :=
  fun p =>
    match frame timestamp now_start now_end (world p) with
    | (Return _, w) =>
        if updateDisplay p
        then (Return tt,
              {| world := w;
                 avgFrameDisplay := frameTimeAvg w :: avgFrameDisplay p;
                 avgJavascript := jsTimeAvg w :: avgJavascript p;
                 updateDisplay := false;
                 timeouts := Datatypes.S (timeouts p) |})
        else (Return tt, with_world p w)
    | (Throw e, w) => (Throw e, with_world p w)
    | (Diverge, w) => (Diverge, with_world p w)
    end.

(* () => { updateDisplay = true }, run by the timer. *)
Definition timeout_callback : M Page unit :=
  fun p =>
    (Return tt,
     {| world := world p; avgFrameDisplay := avgFrameDisplay p;
        avgJavascript := avgJavascript p;
        updateDisplay := true; timeouts := Nat.pred (timeouts p) |}).

(* A listener of a control: it touches none of the variables of the
   display. *)
Definition on_world (m : M (World num) unit) : M Page unit :=
  fun p => let r := m (world p) in (fst r, with_world p (snd r)).

(* What the browser can call back. *)
Inductive Event : Type :=
| numTriangles_changed (valueAsNumber : jsnumber)
| dynamicOffsets_clicked (checked : bool)
| renderBundles_clicked (checked : bool)
| animation_frame (timestamp now_start now_end : num)
| timeout_elapsed.

Definition handle (e : Event) : M Page unit :=
  match e with
  | numTriangles_changed v => on_world (numTriangles_change random v)
  | dynamicOffsets_clicked b => on_world (dynamicOffsets_input random b)
  | renderBundles_clicked b => on_world (renderBundles_input random b)
  | animation_frame t now_start now_end => frame_page t now_start now_end
  | timeout_elapsed => timeout_callback
  end.

(* A timer can only elapse when one was set and has not run. *)
Definition enabled (e : Event) (p : Page) : bool :=
  match e with
  | timeout_elapsed => (0 <? timeouts p)%nat
  | _ => true
  end.

(* The page after a list of callbacks, each run to its end whatever its
   outcome; None when the list lets a timer elapse that was never set. *)
Fixpoint run_events (es : list Event) (p : Page) : option Page :=
  match es with
  | [] => Some p
  | e :: rest =>
      if enabled e p then run_events rest (snd (handle e p)) else None
  end.

Fixpoint elapsed_timeouts (es : list Event) : nat :=
  match es with
  | [] => 0
  | timeout_elapsed :: rest => Datatypes.S (elapsed_timeouts rest)
  | _ :: rest => elapsed_timeouts rest
  end.

(* What holds of a page after the callbacks [es] from the page [start]. *)
Definition page_inv (start : Page) (es : list Event) (p : Page) : Prop :=
  reachable random (world p) /\
  timeouts p = (if updateDisplay p then 0 else 1)%nat /\
  length (avgFrameDisplay p) = (elapsed_timeouts es + timeouts p)%nat /\
  length (avgJavascript p) = length (avgFrameDisplay p) /\
  (avgFrameDisplay p = [] <-> frameTimeAvg (world p) = None) /\
  (forall i x y,
     avgFrameDisplay p !! i = Some x -> avgJavascript p !! i = Some y ->
     x <> None /\ y <> None /\
     exists es1 es2 p1,
       es = es1 ++ es2 /\ run_events es1 start = Some p1 /\
       frameTimeAvg (world p1) = x /\ jsTimeAvg (world p1) = y).

End Display.

Arguments Page : clear implicits.
Arguments Event : clear implicits.

(* n frames at time stamps t0 + i * d for i = first, first + 1, ..., each of
   which spends js between the two readings of performance.now(). *)
Definition steady_frames (t0 d js : Q) (first n : nat) : list (Q * Q * Q) :=
  map (fun i => (t0 + inject_Z (Z.of_nat i) * d, 0, js)%Q) (seq first n).

(** * Properties *)

(** ** Constants *)

Lemma alignedUniformBytes_eq : alignedUniformBytes = 256.
Proof. reflexivity. Qed.

Lemma alignedUniformFloats_eq : alignedUniformFloats = 64.
Proof. reflexivity. Qed.

Lemma maxMappingLength_eq : maxMappingLength = 3670016.
Proof. reflexivity. Qed.

Lemma BYTES_PER_ELEMENT_eq : BYTES_PER_ELEMENT = 4.
Proof. reflexivity. Qed.

(** ** Rounding *)

Lemma pow2_pos (k : Z) : (0 < 2 ^ k)%Q.
Proof. apply Qpower_0_lt. reflexivity. Qed.

Lemma pow2_plus (a b : Z) : (2 ^ (a + b) == 2 ^ a * 2 ^ b)%Q.
Proof. apply Qpower_plus. discriminate. Qed.

Lemma pow2_le (a b : Z) : a <= b -> (2 ^ a <= 2 ^ b)%Q.
Proof. intros Hab. apply Qpower_le_compat_l; [exact Hab | discriminate]. Qed.

Lemma pow2_lt_inv (a b : Z) : (2 ^ a < 2 ^ b)%Q -> a < b.
Proof. intros Hab. apply (Qpower_lt_compat_l_inv 2); [exact Hab | reflexivity]. Qed.

Lemma pow2_inject (k : Z) : 0 <= k -> (2 ^ k == inject_Z (2 ^ k))%Q.
Proof. intros Hk. rewrite (Zpower_Qpower 2 k Hk). reflexivity. Qed.

Lemma pow2_div (m k : Z) : (2 ^ m / 2 ^ k == 2 ^ (m - k))%Q.
Proof.
  unfold Z.sub. rewrite pow2_plus, Qpower_opp. reflexivity.
Qed.

Lemma round_half_even_comp (x y : Q) :
  (x == y)%Q -> round_half_even x = round_half_even y.
Proof.
  intros Hxy. unfold round_half_even.
  rewrite (Qfloor_comp x y Hxy).
  assert (Hc : ((x - inject_Z (Qfloor y) ?= 1 # 2) = (y - inject_Z (Qfloor y) ?= 1 # 2))%Q).
  { apply Qcompare_comp; [rewrite Hxy|]; reflexivity. }
  rewrite Hc. reflexivity.
Qed.

Lemma round_half_even_inject (z : Z) : round_half_even (inject_Z z) = z.
Proof.
  unfold round_half_even. rewrite Qfloor_Z.
  destruct (Qcompare_spec (inject_Z z - inject_Z z) (1 # 2)) as [H|H|H]; lra || reflexivity.
Qed.

Lemma round_half_even_bounds (q : Q) :
  Qfloor q <= round_half_even q <= Qfloor q + 1.
Proof.
  unfold round_half_even.
  destruct (Qcompare (q - inject_Z (Qfloor q)) (1 # 2)); [destruct (Z.even (Qfloor q))| |]; lia.
Qed.

Lemma round_half_even_mono (x y : Q) :
  (x <= y)%Q -> round_half_even x <= round_half_even y.
Proof.
  intros Hxy.
  pose proof (Qfloor_resp_le x y Hxy) as Hf.
  destruct (Z.eq_dec (Qfloor x) (Qfloor y)) as [Heq|Hne].
  - unfold round_half_even. rewrite Heq.
    destruct (Qcompare_spec (x - inject_Z (Qfloor y)) (1 # 2)) as [Hx|Hx|Hx];
      destruct (Qcompare_spec (y - inject_Z (Qfloor y)) (1 # 2)) as [Hy|Hy|Hy];
      try lra; try lia; destruct (Z.even (Qfloor y)); lia.
  - pose proof (round_half_even_bounds x). pose proof (round_half_even_bounds y). lia.
Qed.

Lemma Qlog2_comp (x y : Q) : (x == y)%Q -> Qlog2 x = Qlog2 y.
Proof.
  intros Hxy. unfold Qlog2.
  rewrite (Qleb_comp 1%Q 1%Q (Qeq_refl 1%Q) x y Hxy), (Qfloor_comp x y Hxy).
  rewrite (Qceiling_comp (/ x) (/ y)) by (rewrite Hxy; reflexivity).
  reflexivity.
Qed.

Lemma Qlog2_spec (q : Q) : (0 < q)%Q -> (2 ^ Qlog2 q <= q < 2 ^ (Qlog2 q + 1))%Q.
Proof.
  intros Hq. unfold Qlog2. destruct (Qle_bool 1 q) eqn:H1.
  - apply Qle_bool_iff in H1.
    assert (Hf : 1 <= Qfloor q).
    { change 1 with (Qfloor 1). apply Qfloor_resp_le. exact H1. }
    destruct (Z.log2_spec (Qfloor q)) as [Hlo Hhi]; [lia|].
    pose proof (Z.log2_nonneg (Qfloor q)) as Hnn.
    rewrite !pow2_inject by lia. split.
    + apply Qle_trans with (inject_Z (Qfloor q)); [|apply Qfloor_le].
      rewrite <- Zle_Qle. exact Hlo.
    + apply Qlt_le_trans with (inject_Z (Qfloor q + 1)); [apply Qlt_floor|].
      rewrite <- Zle_Qle. unfold Z.succ in Hhi. lia.
  - assert (Hlt : (q < 1)%Q).
    { apply Qnot_le_lt. intros Hle. apply Qle_bool_iff in Hle. congruence. }
    assert (Hinv : (1 < / q)%Q).
    { apply Qlt_shift_inv_l; [exact Hq | lra]. }
    set (c := Qceiling (/ q)).
    assert (Hc : 1 < c).
    { assert (Hc1 : (1 < inject_Z c)%Q)
        by (apply Qlt_le_trans with (/ q); [exact Hinv | apply Qle_ceiling]).
      change 1%Q with (inject_Z 1) in Hc1. rewrite <- Zlt_Qlt in Hc1. exact Hc1. }
    destruct (Z.log2_up_spec c Hc) as [Hlo Hhi].
    pose proof (Z.log2_up_nonneg c) as Hnn.
    assert (Hm : 0 < Z.log2_up c) by (apply Z.log2_up_pos; exact Hc).
    set (m := Z.log2_up c) in *.
    assert (Hqm : (q * 2 ^ m >= 1)%Q).
    { assert (Hle : (/ q <= 2 ^ m)%Q).
      { apply Qle_trans with (inject_Z c); [apply Qle_ceiling|].
        rewrite pow2_inject by lia. rewrite <- Zle_Qle. exact Hhi. }
      assert (Hone : (q * / q == 1)%Q) by (apply Qmult_inv_r; lra).
      apply Qle_trans with (q * / q)%Q; [rewrite Hone; apply Qle_refl|].
      apply Qmult_le_l; assumption. }
    assert (Hqm1 : (q * 2 ^ (m - 1) < 1)%Q).
    { assert (Hlt' : (2 ^ (m - 1) < / q)%Q).
      { apply Qle_lt_trans with (inject_Z (c - 1)); [|apply Qceiling_lt].
        rewrite pow2_inject by lia. rewrite <- Zle_Qle.
        replace (Z.pred m) with (m - 1) in Hlo by lia. lia. }
      assert (Hone : (q * / q == 1)%Q) by (apply Qmult_inv_r; lra).
      apply Qlt_le_trans with (q * / q)%Q; [|rewrite Hone; apply Qle_refl].
      apply Qmult_lt_l; assumption. }
    pose proof (pow2_pos m) as Hpm. pose proof (pow2_pos (m - 1)) as Hpm1.
    split.
    + rewrite Qpower_opp. apply Qle_shift_inv_r; [exact Hpm|]. exact Hqm.
    + replace (- m + 1) with (- (m - 1)) by lia. rewrite Qpower_opp.
      apply Qlt_shift_inv_l; [exact Hpm1|]. exact Hqm1.
Qed.

Lemma Qlog2_unique (q : Q) (e : Z) :
  (2 ^ e <= q < 2 ^ (e + 1))%Q -> Qlog2 q = e.
Proof.
  intros [Hlo Hhi].
  assert (Hq : (0 < q)%Q) by (pose proof (pow2_pos e); lra).
  destruct (Qlog2_spec q Hq) as [Llo Lhi].
  assert (H1 : e < Qlog2 q + 1) by (apply pow2_lt_inv; lra).
  assert (H2 : Qlog2 q < e + 1) by (apply pow2_lt_inv; lra).
  lia.
Qed.

Lemma Qlog2_mono (x y : Q) : (0 < x)%Q -> (x <= y)%Q -> Qlog2 x <= Qlog2 y.
Proof.
  intros Hx Hxy.
  destruct (Qlog2_spec x Hx) as [Xlo Xhi].
  destruct (Qlog2_spec y ltac:(lra)) as [Ylo Yhi].
  assert (H1 : Qlog2 x < Qlog2 y + 1) by (apply pow2_lt_inv; lra).
  lia.
Qed.

Section Rounding.
Variables prec emin : Z.
Hypothesis prec_pos : 1 <= prec.

Let ulp (q : Q) : Z := Z.max (Qlog2 q - prec + 1) emin.

Lemma round_positive_comp (x y : Q) :
  (x == y)%Q -> (round_positive prec emin x == round_positive prec emin y)%Q.
Proof.
  intros Hxy. unfold round_positive.
  rewrite (Qlog2_comp x y Hxy).
  rewrite (round_half_even_comp (x / 2 ^ Z.max (Qlog2 y - prec + 1) emin)
                                (y / 2 ^ Z.max (Qlog2 y - prec + 1) emin))
    by (rewrite Hxy; reflexivity).
  reflexivity.
Qed.

Lemma round_positive_nonneg (q : Q) : (0 < q)%Q -> (0 <= round_positive prec emin q)%Q.
Proof.
  intros Hq. unfold round_positive.
  set (k := Z.max (Qlog2 q - prec + 1) emin).
  pose proof (pow2_pos k) as Hk.
  assert (Hdiv : (0 <= q / 2 ^ k)%Q) by (apply Qle_shift_div_l; [exact Hk | lra]).
  assert (Hf : 0 <= Qfloor (q / 2 ^ k)).
  { change 0 with (Qfloor 0). apply Qfloor_resp_le. exact Hdiv. }
  pose proof (round_half_even_bounds (q / 2 ^ k)) as Hb.
  apply Qmult_le_0_compat; [|lra].
  change 0%Q with (inject_Z 0). rewrite <- Zle_Qle. lia.
Qed.

(* A power of two at or above the unit of q stops the rounding of q. *)
Lemma round_positive_le_pow2 (q : Q) (m : Z) :
  (q <= 2 ^ m)%Q -> ulp q <= m -> (round_positive prec emin q <= 2 ^ m)%Q.
Proof.
  intros Hq Hm. unfold round_positive. fold (ulp q). set (k := ulp q) in *.
  pose proof (pow2_pos k) as Hk.
  assert (Hdiv : (q / 2 ^ k <= inject_Z (2 ^ (m - k)))%Q).
  { rewrite <- pow2_inject by lia. rewrite <- pow2_div.
    apply Qmult_le_compat_r; [exact Hq|]. apply Qinv_le_0_compat. lra. }
  apply round_half_even_mono in Hdiv. rewrite round_half_even_inject in Hdiv.
  rewrite Zle_Qle in Hdiv.
  apply Qle_trans with (inject_Z (2 ^ (m - k)) * 2 ^ k)%Q.
  - apply Qmult_le_compat_r; [exact Hdiv | lra].
  - rewrite <- pow2_inject by lia. rewrite <- pow2_plus.
    replace (m - k + k) with m by lia. apply Qle_refl.
Qed.

Lemma round_positive_ge_pow2 (q : Q) (m : Z) :
  (2 ^ m <= q)%Q -> ulp q <= m -> (2 ^ m <= round_positive prec emin q)%Q.
Proof.
  intros Hq Hm. unfold round_positive. fold (ulp q). set (k := ulp q) in *.
  pose proof (pow2_pos k) as Hk.
  assert (Hdiv : (inject_Z (2 ^ (m - k)) <= q / 2 ^ k)%Q).
  { rewrite <- pow2_inject by lia. rewrite <- pow2_div.
    apply Qmult_le_compat_r; [exact Hq|]. apply Qinv_le_0_compat. lra. }
  apply round_half_even_mono in Hdiv. rewrite round_half_even_inject in Hdiv.
  rewrite Zle_Qle in Hdiv.
  apply Qle_trans with (inject_Z (2 ^ (m - k)) * 2 ^ k)%Q.
  - rewrite <- pow2_inject by lia. rewrite <- pow2_plus.
    replace (m - k + k) with m by lia. apply Qle_refl.
  - apply Qmult_le_compat_r; [exact Hdiv | lra].
Qed.

Lemma round_positive_mono (x y : Q) :
  (0 < x)%Q -> (x <= y)%Q ->
  (round_positive prec emin x <= round_positive prec emin y)%Q.
Proof.
  intros Hx Hxy.
  pose proof (Qlog2_mono x y Hx Hxy) as Hl.
  destruct (Z.eq_dec (ulp x) (ulp y)) as [Heq|Hne].
  - unfold round_positive. fold (ulp x) (ulp y). rewrite Heq.
    pose proof (pow2_pos (ulp y)) as Hk.
    apply Qmult_le_compat_r; [|lra].
    rewrite <- Zle_Qle. apply round_half_even_mono.
    apply Qmult_le_compat_r; [exact Hxy|]. apply Qinv_le_0_compat. lra.
  - assert (Hlt : ulp x < ulp y) by (unfold ulp in *; lia).
    assert (Hy : ulp y = Qlog2 y - prec + 1) by (unfold ulp in *; lia).
    assert (Hxl : Qlog2 x < Qlog2 y) by (unfold ulp in *; lia).
    destruct (Qlog2_spec x Hx) as [_ Xhi].
    destruct (Qlog2_spec y ltac:(lra)) as [Ylo _].
    apply Qle_trans with (2 ^ Qlog2 y)%Q.
    + apply round_positive_le_pow2; [|lia].
      apply Qle_trans with (2 ^ (Qlog2 x + 1))%Q; [lra|]. apply pow2_le. lia.
    + apply round_positive_ge_pow2; [exact Ylo | lia].
Qed.

Lemma round_nearest_comp (x y : Q) :
  (x == y)%Q -> (round_nearest prec emin x == round_nearest prec emin y)%Q.
Proof.
  intros Hxy. unfold round_nearest.
  rewrite (Qcompare_comp x y Hxy 0%Q 0%Q (Qeq_refl 0%Q)).
  destruct (y ?= 0)%Q.
  - reflexivity.
  - rewrite (round_positive_comp (- x) (- y)) by (rewrite Hxy; reflexivity). reflexivity.
  - apply round_positive_comp. exact Hxy.
Qed.

Lemma round_nearest_mono (x y : Q) :
  (x <= y)%Q -> (round_nearest prec emin x <= round_nearest prec emin y)%Q.
Proof.
  intros Hxy. unfold round_nearest.
  destruct (Qcompare_spec x 0) as [Hx|Hx|Hx]; destruct (Qcompare_spec y 0) as [Hy|Hy|Hy];
    try lra.
  - pose proof (round_positive_nonneg y Hy). lra.
  - pose proof (round_positive_nonneg (- x) ltac:(lra)). lra.
  - pose proof (round_positive_mono (- y) (- x) ltac:(lra) ltac:(lra)). lra.
  - pose proof (round_positive_nonneg (- x) ltac:(lra)).
    pose proof (round_positive_nonneg y Hy). lra.
  - apply round_positive_mono; assumption.
Qed.

Hypothesis emin_neg : emin <= 0.

(* Integers of fewer than prec bits are not rounded. *)
Lemma round_nearest_inject (z : Z) :
  0 <= z < 2 ^ prec -> (round_nearest prec emin (inject_Z z) == inject_Z z)%Q.
Proof.
  intros [Hz0 Hzp]. unfold round_nearest.
  destruct (Qcompare_spec (inject_Z z) 0) as [H0|H0|H0].
  - symmetry. exact H0.
  - exfalso. change 0%Q with (inject_Z 0) in H0. rewrite <- Zlt_Qlt in H0. lia.
  - change 0%Q with (inject_Z 0) in H0. rewrite <- Zlt_Qlt in H0.
    unfold round_positive.
    assert (Hl : Qlog2 (inject_Z z) = Z.log2 z).
    { unfold Qlog2.
      assert (H1 : Qle_bool 1 (inject_Z z) = true).
      { apply Qle_bool_iff. change 1%Q with (inject_Z 1). rewrite <- Zle_Qle. lia. }
      rewrite H1, Qfloor_Z. reflexivity. }
    rewrite Hl.
    assert (Hlog : Z.log2 z < prec) by (apply Z.log2_lt_pow2; lia).
    set (k := Z.max (Z.log2 z - prec + 1) emin).
    assert (Hk : k <= 0) by (unfold k; lia).
    assert (Hdiv : (inject_Z z / 2 ^ k == inject_Z (z * 2 ^ (- k)))%Q).
    { rewrite inject_Z_mult, <- pow2_inject by lia. rewrite Qpower_opp.
      unfold Qdiv. reflexivity. }
    rewrite (round_half_even_comp _ _ Hdiv), round_half_even_inject.
    rewrite inject_Z_mult, <- pow2_inject by lia.
    rewrite <- Qmult_assoc, <- pow2_plus.
    replace (- k + k) with 0 by lia. simpl. ring.
Qed.

End Rounding.

Lemma binary64_comp (x y : Q) : (x == y)%Q -> (binary64 x == binary64 y)%Q.
Proof. apply round_nearest_comp. Qed.

Lemma binary64_inject (z : Z) :
  0 <= z < 2 ^ 53 -> (binary64 (inject_Z z) == inject_Z z)%Q.
Proof. apply round_nearest_inject; lia. Qed.

Lemma binary64_mono (x y : Q) : (x <= y)%Q -> (binary64 x <= binary64 y)%Q.
Proof. apply round_nearest_mono. lia. Qed.

Lemma binary32_comp (x y : Q) : (x == y)%Q -> (binary32 x == binary32 y)%Q.
Proof. apply round_nearest_comp. Qed.

Lemma binary32_mono (x y : Q) : (x <= y)%Q -> (binary32 x <= binary32 y)%Q.
Proof. apply round_nearest_mono. lia. Qed.

Lemma binary64_between (x lo hi lo' hi' : Q) :
  (lo <= x <= hi)%Q -> (binary64 lo == lo')%Q -> (binary64 hi == hi')%Q ->
  (lo' <= binary64 x <= hi')%Q.
Proof.
  intros [Hl Hh] El Eh. split.
  - apply Qle_trans with (binary64 lo); [rewrite El; apply Qle_refl|].
    apply binary64_mono. exact Hl.
  - apply Qle_trans with (binary64 hi); [|rewrite Eh; apply Qle_refl].
    apply binary64_mono. exact Hh.
Qed.

Lemma binary32_between (x lo hi lo' hi' : Q) :
  (lo <= x <= hi)%Q -> (binary32 lo == lo')%Q -> (binary32 hi == hi')%Q ->
  (lo' <= binary32 x <= hi')%Q.
Proof.
  intros [Hl Hh] El Eh. split.
  - apply Qle_trans with (binary32 lo); [rewrite El; apply Qle_refl|].
    apply binary32_mono. exact Hl.
  - apply Qle_trans with (binary32 hi); [|rewrite Eh; apply Qle_refl].
    apply binary32_mono. exact Hh.
Qed.

(* The value of a rounding at a constant. *)
Ltac computed := vm_compute; reflexivity.

(** ** Conversions of JavaScript numbers *)

Lemma Qtrunc_inject (q : Q) (z : Z) : (q == inject_Z z)%Q -> Qtrunc q = z.
Proof.
  intros Hq. unfold Qtrunc.
  destruct (Qle_bool 0 q); rewrite Hq; [apply Qfloor_Z | apply Qceiling_Z].
Qed.

Lemma enforce_range_u64_inject (q : Q) (z : Z) :
  (q == inject_Z z)%Q -> 0 <= z <= 2 ^ 53 - 1 ->
  enforce_range_u64 (JFinite q) = Return z.
Proof.
  intros Hq Hz. unfold enforce_range_u64. rewrite (Qtrunc_inject q z Hq).
  destruct (Z.ltb_spec z 0); [lia|].
  destruct (Z.ltb_spec (2 ^ 53 - 1) z); [lia|]. reflexivity.
Qed.

Lemma to_index_inject (q : Q) (z : Z) :
  (q == inject_Z z)%Q -> 0 <= z <= 2 ^ 53 - 1 -> to_index (JFinite q) = Return z.
Proof.
  intros Hq Hz. unfold to_index. rewrite (Qtrunc_inject q z Hq).
  destruct (Z.ltb_spec z 0); [lia|].
  destruct (Z.ltb_spec (2 ^ 53 - 1) z); [lia|]. reflexivity.
Qed.

Lemma new_Float32Array_inject {num} `{Number num} (allocatable : Z -> bool)
    (q : Q) (z : Z) :
  (q == inject_Z z)%Q -> 0 <= z <= 2 ^ 53 - 1 ->
  new_Float32Array allocatable (JFinite q) =
  if allocatable (z * BYTES_PER_ELEMENT)
  then Return (replicate (Z.to_nat z) (nlit 0))
  else Throw RangeError.
Proof.
  intros Hq Hz. unfold new_Float32Array. rewrite (to_index_inject q z Hq Hz).
  reflexivity.
Qed.

Lemma Qis_integer_inject (q : Q) (z : Z) : (q == inject_Z z)%Q -> Qis_integer q = true.
Proof.
  intros Hq. unfold Qis_integer. apply Qeq_bool_iff.
  rewrite (Qfloor_comp q (inject_Z z) Hq), Qfloor_Z. symmetry. exact Hq.
Qed.

Lemma new_Array_inject {A} (q : Q) (z : Z) :
  (q == inject_Z z)%Q -> 0 <= z <= 2 ^ 32 - 1 ->
  @new_Array A (JFinite q) = Return (replicate (Z.to_nat z) None).
Proof.
  intros Hq Hz. unfold new_Array.
  rewrite (Qis_integer_inject q z Hq).
  assert (Hf : Qfloor q = z)
    by (rewrite (Qfloor_comp q (inject_Z z) Hq); apply Qfloor_Z).
  rewrite Hf.
  destruct (Z.leb_spec 0 z); [|lia].
  destruct (Z.leb_spec z (2 ^ 32 - 1)); [|lia]. reflexivity.
Qed.

(* new Array returns only for a number that is an array length. *)
Lemma new_Array_returns {A} (x : jsnumber) (l : list (option A)) :
  new_Array x = Return l ->
  exists q, x = JFinite q /\ (q == inject_Z (Z.of_nat (length l)))%Q /\
            Z.of_nat (length l) <= 2 ^ 32 - 1 /\
            l = replicate (length l) None.
Proof.
  destruct x as [q| |b]; simpl; try discriminate.
  destruct (Qis_integer q) eqn:Hint; simpl; [|discriminate].
  destruct (Z.leb_spec 0 (Qfloor q)); simpl; [|discriminate].
  destruct (Z.leb_spec (Qfloor q) (2 ^ 32 - 1)); simpl; [|discriminate].
  intros [= <-]. rewrite length_replicate.
  exists q. repeat split; try lia.
  - apply Qeq_bool_iff in Hint. rewrite <- Hint at 1.
    rewrite Z2Nat.id by lia. reflexivity.
Qed.

(* A negative or non-finite number is not an array length. *)
Lemma new_Array_rejects {A} (x : jsnumber) :
  (match x with JFinite q => (q < 0)%Q | _ => True end) ->
  @new_Array A x = Throw RangeError.
Proof.
  destruct x as [q| |b]; simpl; try reflexivity.
  intros Hneg.
  destruct (Z.leb_spec 0 (Qfloor q)) as [Hpos|]; simpl.
  - exfalso. pose proof (Qfloor_le q) as Hle.
    rewrite Zle_Qle in Hpos. change (inject_Z 0) with 0%Q in Hpos. lra.
  - rewrite andb_false_r. reflexivity.
Qed.

(** ** Loops *)

Lemma for_loop_invariant {S A} (P : nat -> A -> S -> Prop)
    (body : nat -> A -> M S A) :
  forall (count i : nat) (a : A) (s : S),
    P i a s ->
    (forall j a s, (i <= j < i + count)%nat -> P j a s ->
       exists a' s', body j a s = (Return a', s') /\ P (Datatypes.S j) a' s') ->
    exists a' s',
      for_loop i count body a s = (Return a', s') /\ P (i + count)%nat a' s'.
Proof.
  induction count as [|count IH]; intros i a s HP Hbody.
  - exists a, s. rewrite Nat.add_0_r. split; [reflexivity | exact HP].
  - destruct (Hbody i a s ltac:(lia) HP) as (a1 & s1 & Hb & HP1).
    destruct (IH (Datatypes.S i) a1 s1 HP1) as (a2 & s2 & Hl & HP2).
    { intros j a' s' Hj. apply Hbody. lia. }
    exists a2, s2. split.
    + simpl. unfold bind at 1. rewrite Hb. exact Hl.
    + replace (i + Datatypes.S count)%nat with (Datatypes.S i + count)%nat by lia.
      exact HP2.
Qed.

(** ** The loop that fills the instance table *)

Section InstanceLoop.
Context {num : Type} `{Number num}.
Variable random : nat -> num.
Variable ub : BufferId.

Lemma instance_body_returns (i : nat) (data : list num)
    (groups : list (option BindGroup)) (rt : Runtime num) :
  instance_body random ub i (data, groups) rt =
  (Return
     (<[slot_index i 4 := drawn_value 4 (random (4 + randoms rt)%nat)]>
        (<[slot_index i 3 := drawn_value 3 (random (3 + randoms rt)%nat)]>
           (<[slot_index i 2 := drawn_value 2 (random (2 + randoms rt)%nat)]>
              (<[slot_index i 1 := drawn_value 1 (random (1 + randoms rt)%nat)]>
                 (<[slot_index i 0 := drawn_value 0 (random (randoms rt))]> data)))),
      <[i := Some (static_group ub i)]> groups),
   {| buffers := buffers rt; queue := queue rt;
      randoms := (5 + randoms rt)%nat;
      heapLimit := heapLimit rt |}).
Proof. reflexivity. Qed.

Lemma slot_index_eq (i : nat) (k : Z) :
  slot_index i k = Z.to_nat (64 * Z.of_nat i + k).
Proof. reflexivity. Qed.

Ltac slots := rewrite ?length_insert, ?slot_index_eq; lia.

Ltac skip_inserts := repeat (rewrite list_lookup_insert_ne by slots).

Lemma instance_loop_spec (n : nat) (data0 : list num)
    (groups0 : list (option BindGroup)) (rt : Runtime num) :
  length groups0 = n ->
  Z.of_nat (length data0) = alignedUniformFloats * Z.of_nat n ->
  exists data rt',
    for_loop 0 n (instance_body random ub) (data0, groups0) rt =
      (Return (data, map (fun i => Some (static_group ub i)) (seq 0 n)), rt') /\
    length data = length data0 /\
    buffers rt' = buffers rt /\ queue rt' = queue rt /\
    randoms rt' = (5 * n + randoms rt)%nat /\
    heapLimit rt' = heapLimit rt /\
    (forall i k, (i < n)%nat -> (k < 5)%nat ->
       data !! slot_index i (Z.of_nat k) =
       Some (drawn_value k (random (k + 5 * i + randoms rt)%nat))) /\
    (forall idx,
       (forall i k, (i < n)%nat -> (k < 5)%nat -> idx <> slot_index i (Z.of_nat k)) ->
       data !! idx = data0 !! idx).
Proof.
  intros Hg Hd. rewrite alignedUniformFloats_eq in Hd.
  pose (P := fun (j : nat) (a : list num * list (option BindGroup)) (s : Runtime num) =>
    length a.1 = length data0 /\ length a.2 = n /\
    buffers s = buffers rt /\ queue s = queue rt /\
    heapLimit s = heapLimit rt /\
    randoms s = (5 * j + randoms rt)%nat /\
    (forall i, (i < j)%nat -> a.2 !! i = Some (Some (static_group ub i))) /\
    (forall i k, (i < j)%nat -> (k < 5)%nat ->
       a.1 !! slot_index i (Z.of_nat k) =
       Some (drawn_value k (random (k + 5 * i + randoms rt)%nat))) /\
    (forall idx,
       (forall i k, (i < j)%nat -> (k < 5)%nat -> idx <> slot_index i (Z.of_nat k)) ->
       a.1 !! idx = data0 !! idx)).
  destruct (for_loop_invariant P (instance_body random ub) n 0%nat (data0, groups0) rt)
    as ([data groups] & rt' & Hrun & HP).
  - unfold P; simpl. repeat split; try lia; try reflexivity; intros; lia.
  - intros j [data groups] s Hj (Hld & Hlg & Hb & Hq & Ha & Hr & Hgs & Hds & Hrest).
    simpl in *. eexists _, _. split; [apply instance_body_returns|].
    unfold P; simpl. repeat split.
    + rewrite !length_insert. exact Hld.
    + rewrite length_insert. exact Hlg.
    + exact Hb.
    + exact Hq.
    + exact Ha.
    + lia.
    + intros i Hi. destruct (decide (i = j)) as [->|Hne].
      * apply list_lookup_insert_eq. lia.
      * rewrite list_lookup_insert_ne by congruence. apply Hgs. lia.
    + intros i k Hi Hk. destruct (decide (i = j)) as [->|Hne].
      * rewrite Hr.
        destruct k as [|[|[|[|[|k]]]]]; try lia; simpl Z.of_nat;
          skip_inserts; rewrite list_lookup_insert_eq by slots;
          do 2 f_equal; f_equal; lia.
      * skip_inserts. apply Hds; lia.
    + intros idx Hidx.
      pose proof (Hidx j 0%nat ltac:(lia) ltac:(lia)) as H0.
      pose proof (Hidx j 1%nat ltac:(lia) ltac:(lia)) as H1.
      pose proof (Hidx j 2%nat ltac:(lia) ltac:(lia)) as H2.
      pose proof (Hidx j 3%nat ltac:(lia) ltac:(lia)) as H3.
      pose proof (Hidx j 4%nat ltac:(lia) ltac:(lia)) as H4.
      simpl Z.of_nat in *.
      rewrite !list_lookup_insert_ne by (intros E; symmetry in E; contradiction).
      apply Hrest. intros i k Hi Hk. apply Hidx; lia.
  - destruct HP as (Hld & Hlg & Hb & Hq & Ha & Hr & Hgs & Hds & Hrest). simpl in *.
    assert (Hgroups : groups = map (fun i => Some (static_group ub i)) (seq 0 n)).
    { apply list_eq. intros i. destruct (decide (i < n)%nat) as [Hi|Hi].
      - rewrite Hgs by lia. rewrite list_lookup_fmap, lookup_seq_lt by lia.
        reflexivity.
      - rewrite (lookup_ge_None_2 groups) by lia.
        symmetry. apply lookup_ge_None_2. rewrite length_map, length_seq. lia. }
    subst groups. exists data, rt'. repeat split; assumption.
Qed.

End InstanceLoop.

Section BuildInstances.
Context {num : Type} `{Number num}.
Variable random : nat -> num.

Lemma table_length_inject (q : Q) (n : nat) :
  (q == inject_Z (Z.of_nat n))%Q -> Z.of_nat n <= 2 ^ 32 - 1 ->
  (binary64 (q * inject_Z alignedUniformFloats) ==
   inject_Z (alignedUniformFloats * Z.of_nat n))%Q.
Proof.
  intros Hq Hn.
  transitivity (binary64 (inject_Z (alignedUniformFloats * Z.of_nat n))).
  - apply binary64_comp. rewrite inject_Z_mult, Hq. ring.
  - apply binary64_inject. rewrite alignedUniformFloats_eq. lia.
Qed.

Lemma build_instances_spec (ub : BufferId) (q : Q) (n : nat) (rt : Runtime num) :
  (q == inject_Z (Z.of_nat n))%Q -> Z.of_nat n <= 2 ^ 32 - 1 ->
  allocatable rt (Z.of_nat n * alignedUniformBytes) = true ->
  exists data rt',
    build_instances random ub (JFinite q) rt =
      (Return (data, map (fun i => Some (static_group ub i)) (seq 0 n)), rt') /\
    Z.of_nat (length data) = alignedUniformFloats * Z.of_nat n /\
    buffers rt' = buffers rt /\ queue rt' = queue rt /\
    randoms rt' = (5 * n + randoms rt)%nat /\
    heapLimit rt' = heapLimit rt /\
    (forall i k, (i < n)%nat -> (k < 5)%nat ->
       data !! slot_index i (Z.of_nat k) =
       Some (drawn_value k (random (k + 5 * i + randoms rt)%nat))) /\
    (forall idx,
       (forall i k, (i < n)%nat -> (k < 5)%nat -> idx <> slot_index i (Z.of_nat k)) ->
       (idx < length data)%nat -> data !! idx = Some (nlit 0)).
Proof.
  intros Hq Hn Halloc.
  pose proof (table_length_inject q n Hq Hn) as Hlen.
  assert (Hbig : (2 ^ 32 - 1) * 64 <= 2 ^ 53 - 1) by (vm_compute; discriminate).
  unfold build_instances, bind, lift. simpl jmulZ.
  rewrite (new_Float32Array_inject _ _ _ Hlen)
    by (rewrite alignedUniformFloats_eq; lia).
  replace (alignedUniformFloats * Z.of_nat n * BYTES_PER_ELEMENT)
    with (Z.of_nat n * alignedUniformBytes)
    by (rewrite alignedUniformFloats_eq, alignedUniformBytes_eq, BYTES_PER_ELEMENT_eq; lia).
  rewrite Halloc.
  rewrite (new_Array_inject q (Z.of_nat n) Hq) by lia.
  rewrite length_replicate, Nat2Z.id.
  destruct (instance_loop_spec random ub n
              (replicate (Z.to_nat (alignedUniformFloats * Z.of_nat n)) (nlit 0))
              (replicate n None) rt)
    as (data & rt' & Hrun & Hld & Hb & Hqu & Hr & Ha & Hds & Hrest).
  { apply length_replicate. }
  { rewrite length_replicate, alignedUniformFloats_eq. lia. }
  rewrite length_replicate in Hld.
  exists data, rt'. repeat split; try assumption.
  - rewrite Hld, alignedUniformFloats_eq. lia.
  - intros idx Hidx Hlt. rewrite (Hrest idx Hidx).
    apply lookup_replicate_2. lia.
Qed.

End BuildInstances.

(** ** Recording the render pass *)

Lemma encode_all_bundle (cmds e : list Command) : encode_all cmds e = e ++ cmds.
Proof.
  unfold encode_all. revert e. induction cmds as [|c cmds IH]; intros e.
  - simpl. symmetry. apply app_nil_r.
  - cbn [foldl]. rewrite IH. cbn. rewrite <- app_assoc. reflexivity.
Qed.

Lemma encode_all_pass (cmds : list Command) (e : list PassCommand) :
  encode_all cmds e = e ++ map encoded cmds.
Proof.
  unfold encode_all. revert e. induction cmds as [|c cmds IH]; intros e.
  - simpl. symmetry. apply app_nil_r.
  - cbn [foldl]. rewrite IH. cbn. rewrite <- app_assoc. reflexivity.
Qed.

Lemma encode_all_app {E} `{Encoder E} (c1 c2 : list Command) (e : E) :
  encode_all (c1 ++ c2) e = encode_all c2 (encode_all c1 e).
Proof. unfold encode_all. apply foldl_app. Qed.

Section Recording.
Context {E : Type} `{Encoder E}.
Variable settings : Settings.
Variable n : nat.
Variable ub : BufferId.
Variables dynamicGroup timeGroup : BindGroup.

Let groups : list (option BindGroup) :=
  map (fun i => Some (static_group ub i)) (seq 0 n).

Let body : nat -> list Z -> M E (list Z) :=
  fun i dynamicOffsets_ =>
    if dynamicOffsets settings
    then
      emit (setBindGroup 1 dynamicGroup
              (<[0%nat := Z.of_nat i * alignedUniformBytes]> dynamicOffsets_)) ;;
      emit (draw 3 1 0 0) ;;
      ret (<[0%nat := Z.of_nat i * alignedUniformBytes]> dynamicOffsets_)
    else
      setBindGroup_at 1 (groups !! i) ;;
      emit (draw 3 1 0 0) ;;
      ret dynamicOffsets_.

Lemma record_loop (m : nat) :
  forall (i : nat) (d : Z) (e : E),
    (i + m <= n)%nat ->
    exists d',
      for_loop i m body [d] e =
      (Return [d'],
       encode_all
         (flat_map (instance_commands (dynamicOffsets settings) ub dynamicGroup)
                   (seq i m)) e).
Proof.
  induction m as [|m IH]; intros i d e Hi.
  - exists d. reflexivity.
  - simpl for_loop. unfold bind at 1. unfold body at 1.
    destruct (dynamicOffsets settings) eqn:Hdyn.
    + destruct (IH (Datatypes.S i) (Z.of_nat i * alignedUniformBytes)
                  (encode (draw 3 1 0 0)
                     (encode (setBindGroup 1 dynamicGroup
                                [Z.of_nat i * alignedUniformBytes]) e)))
        as (d' & Hrec); [lia|].
      exists d'. simpl. exact Hrec.
    + assert (Hg : groups !! i = Some (Some (static_group ub i))).
      { unfold groups. rewrite list_lookup_fmap, lookup_seq_lt by lia. reflexivity. }
      rewrite Hg.
      destruct (IH (Datatypes.S i) d
                  (encode (draw 3 1 0 0)
                     (encode (setBindGroup 1 (static_group ub i) []) e)))
        as (d' & Hrec); [lia|].
      exists d'. simpl. exact Hrec.
Qed.

Lemma recordRenderPass_spec (e : E) :
  recordRenderPass settings n groups dynamicGroup timeGroup e =
  (Return tt,
   encode_all (frame_sequence (dynamicOffsets settings) n ub dynamicGroup timeGroup) e).
Proof.
  unfold recordRenderPass, frame_sequence.
  rewrite encode_all_app.
  destruct (record_loop n 0%nat 0
              (encode_all
                 [setPipeline (if dynamicOffsets settings then dynamicPipeline else pipeline);
                  setVertexBuffer 0 vertexBuffer;
                  setBindGroup 0 timeGroup []] e) ltac:(lia)) as (d' & Hloop).
  transitivity
    (match for_loop 0 n body [0]
             (encode_all
                [setPipeline (if dynamicOffsets settings then dynamicPipeline else pipeline);
                 setVertexBuffer 0 vertexBuffer;
                 setBindGroup 0 timeGroup []] e) with
     | (Return _, e') => (Return tt, e')
     | (Throw err, e') => (Throw err, e')
     | (Diverge, e') => (Diverge, e')
     end).
  - unfold body. destruct (dynamicOffsets settings); reflexivity.
  - rewrite Hloop. reflexivity.
Qed.

End Recording.

(** ** The chunked upload *)

Lemma tiles_le (c : Z) (ts : list Transfer) :
  forall from to, tiles c from ts to -> from <= to.
Proof.
  induction ts as [|t ts IH]; simpl; intros from to Ht.
  - lia.
  - destruct Ht as (_ & _ & Hs & Hrest). apply IH in Hrest. lia.
Qed.

(* Ascending order without overlap: a later transfer starts at or after the
   end of every earlier one. *)
Lemma tiles_ascending (c : Z) (ts : list Transfer) :
  forall from to (i j : nat) (ti tj : Transfer),
    tiles c from ts to ->
    ts !! i = Some ti -> ts !! j = Some tj -> (i < j)%nat ->
    from <= dst_offset ti /\
    dst_offset ti + size ti <= dst_offset tj /\
    dst_offset tj + size tj <= to.
Proof.
  induction ts as [|t ts IH]; intros from to i j ti tj Ht Hi Hj Hij.
  - discriminate.
  - destruct Ht as (Hd & _ & Hs & Hrest).
    destruct j as [|j]; [lia|]. simpl in Hj.
    destruct i as [|i]; simpl in Hi.
    + injection Hi as <-.
      assert (from + size t <= dst_offset tj /\ dst_offset tj + size tj <= to).
      { clear IH Hij. revert Hrest Hj. generalize (from + size t).
        revert j. induction ts as [|u ts IHts]; intros j z Hz Hj; [discriminate|].
        destruct Hz as (Hd' & _ & Hs' & Hrest').
        destruct j as [|j]; simpl in Hj.
        - injection Hj as <-. apply tiles_le in Hrest'. lia.
        - destruct (IHts j _ Hrest' Hj). lia. }
      lia.
    + destruct (IH _ _ i j ti tj Hrest Hi Hj ltac:(lia)) as (? & ? & ?). lia.
Qed.

Lemma tiles_concat (src : list byte) (c : Z) (ts : list Transfer) :
  forall from to,
    tiles c from ts to -> 0 <= from ->
    concat (map (slice src) ts) =
    take (Z.to_nat (to - from)) (drop (Z.to_nat from) src).
Proof.
  induction ts as [|t ts IH]; simpl; intros from to Ht Hfrom.
  - subst to. rewrite Z.sub_diag. reflexivity.
  - destruct Ht as (_ & Hsrc & Hs & Hrest).
    pose proof (tiles_le _ _ _ _ Hrest) as Hle.
    rewrite (IH _ _ Hrest) by lia.
    unfold slice. rewrite Hsrc.
    replace (Z.to_nat (from + size t)) with (Z.to_nat from + Z.to_nat (size t))%nat by lia.
    rewrite <- drop_drop, take_take_drop. f_equal. lia.
Qed.

Lemma tiles_apply (src : list byte) (c : Z) (ts : list Transfer) :
  forall from to (dst : list byte),
    tiles c from ts to -> 0 <= from ->
    to <= Z.of_nat (length src) -> to <= Z.of_nat (length dst) ->
    foldl (apply_transfer src) dst ts =
    take (Z.to_nat from) dst
    ++ take (Z.to_nat (to - from)) (drop (Z.to_nat from) src)
    ++ drop (Z.to_nat to) dst.
Proof.
  induction ts as [|t ts IH]; simpl; intros from to dst Ht Hfrom Hsrc Hdst.
  - subst to. rewrite Z.sub_diag. simpl. symmetry. apply take_drop.
  - destruct Ht as (Hd & Hs & Hsz & Hrest).
    pose proof (tiles_le _ _ _ _ Hrest) as Hle.
    set (f := Z.to_nat from). set (s := Z.to_nat (size t)).
    assert (Hslice : length (slice src t) = s).
    { unfold slice. rewrite length_take, length_drop, Hs. lia. }
    assert (Hdst1 : apply_transfer src dst t =
                    (take f dst ++ slice src t) ++ drop (f + s) dst).
    { unfold apply_transfer. rewrite Hd, <- app_assoc.
      do 3 f_equal. unfold f, s. lia. }
    rewrite Hdst1.
    assert (Hpre : length (take f dst ++ slice src t) = (f + s)%nat).
    { rewrite length_app, length_take, Hslice. unfold f. lia. }
    rewrite (IH (from + size t) to) ; try assumption; try lia.
    2:{ rewrite length_app, Hpre, length_drop. lia. }
    replace (Z.to_nat (from + size t)) with (f + s)%nat by (unfold f, s; lia).
    rewrite take_app_length' by (symmetry; exact Hpre).
    rewrite drop_app_ge by (rewrite Hpre; lia).
    rewrite Hpre, drop_drop.
    replace (f + s + (Z.to_nat to - (f + s)))%nat with (Z.to_nat to)
      by (unfold f, s; lia).
    rewrite <- !app_assoc. f_equal.
    rewrite !app_assoc. f_equal.
    unfold slice. rewrite Hs. fold f. fold s.
    rewrite <- drop_drop, take_take_drop. f_equal. unfold s. lia.
Qed.

Section Upload.
Context {num : Type} `{Number num}.
Variable maxLen : Z.
Variable ub : BufferId.
Variable data : list num.
Hypothesis maxLen_pos : 0 < maxLen.

Lemma pushed_nil (rt : Runtime num) : pushed rt [] = rt.
Proof. destruct rt. unfold pushed. simpl. rewrite app_nil_r. reflexivity. Qed.

Lemma pushed_pushed (rt : Runtime num) (a b : list (QueueOp num)) :
  pushed (pushed rt a) b = pushed rt (a ++ b).
Proof. unfold pushed. simpl. rewrite app_assoc. reflexivity. Qed.

Lemma upload_loop_spec (fuel : nat) :
  forall (offset : Z) (rt : Runtime num),
    0 <= offset ->
    Z.of_nat (length data) - offset <= Z.of_nat fuel ->
    exists ts,
      upload_loop fuel maxLen ub data offset rt =
        (Return tt, pushed rt (map (transfer_op ub data) ts)) /\
      tiles (maxLen * 4) (Z.min offset (Z.of_nat (length data)) * 4) ts
            (Z.of_nat (length data) * 4).
Proof.
  induction fuel as [|fuel IH]; intros offset rt Hoff Hfuel.
  - exists []. simpl. destruct (Z.ltb_spec offset (Z.of_nat (length data))); [lia|].
    rewrite pushed_nil. split; [reflexivity | lia].
  - simpl. destruct (Z.ltb_spec offset (Z.of_nat (length data))) as [Hlt|Hge].
    + destruct (IH (offset + maxLen)
                  (pushed rt [transfer_op ub data
                     {| dst_offset := offset * 4; src_offset := offset * 4;
                        size := Z.min (Z.of_nat (length data) - offset) maxLen * 4 |}]))
        as (ts & Hrun & Htiles); try lia.
      set (t := {| dst_offset := offset * 4; src_offset := offset * 4;
                   size := Z.min (Z.of_nat (length data) - offset) maxLen * 4 |}) in *.
      exists (t :: ts). split.
      * change (upload_loop fuel maxLen ub data (offset + maxLen)
                  (pushed rt [transfer_op ub data t]) =
                (Return tt, pushed rt (map (transfer_op ub data) (t :: ts)))).
        rewrite Hrun, pushed_pushed. reflexivity.
      * simpl. repeat split; try lia.
        replace (Z.min offset (Z.of_nat (length data)) * 4 +
                 Z.min (Z.of_nat (length data) - offset) maxLen * 4)
          with (Z.min (offset + maxLen) (Z.of_nat (length data)) * 4) by lia.
        exact Htiles.
    + exists []. rewrite pushed_nil. split; [reflexivity | simpl; lia].
Qed.

Lemma upload_spec (rt : Runtime num) :
  exists ts,
    upload maxLen ub data rt =
      (Return tt, pushed rt (map (transfer_op ub data) ts)) /\
    tiles (maxLen * 4) 0 ts (byteLength data).
Proof.
  destruct (upload_loop_spec (length data) 0 rt) as (ts & Hrun & Ht); try lia.
  exists ts. split; [exact Hrun|].
  unfold byteLength, BYTES_PER_ELEMENT.
  replace (Z.min 0 (Z.of_nat (length data)) * 4) with 0 in Ht by lia.
  replace (4 * Z.of_nat (length data)) with (Z.of_nat (length data) * 4) by lia.
  exact Ht.
Qed.

Lemma upload_loop_done (fuel : nat) (offset : Z) (rt : Runtime num) :
  Z.of_nat (length data) <= offset ->
  upload_loop fuel maxLen ub data offset rt = (Return tt, rt).
Proof.
  intros Hdone.
  destruct fuel; simpl;
    destruct (Z.ltb_spec offset (Z.of_nat (length data))); (lia || reflexivity).
Qed.

(* A non-empty payload within the ceiling goes out in one call. *)
Lemma upload_single (rt : Runtime num) :
  0 < Z.of_nat (length data) <= maxLen ->
  upload maxLen ub data rt =
  (Return tt,
   pushed rt [transfer_op ub data
                {| dst_offset := 0; src_offset := 0; size := byteLength data |}]).
Proof.
  intros Hlen. unfold upload.
  destruct (length data) as [|fuel] eqn:Hl; [lia|].
  simpl upload_loop. rewrite Hl.
  destruct (Z.ltb_spec 0 (Z.of_nat (Datatypes.S fuel))); [|lia].
  unfold bind, queue_push.
  rewrite upload_loop_done by (rewrite Hl; lia).
  unfold pushed, transfer_op, byteLength, BYTES_PER_ELEMENT. simpl.
  rewrite Hl.
  replace (Z.min (Z.of_nat (Datatypes.S fuel) - 0) maxLen * 4)
    with (4 * Z.of_nat (Datatypes.S fuel)) by lia.
  reflexivity.
Qed.

Lemma upload_empty (rt : Runtime num) :
  length data = 0%nat -> upload maxLen ub data rt = (Return tt, rt).
Proof.
  intros Hl. unfold upload. apply upload_loop_done. lia.
Qed.

End Upload.

(* Running out of fuel is the loop that never ends: without a positive step
   the offset never reaches the length of a non-empty payload. *)
Lemma upload_without_progress_diverges {num : Type} `{Number num}
    (maxLen : Z) (ub : BufferId) (data : list num) (fuel : nat) :
  maxLen <= 0 -> (0 < length data)%nat ->
  forall (offset : Z) (rt : Runtime num),
    offset <= 0 ->
    fst (upload_loop fuel maxLen ub data offset rt) = Diverge.
Proof.
  intros Hmax Hlen.
  induction fuel as [|fuel IH]; intros offset rt Hoff; simpl;
    destruct (Z.ltb_spec offset (Z.of_nat (length data))); try lia.
  - reflexivity.
  - unfold bind, queue_push. cbv beta iota. apply IH. lia.
Qed.

(** ** [configure] *)

Section Configure.
Context {num : Type} `{Number num}.
Variable random : nat -> num.

Lemma createBuffer_inject (q : Q) (z : Z) (rt : Runtime num) :
  (q == inject_Z z)%Q -> 0 <= z <= 2 ^ 53 - 1 ->
  createBuffer (JFinite q) rt =
  (Return (length (buffers rt)),
   {| buffers := buffers rt ++ [z]; queue := queue rt; randoms := randoms rt;
      heapLimit := heapLimit rt |}).
Proof.
  intros Hq Hz. unfold createBuffer, bind, lift.
  rewrite (enforce_range_u64_inject q z Hq Hz). reflexivity.
Qed.

Lemma buffer_size_inject (q : Q) (n : nat) :
  (q == inject_Z (Z.of_nat n))%Q -> Z.of_nat n <= 2 ^ 32 - 1 ->
  (binary64 (binary64 (q * inject_Z alignedUniformBytes) + inject_Z BYTES_PER_ELEMENT) ==
   inject_Z (Z.of_nat n * alignedUniformBytes + BYTES_PER_ELEMENT))%Q.
Proof.
  intros Hq Hn.
  assert (Hbig : (2 ^ 32 - 1) * 256 + 4 < 2 ^ 53) by (vm_compute; reflexivity).
  assert (Hmul : (binary64 (q * inject_Z alignedUniformBytes) ==
                  inject_Z (Z.of_nat n * alignedUniformBytes))%Q).
  { transitivity (binary64 (inject_Z (Z.of_nat n * alignedUniformBytes))).
    - apply binary64_comp. rewrite inject_Z_mult, Hq. reflexivity.
    - apply binary64_inject. rewrite alignedUniformBytes_eq. lia. }
  transitivity (binary64 (inject_Z (Z.of_nat n * alignedUniformBytes + BYTES_PER_ELEMENT))).
  - apply binary64_comp. rewrite Hmul, inject_Z_plus. reflexivity.
  - apply binary64_inject. rewrite alignedUniformBytes_eq, BYTES_PER_ELEMENT_eq. lia.
Qed.

Lemma configure_spec (s : Settings) (q : Q) (n : nat) (rt : Runtime num) :
  numTriangles s = JFinite q ->
  (q == inject_Z (Z.of_nat n))%Q -> Z.of_nat n <= 2 ^ 32 - 1 ->
  allocatable rt (Z.of_nat n * alignedUniformBytes) = true ->
  exists data ts,
    configure random s rt =
      (Return (closure_for s (length (buffers rt)) n),
       {| buffers := buffers rt ++ [Z.of_nat n * alignedUniformBytes + BYTES_PER_ELEMENT];
          queue := queue rt ++ map (transfer_op (length (buffers rt)) data) ts;
          randoms := (5 * n + randoms rt)%nat;
      heapLimit := heapLimit rt |}) /\
    tiles (maxMappingLength * 4) 0 ts (byteLength data) /\
    Z.of_nat (length data) = alignedUniformFloats * Z.of_nat n /\
    (forall i k, (i < n)%nat -> (k < 5)%nat ->
       data !! slot_index i (Z.of_nat k) =
       Some (drawn_value k (random (k + 5 * i + randoms rt)%nat))) /\
    (forall idx,
       (forall i k, (i < n)%nat -> (k < 5)%nat -> idx <> slot_index i (Z.of_nat k)) ->
       (idx < length data)%nat -> data !! idx = Some (nlit 0)).
Proof.
  intros Hs Hq Hn Halloc.
  set (ub := length (buffers rt)).
  set (rt1 := {| buffers := buffers rt ++ [Z.of_nat n * alignedUniformBytes + BYTES_PER_ELEMENT];
                 queue := queue rt; randoms := randoms rt;
      heapLimit := heapLimit rt |}).
  assert (Hcreate :
    createBuffer (jaddZ (jmulZ (JFinite q) alignedUniformBytes) BYTES_PER_ELEMENT) rt =
    (Return ub, rt1)).
  { apply createBuffer_inject.
    - apply buffer_size_inject; assumption.
    - rewrite alignedUniformBytes_eq, BYTES_PER_ELEMENT_eq.
      assert ((2 ^ 32 - 1) * 256 + 4 <= 2 ^ 53 - 1) by (vm_compute; discriminate).
      lia. }
  destruct (build_instances_spec random ub q n rt1 Hq Hn Halloc)
    as (data & rt2 & Hbuild & Hlen & Hb & Hqu & Hr & Ha & Hds & Hrest).
  destruct (upload_spec maxMappingLength ub data ltac:(reflexivity) rt2)
    as (ts & Hup & Htiles).
  exists data, ts. split; [|repeat split; assumption].
  unfold configure, bind. rewrite Hs, Hcreate. cbv beta iota.
  rewrite Hbuild. cbv beta iota. unfold fst, snd.
  rewrite Hup. cbv beta iota.
  rewrite length_map, length_seq.
  unfold finish_bundle. rewrite recordRenderPass_spec, encode_all_bundle.
  unfold ret, pushed. rewrite Hb, Hqu, Hr, Ha. reflexivity.
Qed.

(* [configure] returns only for a number of triangles that is an array
   length, and only when the table could be allocated. *)
Lemma configure_returns (s : Settings) (rt rt' : Runtime num) (c : Closure num) :
  configure random s rt = (Return c, rt') ->
  exists q n,
    numTriangles s = JFinite q /\ (q == inject_Z (Z.of_nat n))%Q /\
    Z.of_nat n <= 2 ^ 32 - 1 /\
    allocatable rt (Z.of_nat n * alignedUniformBytes) = true.
Proof.
  unfold configure, bind at 1.
  destruct (createBuffer _ rt) as [[ub|e|] rt1] eqn:Hcreate; try discriminate.
  assert (Ha : allocatable rt1 = allocatable rt).
  { unfold createBuffer, bind, lift in Hcreate.
    destruct (enforce_range_u64 _); try discriminate.
    injection Hcreate as _ <-. reflexivity. }
  unfold bind at 1. unfold build_instances at 1. unfold bind at 1, lift at 1.
  destruct (new_Float32Array _ _) as [data0|e|] eqn:Harray; try discriminate.
  unfold bind at 1, lift at 1.
  destruct (new_Array (numTriangles s)) as [groups0|e|] eqn:Harr; try discriminate.
  intros _. destruct (new_Array_returns _ _ Harr) as (q & Hx & Hq & Hle & _).
  exists q, (length groups0). repeat split; auto.
  rewrite Hx in Harray. simpl jmulZ in Harray.
  rewrite (new_Float32Array_inject _ _ _ (table_length_inject q _ Hq Hle)) in Harray
    by (rewrite alignedUniformFloats_eq; lia).
  replace (alignedUniformFloats * Z.of_nat (length groups0) * BYTES_PER_ELEMENT)
    with (Z.of_nat (length groups0) * alignedUniformBytes) in Harray
    by (rewrite alignedUniformFloats_eq, alignedUniformBytes_eq, BYTES_PER_ELEMENT_eq; lia).
  rewrite Ha in Harray.
  destruct (allocatable rt _); [reflexivity | discriminate].
Qed.

End Configure.

(** ** [doDraw] and [frame] *)

Section Drawing.
Context {num : Type} `{Number num}.

Lemma closure_for_ok (s : Settings) (ub : BufferId) (n : nat) :
  closure_ok (closure_for (num:=num) s ub n).
Proof. split; reflexivity. Qed.

Lemma ticked_ok (c : Closure num) (t : num) : closure_ok c -> closure_ok (ticked c t).
Proof. intros [Hg _]. split; [exact Hg | reflexivity]. Qed.

Lemma encode_pass_spec (s : Settings) (c : Closure num) (rt : Runtime num) :
  closure_ok c -> encode_pass s c rt = (Return (pass_of s c), rt).
Proof.
  intros [Hg _]. unfold encode_pass, finish_pass, pass_of.
  destruct (renderBundles s).
  - reflexivity.
  - rewrite Hg, recordRenderPass_spec, encode_all_pass. reflexivity.
Qed.

Lemma doDraw_spec (s : Settings) (t : num) (c : Closure num) (rt : Runtime num) :
  closure_ok c ->
  doDraw s t (c, rt) = (Return tt, (ticked c t, pushed rt (draw_ops s c t))).
Proof.
  intros Hok. pose proof Hok as [Hg Hu].
  destruct (uniformTime c) as [|u [|u' us]] eqn:Hut; try discriminate.
  unfold doDraw. cbv zeta. unfold fst, snd. rewrite Hut.
  assert (Hticked :
    {| triangles := triangles c; uniformBuffer := uniformBuffer c;
       bindGroups := bindGroups c; dynamicBindGroup := dynamicBindGroup c;
       timeOffset := timeOffset c; timeBindGroup := timeBindGroup c;
       renderBundle := renderBundle c;
       startTime := Some match startTime c with
                         | None => t
                         | Some t0 => t0
                         end;
       uniformTime := <[0%nat := nfround ((t - match startTime c with
                                                | None => t
                                                | Some t0 => t0
                                                end) / nlit 1000)%num]> [u] |}
    = ticked c t) by reflexivity.
  rewrite Hticked.
  unfold bind, queue_push. rewrite encode_pass_spec by (apply ticked_ok; exact Hok).
  unfold pushed, draw_ops. cbn [fst snd buffers queue randoms heapLimit].
  rewrite <- app_assoc. reflexivity.
Qed.

(* Any number of calls return and leave the closure as [configure] built
   it, apart from startTime and uniformTime. *)
Lemma draws_spec (calls : list (Settings * num)) :
  forall (c : Closure num) (rt : Runtime num),
    closure_ok c ->
    exists c' rt',
      draws calls (c, rt) = (Return tt, (c', rt')) /\
      closure_ok c' /\ same_configuration c c' /\
      buffers rt' = buffers rt.
Proof.
  induction calls as [|[s t] calls IH]; intros c rt Hok.
  - exists c, rt. split; [reflexivity|]. split; [exact Hok|].
    split; [repeat split | reflexivity].
  - destruct (IH (ticked c t) (pushed rt (draw_ops s c t)) (ticked_ok c t Hok))
      as (c' & rt' & Hrun & Hok' & Hsame & Hbuf).
    exists c', rt'. split.
    { cbn [draws]. unfold bind at 1. rewrite (doDraw_spec s t c rt Hok). exact Hrun. }
    split; [exact Hok'|]. split; [exact Hsame | exact Hbuf].
Qed.

Lemma frame_spec (t now_start now_end : num) (w : World num) :
  closure_ok (current_doDraw w) ->
  frame t now_start now_end w =
  (Return tt,
   {| settings := settings w;
      runtime := pushed (runtime w) (draw_ops (settings w) (current_doDraw w) t);
      current_doDraw := ticked (current_doDraw w) t;
      previousFrameTimestamp := Some t;
      jsTimeAvg := Some (smooth (jsTimeAvg w) (now_end - now_start)%num);
      frameTimeAvg :=
        Some (smooth (frameTimeAvg w)
                match previousFrameTimestamp w with
                | None => nlit 0
                | Some p => (t - p)%num
                end) |}).
Proof.
  intros Hok. unfold frame. rewrite (doDraw_spec _ _ _ _ Hok). reflexivity.
Qed.

End Drawing.

Section ConfigureInversion.
Context {num : Type} `{Number num}.
Variable random : nat -> num.

Lemma configure_inv (s : Settings) (rt rt' : Runtime num) (c : Closure num) :
  configure random s rt = (Return c, rt') ->
  exists q n data ts,
    numTriangles s = JFinite q /\ (q == inject_Z (Z.of_nat n))%Q /\
    Z.of_nat n <= 2 ^ 32 - 1 /\
    c = closure_for s (length (buffers rt)) n /\
    rt' = {| buffers := buffers rt ++ [Z.of_nat n * alignedUniformBytes + BYTES_PER_ELEMENT];
             queue := queue rt ++ map (transfer_op (length (buffers rt)) data) ts;
             randoms := (5 * n + randoms rt)%nat;
      heapLimit := heapLimit rt |} /\
    tiles (maxMappingLength * 4) 0 ts (byteLength data).
Proof.
  intros Hrun.
  destruct (configure_returns random s rt rt' c Hrun) as (q & n & Hs & Hq & Hn & Ha).
  destruct (configure_spec random s q n rt Hs Hq Hn Ha)
    as (data & ts & Hrun' & Htiles & _).
  rewrite Hrun in Hrun'. injection Hrun' as Hc Hrt.
  exists q, n, data, ts. repeat split; assumption.
Qed.

End ConfigureInversion.

(** ** The claims *)

(** C1: the aligned stride computed by [configure] for the 20-byte struct is
    256, the smallest multiple of 256 that is at least 20; the uniform buffer
    is created with size numTriangles * alignedUniformBytes + 4; and the time
    slot starts at numTriangles * alignedUniformBytes, right after the slot of
    the last instance. *)
Theorem C1_stride_size_and_time_offset {num : Type} `{Number num}
    (random : nat -> num) (s : Settings) (rt rt' : Runtime num) (c : Closure num) :
  configure random s rt = (Return c, rt') ->
  uniformBytes = 20 /\
  alignedUniformBytes = 256 /\
  (256 | alignedUniformBytes) /\
  uniformBytes <= alignedUniformBytes /\
  (forall m, (256 | m) -> uniformBytes <= m -> alignedUniformBytes <= m) /\
  exists (q : Q) (n : nat),
    numTriangles s = JFinite q /\ (q == inject_Z (Z.of_nat n))%Q /\
    triangles c = n /\
    buffers rt' !! uniformBuffer c = Some (Z.of_nat n * alignedUniformBytes + 4) /\
    timeOffset c = Z.of_nat n * alignedUniformBytes /\
    bg_buffer (timeBindGroup c) = uniformBuffer c /\
    bg_offset (timeBindGroup c) = timeOffset c /\
    bg_size (timeBindGroup c) = 4 /\
    (forall i, (i < n)%nat ->
       Z.of_nat i * alignedUniformBytes + alignedUniformBytes <= timeOffset c) /\
    (n <> 0%nat ->
     Z.of_nat (n - 1) * alignedUniformBytes + alignedUniformBytes = timeOffset c).
Proof.
  intros Hrun.
  destruct (configure_inv random s rt rt' c Hrun)
    as (q & n & data & ts & Hs & Hq & Hn & -> & -> & _).
  split; [reflexivity|]. split; [reflexivity|].
  split; [exists 1; reflexivity|].
  split; [vm_compute; discriminate|].
  split.
  { intros m [k ->] Hm. rewrite alignedUniformBytes_eq.
    change uniformBytes with 20 in Hm. lia. }
  exists q, n. simpl. rewrite alignedUniformBytes_eq.
  repeat split; try assumption; try reflexivity; try lia.
  rewrite lookup_app_r by lia. rewrite Nat.sub_diag. reflexivity.
Qed.

Lemma C1_stride_size_and_time_offset_witness :
  configure always_half two_triangles device_start =
    (Return (closure_for two_triangles 1%nat 2%nat),
     snd (configure always_half two_triangles device_start)) /\
  alignedUniformBytes = 256 /\
  timeOffset (closure_for (num:=Q) two_triangles 1%nat 2%nat) = 512.
Proof.
  assert (Hrun : configure always_half two_triangles device_start =
                 (Return (closure_for two_triangles 1%nat 2%nat),
                  snd (configure always_half two_triangles device_start)))
    by (vm_compute; reflexivity).
  split; [exact Hrun|].
  destruct (C1_stride_size_and_time_offset always_half two_triangles _ _ _ Hrun)
    as (_ & Ha & _).
  split; [exact Ha | reflexivity].
Defined.

(** *** Sequences and the ranges they bind *)

Lemma bound_range_static (ub : BufferId) (i : nat) :
  bound_range (static_group ub i) [] =
  {| range_buffer := ub;
     range_offset := Z.of_nat i * alignedUniformBytes;
     range_size := 24 |}.
Proof.
  unfold bound_range, static_group. simpl. rewrite Z.add_0_r. reflexivity.
Qed.

Lemma bound_range_dynamic (ub : BufferId) (offset : Z) :
  bound_range {| bg_layout := dynamicBindGroupLayout; bg_buffer := ub;
                 bg_offset := 0; bg_size := 6 * BYTES_PER_ELEMENT |} [offset] =
  {| range_buffer := ub; range_offset := offset; range_size := 24 |}.
Proof. reflexivity. Qed.

Lemma draw_inputs_instances (memory : BufferId -> list byte) (dynamic : bool)
    (ub : BufferId) (m : nat) :
  forall (i : nat) (group0 group1 : list byte),
    draw_inputs memory group0 group1
      (flat_map (instance_commands dynamic ub
                   {| bg_layout := dynamicBindGroupLayout; bg_buffer := ub;
                      bg_offset := 0; bg_size := 6 * BYTES_PER_ELEMENT |})
                (seq i m)) =
    map (fun j => (group0,
                   read_range memory
                     {| range_buffer := ub;
                        range_offset := Z.of_nat j * alignedUniformBytes;
                        range_size := 24 |}))
        (seq i m).
Proof.
  induction m as [|m IH]; intros i group0 group1; [reflexivity|].
  destruct dynamic;
    cbn [seq flat_map app instance_commands draw_inputs map];
    change (1 =? 0) with false; change (1 =? 1) with true; cbv iota;
    rewrite IH.
  - rewrite bound_range_dynamic. reflexivity.
  - rewrite bound_range_static. reflexivity.
Qed.

Lemma draw_inputs_closure {num : Type} `{Number num} (memory : BufferId -> list byte)
    (dynamic : bool) (s : Settings) (ub : BufferId) (n : nat)
    (group0 group1 : list byte) :
  draw_inputs memory group0 group1 (sequence_of dynamic (closure_for (num:=num) s ub n)) =
  map (fun j => (read_range memory
                   {| range_buffer := ub;
                      range_offset := Z.of_nat n * alignedUniformBytes;
                      range_size := 4 |},
                 read_range memory
                   {| range_buffer := ub;
                      range_offset := Z.of_nat j * alignedUniformBytes;
                      range_size := 24 |}))
      (seq 0 n).
Proof.
  unfold sequence_of, frame_sequence, closure_for.
  cbn [triangles uniformBuffer dynamicBindGroup timeBindGroup app draw_inputs].
  change (0 =? 0) with true. cbv iota.
  rewrite draw_inputs_instances. unfold bound_range. simpl.
  rewrite Z.add_0_r. reflexivity.
Qed.

Lemma replay_encoded (cmds : list Command) : replay (map encoded cmds) = cmds.
Proof.
  unfold replay. induction cmds as [|c cmds IH]; [reflexivity|].
  simpl. rewrite IH. reflexivity.
Qed.

Lemma replay_bundle (b : RenderBundle) : replay [executeBundles [b]] = b.
Proof. unfold replay. simpl. rewrite !app_nil_r. reflexivity. Qed.

Lemma sequence_of_flag {num : Type} `{Number num} (c : Closure num) (b1 b2 : bool) :
  sequence_of b1 c = sequence_of b2 c -> b1 = b2.
Proof.
  unfold sequence_of, frame_sequence. simpl.
  destruct b1, b2; intros Heq; try reflexivity; discriminate.
Qed.

Lemma length_instance_commands (b : bool) (ub : BufferId) (d : BindGroup) (n : nat) :
  forall i, length (flat_map (instance_commands b ub d) (seq i n)) = (2 * n)%nat.
Proof.
  induction n as [|n IH]; intros i; [reflexivity|].
  cbn [seq flat_map instance_commands]. rewrite length_app, IH. simpl. lia.
Qed.

Lemma length_sequence_of {num : Type} `{Number num} (c : Closure num) (b : bool) :
  length (sequence_of b c) = (3 + 2 * triangles c)%nat.
Proof.
  unfold sequence_of, frame_sequence.
  rewrite length_app, length_instance_commands. reflexivity.
Qed.







(** C4 as stated fails on the empty payload (numTriangles = 0): it is within
    the ceiling, and the loop issues no transfer at all rather than one. *)
Lemma C4_empty_payload_sends_nothing :
  byteLength ([] : list Q) <= 14 * 1024 * 1024 /\
  upload maxMappingLength 1%nat ([] : list Q) device_start = (Return tt, device_start) /\
  length (queue (snd (upload maxMappingLength 1%nat ([] : list Q) device_start))) <> 1%nat.
Proof.
  split; [vm_compute; discriminate|].
  split; [reflexivity|]. vm_compute. discriminate.
Qed.

(** C4 (amended): for every payload the upload loop returns, and the
    writeBuffer calls it issued, in the order issued, start at byte 0 and each
    starts in source and destination where the one before ended (ascending,
    no gap, no overlap), each moves at least one and at most 14 MiB, and the
    last ends at the end of the payload; their slices concatenated are the
    bytes of the payload, and applied to a destination buffer they place the
    payload at its start and leave the rest untouched.  A non-empty payload
    within the ceiling goes out as exactly one transfer; the empty payload
    issues none. *)
Theorem C4_chunked_upload {num : Type} `{Number num}
    (ub : BufferId) (data : list num) (rt : Runtime num) (src dst : list byte) :
  Z.of_nat (length src) = byteLength data ->
  byteLength data <= Z.of_nat (length dst) ->
  exists ts,
    upload maxMappingLength ub data rt =
      (Return tt, pushed rt (map (transfer_op ub data) ts)) /\
    tiles (14 * 1024 * 1024) 0 ts (byteLength data) /\
    (forall (i j : nat) (ti tj : Transfer),
       ts !! i = Some ti -> ts !! j = Some tj -> (i < j)%nat ->
       dst_offset ti + size ti <= dst_offset tj) /\
    concat (map (slice src) ts) = src /\
    foldl (apply_transfer src) dst ts = src ++ drop (length src) dst /\
    (0 < Z.of_nat (length data) <= maxMappingLength ->
       ts = [{| dst_offset := 0; src_offset := 0; size := byteLength data |}]) /\
    (length data = 0%nat -> ts = []).
Proof.
  intros Hsrc Hdst.
  destruct (upload_spec maxMappingLength ub data ltac:(reflexivity) rt)
    as (ts & Hrun & Htiles).
  change (maxMappingLength * 4) with (14 * 1024 * 1024) in Htiles.
  exists ts. split; [exact Hrun|]. split; [exact Htiles|].
  split; [|split; [|split; [|split]]].
  - intros i j ti tj Hi Hj Hij.
    destruct (tiles_ascending _ _ _ _ i j ti tj Htiles Hi Hj Hij) as (_ & Hlt & _).
    exact Hlt.
  - rewrite (tiles_concat src _ _ _ _ Htiles) by lia.
    rewrite Z.sub_0_r, <- Hsrc, Nat2Z.id. simpl. apply firstn_all.
  - rewrite (tiles_apply src _ _ _ _ dst Htiles) by lia.
    rewrite Z.sub_0_r, <- Hsrc, Nat2Z.id. simpl. f_equal. apply firstn_all.
  - intros Hlen.
    rewrite (upload_single maxMappingLength ub data rt Hlen) in Hrun.
    injection Hrun as Hq. apply app_inv_head in Hq.
    destruct ts as [|[d0 s0 z0] [|t' ts]]; try discriminate.
    simpl in Hq. injection Hq as -> -> ->. reflexivity.
  - intros Hlen.
    rewrite (upload_empty maxMappingLength ub data rt Hlen) in Hrun.
    injection Hrun as Hq. apply (f_equal queue) in Hq. simpl in Hq.
    assert (Hq' : queue rt ++ [] = queue rt ++ map (transfer_op ub data) ts)
      by (rewrite app_nil_r; exact Hq).
    apply app_inv_head in Hq'. destruct ts; [reflexivity | discriminate].
Qed.

Lemma C4_chunked_upload_witness :
  Z.of_nat (length [Byte.x01; Byte.x02; Byte.x03; Byte.x04;
                    Byte.x05; Byte.x06; Byte.x07; Byte.x08]) =
    byteLength [1%Q; 2%Q] /\
  byteLength [1%Q; 2%Q] <=
    Z.of_nat (length [Byte.x00; Byte.x00; Byte.x00; Byte.x00; Byte.x00;
                      Byte.x00; Byte.x00; Byte.x00; Byte.xff; Byte.xff]) /\
  upload maxMappingLength 1%nat [1%Q; 2%Q] device_start =
    (Return tt,
     pushed device_start [writeBuffer 1%nat 0 [1%Q; 2%Q] 0 8]).
Proof.
  split; [reflexivity|]. split; [vm_compute; discriminate|].
  destruct (C4_chunked_upload 1%nat [1%Q; 2%Q] device_start
              [Byte.x01; Byte.x02; Byte.x03; Byte.x04;
               Byte.x05; Byte.x06; Byte.x07; Byte.x08]
              [Byte.x00; Byte.x00; Byte.x00; Byte.x00; Byte.x00;
               Byte.x00; Byte.x00; Byte.x00; Byte.xff; Byte.xff]
              eq_refl ltac:(vm_compute; discriminate))
    as (ts & Hrun & _ & _ & _ & _ & Hone & _).
  rewrite Hrun, Hone; [reflexivity | vm_compute; split; [reflexivity | discriminate]].
Defined.

(* With a ceiling of 3 elements a payload of 7 goes out in three transfers. *)
Example upload_in_three_chunks :
  queue (snd (upload 3 1%nat [1; 2; 3; 4; 5; 6; 7]%Q device_start)) =
  [ writeBuffer 1%nat 0 [1; 2; 3; 4; 5; 6; 7]%Q 0 12;
    writeBuffer 1%nat 12 [1; 2; 3; 4; 5; 6; 7]%Q 12 12;
    writeBuffer 1%nat 24 [1; 2; 3; 4; 5; 6; 7]%Q 24 4 ].
Proof. reflexivity. Qed.

(** *** The instance table *)

Lemma element_at_slot {A} (a : list A) (i : nat) (k : Z) :
  0 <= k ->
  element_at a (Z.of_nat i * alignedUniformBytes + 4 * k) = a !! slot_index i k.
Proof.
  intros Hk. unfold element_at, slot_index.
  rewrite alignedUniformBytes_eq, alignedUniformFloats_eq, BYTES_PER_ELEMENT_eq.
  replace (Z.of_nat i * 256 + 4 * k) with ((64 * Z.of_nat i + k) * 4) by lia.
  rewrite Z.mod_mul, Z.div_mul by lia.
  destruct (Z.leb_spec 0 ((64 * Z.of_nat i + k) * 4)); [reflexivity | lia].
Qed.

(* The values the five fields of a slot hold, in binary64 arithmetic with
   the store rounding to binary32, for a draw in [0, 1): each operation is
   monotone, so the ends of the ranges are what the ends of [0, 1] give. *)
Lemma stored_fields_ranges (r : double) :
  (0 <= dval r < 1)%Q ->
  (13421773 # 67108864 <= dval (drawn_value 0 r) <= 13421773 # 33554432)%Q /\
  (- (7549747 # 8388608) <= dval (drawn_value 1 r) <= 7549747 # 8388608)%Q /\
  (- (7549747 # 8388608) <= dval (drawn_value 2 r) <= 7549747 # 8388608)%Q /\
  (1 # 2 <= dval (drawn_value 3 r) <= 2)%Q /\
  (0 <= dval (drawn_value 4 r) <= 10)%Q.
Proof.
  intros Hr.
  unfold drawn_value, nfround, nadd, nsub, nmul, nlit, double_Number. cbn [dval].
  assert (E02 : (binary64 0.2 == 3602879701896397 # 18014398509481984)%Q) by computed.
  assert (E09 : (binary64 0.9 == 8106479329266893 # 9007199254740992)%Q) by computed.
  assert (E2 : (binary64 2 == 2)%Q) by computed.
  assert (E05 : (binary64 0.5 == 1 # 2)%Q) by computed.
  assert (E15 : (binary64 1.5 == 3 # 2)%Q) by computed.
  assert (E10 : (binary64 10 == 10)%Q) by computed.
  assert (Hoffset :
    (- (7549747 # 8388608) <=
     binary32 (binary64 (binary64 (binary64 0.9 * binary64 2) * binary64 (dval r - binary64 0.5)))
     <= 7549747 # 8388608)%Q).
  { assert (Ha : (8106479329266893 # 4503599627370496 <= binary64 (binary64 0.9 * binary64 2)
                  <= 8106479329266893 # 4503599627370496)%Q).
    { apply (binary64_between _ (8106479329266893 # 4503599627370496)
                                (8106479329266893 # 4503599627370496));
        [rewrite E09, E2; split; [vm_compute; discriminate | vm_compute; discriminate]
        | computed | computed]. }
    assert (Hd : (- (1 # 2) <= binary64 (dval r - binary64 0.5) <= 1 # 2)%Q).
    { apply (binary64_between _ (- (1 # 2)) (1 # 2)); [lra | computed | computed]. }
    assert (Hp : (- (8106479329266893 # 9007199254740992) <=
                  binary64 (binary64 (binary64 0.9 * binary64 2) * binary64 (dval r - binary64 0.5))
                  <= 8106479329266893 # 9007199254740992)%Q).
    { apply (binary64_between _ (- (8106479329266893 # 9007199254740992))
                                (8106479329266893 # 9007199254740992));
        [|computed|computed].
      generalize dependent (binary64 (binary64 0.9 * binary64 2)).
      generalize dependent (binary64 (dval r - binary64 0.5)).
      intros d Hd a Ha. split; nra. }
    apply (binary32_between _ (- (8106479329266893 # 9007199254740992))
                              (8106479329266893 # 9007199254740992));
      [exact Hp | computed | computed]. }
  split; [|split; [exact Hoffset | split; [exact Hoffset | split]]].
  - assert (H1 : (0 <= binary64 (dval r * binary64 0.2)
                  <= 3602879701896397 # 18014398509481984)%Q).
    { apply (binary64_between _ 0 (3602879701896397 # 18014398509481984));
        [split; nra | computed | computed]. }
    assert (H2 : (3602879701896397 # 18014398509481984 <=
                  binary64 (binary64 (dval r * binary64 0.2) + binary64 0.2)
                  <= 3602879701896397 # 9007199254740992)%Q).
    { apply (binary64_between _ (3602879701896397 # 18014398509481984)
                                (3602879701896397 # 9007199254740992));
        [split; lra | computed | computed]. }
    apply (binary32_between _ (3602879701896397 # 18014398509481984)
                              (3602879701896397 # 9007199254740992));
      [exact H2 | computed | computed].
  - assert (H1 : (0 <= binary64 (dval r * binary64 1.5) <= 3 # 2)%Q).
    { apply (binary64_between _ 0 (3 # 2)); [split; nra | computed | computed]. }
    assert (H2 : (1 # 2 <= binary64 (binary64 (dval r * binary64 1.5) + binary64 0.5) <= 2)%Q).
    { apply (binary64_between _ (1 # 2) 2); [split; lra | computed | computed]. }
    apply (binary32_between _ (1 # 2) 2); [exact H2 | computed | computed].
  - assert (H1 : (0 <= binary64 (dval r * binary64 10) <= 10)%Q).
    { apply (binary64_between _ 0 10); [split; nra | computed | computed]. }
    apply (binary32_between _ 0 10); [exact H1 | computed | computed].
Qed.

(** C5 as stated fails at the upper end of three ranges.  For a draw close
    to 1, here 1 - 2^-32, evaluated in binary64 with the stores rounding to
    binary32: scale is the binary32 value nearest to 0.4 - 2^-32 / 5, which
    is 0.4000000059604645, not below 0.4; scalar is 2 and scalarOffset
    is 10. *)
Lemma C5_scale_reaches_0_4 :
  let r : float := nlit (1 - (1 # 2 ^ 32))%Q in
  (exists q, f64_to_Q r = Some q /\ (0 <= q < 1)%Q) /\
  exists data groups rt',
    build_instances (fun _ => r) 1%nat (JFinite 1) device_start =
      (Return (data, groups), rt') /\
    exists scale scalar scalarOffset a b c,
      element_at data (0 * alignedUniformBytes + 0) = Some scale /\
      element_at data (0 * alignedUniformBytes + 12) = Some scalar /\
      element_at data (0 * alignedUniformBytes + 16) = Some scalarOffset /\
      f64_to_Q scale = Some a /\ ~ (a < 0.4)%Q /\
      f64_to_Q scalar = Some b /\ ~ (b < 2.0)%Q /\
      f64_to_Q scalarOffset = Some c /\ ~ (c < 10.0)%Q.
Proof.
  intros r. split.
  - eexists. split; [vm_compute; reflexivity|]. split; vm_compute; [discriminate | reflexivity].
  - eexists _, _, _. split; [vm_compute; reflexivity|].
    eexists _, _, _, _, _, _.
    split; [vm_compute; reflexivity|]. split; [vm_compute; reflexivity|].
    split; [vm_compute; reflexivity|].
    split; [vm_compute; reflexivity|].
    split; [intros Hlt; vm_compute in Hlt; discriminate|].
    split; [vm_compute; reflexivity|].
    split; [intros Hlt; vm_compute in Hlt; discriminate|].
    split; [vm_compute; reflexivity|].
    intros Hlt; vm_compute in Hlt; discriminate.
Qed.

(** C5 (amended): for every instance count N that is an array length
    (0 <= N < 2^32) and whose table the host can allocate, the table is a
    Float32Array of exactly N * alignedUniformBytes bytes in which, for every
    instance i, the five fields are at byte offsets 0, 4, 8, 12 and 16 of
    slot i, which end inside the slot, the rest of the slot staying 0.  With
    Math.random() in [0, 1), the arithmetic in binary64 and the stores
    rounding to binary32, the values the table holds are: scale in
    [0.2, 0.4000000059604645], the upper end being the binary32 value
    nearest to 0.4; offsetX and offsetY in (-0.9, 0.9), precisely within
    0.8999999761581421 of 0; scalar in [0.5, 2]; scalarOffset in [0, 10]. *)
Theorem C5_instance_table (random : nat -> double) (ub : BufferId) (q : Q) (n : nat)
    (rt : Runtime double) :
  (forall k, 0 <= dval (random k) < 1)%Q ->
  (q == inject_Z (Z.of_nat n))%Q -> Z.of_nat n <= 2 ^ 32 - 1 ->
  allocatable rt (Z.of_nat n * alignedUniformBytes) = true ->
  exists data groups rt',
    build_instances random ub (JFinite q) rt = (Return (data, groups), rt') /\
    byteLength data = Z.of_nat n * alignedUniformBytes /\
    forall i, (i < n)%nat ->
      let slot := Z.of_nat i * alignedUniformBytes in
      (exists scale offsetX offsetY scalar scalarOffset,
         element_at data (slot + 0) = Some scale /\
         element_at data (slot + 4) = Some offsetX /\
         element_at data (slot + 8) = Some offsetY /\
         element_at data (slot + 12) = Some scalar /\
         element_at data (slot + 16) = Some scalarOffset /\
         (0.2 <= dval scale <= 13421773 # 33554432)%Q /\
         (-0.9 < dval offsetX < 0.9)%Q /\
         (- (7549747 # 8388608) <= dval offsetX <= 7549747 # 8388608)%Q /\
         (-0.9 < dval offsetY < 0.9)%Q /\
         (- (7549747 # 8388608) <= dval offsetY <= 7549747 # 8388608)%Q /\
         (0.5 <= dval scalar <= 2.0)%Q /\
         (0.0 <= dval scalarOffset <= 10.0)%Q) /\
      slot + 16 + BYTES_PER_ELEMENT <= slot + alignedUniformBytes /\
      slot + alignedUniformBytes <= byteLength data /\
      (forall k, 5 <= k < alignedUniformFloats ->
         element_at data (slot + 4 * k) = Some (Double 0)).
Proof.
  intros Hrandom Hq Hn Halloc.
  destruct (build_instances_spec random ub q n rt Hq Hn Halloc)
    as (data & rt' & Hrun & Hlen & _ & _ & _ & _ & Hfields & Hrest).
  eexists data, _, rt'. split; [exact Hrun|].
  assert (Hbytes : byteLength data = Z.of_nat n * alignedUniformBytes).
  { unfold byteLength. rewrite Hlen, alignedUniformFloats_eq,
      alignedUniformBytes_eq, BYTES_PER_ELEMENT_eq. lia. }
  split; [exact Hbytes|].
  intros i Hi slot. split; [|split; [|split]].
  - exists (drawn_value 0 (random (0 + 5 * i + randoms rt)%nat)),
           (drawn_value 1 (random (1 + 5 * i + randoms rt)%nat)),
           (drawn_value 2 (random (2 + 5 * i + randoms rt)%nat)),
           (drawn_value 3 (random (3 + 5 * i + randoms rt)%nat)),
           (drawn_value 4 (random (4 + 5 * i + randoms rt)%nat)).
    unfold slot.
    change 0 with (4 * 0) at 1. change 4 with (4 * 1) at 2.
    change 8 with (4 * 2). change 12 with (4 * 3). change 16 with (4 * 4).
    rewrite !element_at_slot by lia.
    pose proof (Hfields i 0%nat Hi ltac:(lia)) as F0.
    pose proof (Hfields i 1%nat Hi ltac:(lia)) as F1.
    pose proof (Hfields i 2%nat Hi ltac:(lia)) as F2.
    pose proof (Hfields i 3%nat Hi ltac:(lia)) as F3.
    pose proof (Hfields i 4%nat Hi ltac:(lia)) as F4.
    change (Z.of_nat 0) with 0 in F0. change (Z.of_nat 1) with 1 in F1.
    change (Z.of_nat 2) with 2 in F2. change (Z.of_nat 3) with 3 in F3.
    change (Z.of_nat 4) with 4 in F4.
    rewrite F0, F1, F2, F3, F4.
    repeat (split; [reflexivity|]).
    pose proof (stored_fields_ranges _ (Hrandom (0 + 5 * i + randoms rt)%nat)) as (H0 & _).
    pose proof (stored_fields_ranges _ (Hrandom (1 + 5 * i + randoms rt)%nat)) as (_ & H1 & _).
    pose proof (stored_fields_ranges _ (Hrandom (2 + 5 * i + randoms rt)%nat)) as (_ & _ & H2 & _).
    pose proof (stored_fields_ranges _ (Hrandom (3 + 5 * i + randoms rt)%nat)) as (_ & _ & _ & H3 & _).
    pose proof (stored_fields_ranges _ (Hrandom (4 + 5 * i + randoms rt)%nat)) as (_ & _ & _ & _ & H4).
    repeat split; lra.
  - rewrite alignedUniformBytes_eq, BYTES_PER_ELEMENT_eq. lia.
  - rewrite Hbytes. unfold slot. rewrite alignedUniformBytes_eq. lia.
  - intros k Hk. rewrite alignedUniformFloats_eq in Hk. unfold slot.
    rewrite element_at_slot by lia.
    apply Hrest.
    + intros i' k' Hi' Hk'. rewrite !slot_index_eq. lia.
    + rewrite slot_index_eq. rewrite alignedUniformFloats_eq in Hlen. lia.
Qed.

Lemma C5_instance_table_witness :
  (forall k : nat, 0 <= dval ((fun _ => Double (1 # 2)) k) < 1)%Q /\
  (2 == inject_Z (Z.of_nat 2))%Q /\ Z.of_nat 2 <= 2 ^ 32 - 1 /\
  allocatable (device_start (num:=double)) (Z.of_nat 2 * alignedUniformBytes) = true /\
  exists data groups rt',
    build_instances (fun _ => Double (1 # 2)) 1%nat (JFinite 2) device_start =
      (Return (data, groups), rt') /\
    byteLength data = 512.
Proof.
  assert (Hr : (forall k : nat, 0 <= dval ((fun _ => Double (1 # 2)) k) < 1)%Q)
    by (intros k; cbn [dval]; lra).
  split; [exact Hr|]. split; [reflexivity|]. split; [vm_compute; discriminate|].
  split; [reflexivity|].
  destruct (C5_instance_table (fun _ => Double (1 # 2)) 1%nat 2 2%nat device_start Hr
              ltac:(reflexivity) ltac:(vm_compute; discriminate) ltac:(reflexivity))
    as (data & groups & rt' & Hrun & Hlen & _).
  exists data, groups, rt'. split; [exact Hrun | exact Hlen].
Defined.

(** *** Reconfiguration *)

Section Reconfiguration.
Context {num : Type} `{Number num}.
Variable random : nat -> num.

Lemma createBuffer_outcome (x : jsnumber) (rt rt1 : Runtime num) (o : Outcome BufferId) :
  createBuffer x rt = (o, rt1) ->
  queue rt1 = queue rt /\ randoms rt1 = randoms rt /\
  (o = Throw TypeError \/ exists ub, o = Return ub).
Proof.
  unfold createBuffer, bind, lift.
  assert (Hcases : enforce_range_u64 x = Throw TypeError \/
                   exists z, enforce_range_u64 x = Return z).
  { destruct x as [q| |b]; simpl; auto.
    destruct ((Qtrunc q <? 0) || (2 ^ 53 - 1 <? Qtrunc q)); eauto. }
  destruct Hcases as [-> | [z ->]]; intros [= <- <-]; simpl; eauto.
Qed.

Lemma new_Float32Array_outcome (allocatable : Z -> bool) (x : jsnumber) :
  new_Float32Array (num:=num) allocatable x = Throw RangeError \/
  exists a, new_Float32Array (num:=num) allocatable x = Return a.
Proof.
  unfold new_Float32Array.
  assert (Hindex : to_index x = Throw RangeError \/ exists t, to_index x = Return t).
  { destruct x as [q| |b]; simpl; eauto.
    destruct ((Qtrunc q <? 0) || (2 ^ 53 - 1 <? Qtrunc q)); eauto. }
  destruct Hindex as [-> | [t ->]]; [left; reflexivity|].
  destruct (allocatable (t * BYTES_PER_ELEMENT)); eauto.
Qed.

(* A negative or non-finite count makes [configure] throw before anything
   was drawn from Math.random or put on the queue. *)
Lemma configure_rejects (s : Settings) (rt : Runtime num) :
  negative_or_non_finite (numTriangles s) ->
  exists e rt',
    configure random s rt = (Throw e, rt') /\
    (e = TypeError \/ e = RangeError) /\
    queue rt' = queue rt /\ randoms rt' = randoms rt.
Proof.
  intros Hbad. unfold configure, bind at 1.
  destruct (createBuffer _ rt) as [o rt1] eqn:Hcreate.
  destruct (createBuffer_outcome _ _ _ _ Hcreate) as (Hq & Hr & [-> | [ub ->]]).
  - exists TypeError, rt1. auto.
  - unfold bind at 1. unfold build_instances, bind at 1, lift at 1.
    destruct (new_Float32Array_outcome (allocatable rt1)
                (jmulZ (numTriangles s) alignedUniformFloats))
      as [-> | [a ->]].
    + exists RangeError, rt1. auto.
    + unfold bind at 1, lift at 1.
      rewrite (new_Array_rejects (numTriangles s)).
      * exists RangeError, rt1. auto.
      * destruct (numTriangles s); exact Hbad.
Qed.

Lemma updateSettings_outcome (w w' : World num) (o : Outcome unit) :
  updateSettings random w = (o, w') ->
  settings w' = settings w /\
  previousFrameTimestamp w' = previousFrameTimestamp w /\
  jsTimeAvg w' = jsTimeAvg w /\ frameTimeAvg w' = frameTimeAvg w /\
  ((o = Return tt /\
    configure random (settings w) (runtime w) = (Return (current_doDraw w'), runtime w'))
   \/
   (o <> Return tt /\ current_doDraw w' = current_doDraw w /\
    exists o', configure random (settings w) (runtime w) = (o', runtime w') /\
               forall c, o' <> Return c)).
Proof.
  unfold updateSettings.
  destruct (configure random (settings w) (runtime w)) as [[c|e|] rt] eqn:Hcfg;
    intros [= <- <-]; simpl; repeat split; auto.
  - right. repeat split; try discriminate. eexists. split; [reflexivity | discriminate].
  - right. repeat split; try discriminate. eexists. split; [reflexivity | discriminate].
Qed.

Lemma reachable_ok (w : World num) : reachable random w -> closure_ok (current_doDraw w).
Proof.
  assert (Hupdate : forall s1 w o w',
            closure_ok (current_doDraw w) ->
            (set_settings s1 ;; updateSettings random) w = (o, w') ->
            closure_ok (current_doDraw w')).
  { intros s1 w0 o w' Hok Hstep. unfold bind, set_settings in Hstep.
    destruct (updateSettings_outcome _ _ _ Hstep)
      as (_ & _ & _ & _ & [(_ & Hcfg) | (_ & Hsame & _)]).
    - simpl in Hcfg.
      destruct (configure_inv random _ _ _ _ Hcfg) as (q & n & d & ts & _ & _ & _ & -> & _).
      apply closure_for_ok.
    - rewrite Hsame. exact Hok. }
  induction 1 as [s rt rt' c Hcfg | v w w' o _ IH Hstep | b w w' o _ IH Hstep
                 | b w w' o _ IH Hstep | t a b w w' o _ IH Hstep].
  - simpl. destruct (configure_inv random _ _ _ _ Hcfg) as (q & n & d & ts & _ & _ & _ & -> & _).
    apply closure_for_ok.
  - exact (Hupdate _ _ _ _ IH Hstep).
  - exact (Hupdate _ _ _ _ IH Hstep).
  - exact (Hupdate _ _ _ _ IH Hstep).
  - rewrite (frame_spec _ _ _ _ IH) in Hstep. injection Hstep as _ <-. simpl.
    apply ticked_ok. exact IH.
Qed.

Lemma reconfigured_configure (w w' : World num) :
  reconfigured random w w' ->
  exists s rt, configure random s rt = (Return (current_doDraw w'), runtime w').
Proof.
  intros Hre.
  destruct Hre as [v w w' Hstep | b w w' Hstep | b w w' Hstep];
    unfold numTriangles_change, dynamicOffsets_input, renderBundles_input,
      bind, set_settings in Hstep;
    destruct (updateSettings_outcome _ _ _ Hstep)
      as (_ & _ & _ & _ & [(_ & Hcfg) | (Hno & _)]);
    try (exfalso; apply Hno; reflexivity); eauto.
Qed.

End Reconfiguration.

Lemma pass_of_flags {num : Type} `{Number num} (s1 s2 : Settings) (c : Closure num) :
  renderBundles s1 = renderBundles s2 -> dynamicOffsets s1 = dynamicOffsets s2 ->
  pass_of s1 c = pass_of s2 c.
Proof. unfold pass_of. intros -> ->. reflexivity. Qed.

(** *** The frame driver *)

Lemma elapsed_first (c : Closure Q) (t : Q) :
  startTime c = None -> (elapsed c t == 0)%Q.
Proof.
  intros Hs. unfold elapsed. rewrite Hs. simpl. field.
Qed.

Lemma elapsed_running (c : Closure Q) (t0 d : Q) :
  startTime c = Some t0 -> (elapsed c (t0 + d) == d / 1000)%Q.
Proof.
  intros Hs. unfold elapsed. rewrite Hs. simpl. field.
Qed.

Lemma smooth_first (sample : Q) : (smooth None sample == sample)%Q.
Proof. unfold smooth. simpl. ring. Qed.

Lemma smooth_step (avg sample : Q) :
  (smooth (Some avg) sample == 0.8 * avg + 0.2 * sample)%Q.
Proof. unfold smooth. simpl. ring. Qed.



(** C9: the closure a call of [configure] returns has startTime undefined;
    so after any of the three controls reconfigured, the next frame, whatever
    its time stamp, sets startTime to that time stamp and writes 0 to the
    time uniform, whatever the clock of the closure it replaced. *)
Theorem C9_reconfiguration_restarts_clock (random : nat -> Q) (w w' : World Q)
    (t now_start now_end : Q) :
  reconfigured random w w' ->
  (exists s rt, configure random s rt = (Return (current_doDraw w'), runtime w')) /\
  startTime (current_doDraw w') = None /\
  exists (w'' : World Q) (e : Q) (p : list PassCommand),
    frame t now_start now_end w' = (Return tt, w'') /\
    startTime (current_doDraw w'') = Some t /\
    queue (runtime w'') =
      queue (runtime w')
      ++ [writeBuffer (uniformBuffer (current_doDraw w'))
            (timeOffset (current_doDraw w')) [e] 0 4; submit p] /\
    (e == 0)%Q.
Proof.
  intros Hre.
  destruct (reconfigured_configure random w w' Hre) as (s & rt & Hcfg).
  destruct (configure_inv random s rt _ _ Hcfg)
    as (q & n & data & ts & _ & _ & _ & Hc & _ & _).
  assert (Hok : closure_ok (current_doDraw w')) by (rewrite Hc; apply closure_for_ok).
  assert (Hstart : startTime (current_doDraw w') = None) by (rewrite Hc; reflexivity).
  split; [eauto|]. split; [exact Hstart|].
  eexists _, (elapsed (current_doDraw w') t), (pass_of (settings w') (current_doDraw w')).
  split; [apply frame_spec; exact Hok|].
  split; [simpl; rewrite Hstart; reflexivity|].
  split; [reflexivity|].
  apply elapsed_first. exact Hstart.
Qed.

Lemma fresh_example_reachable : reachable always_half fresh_example.
Proof.
  apply (reachable_init always_half two_triangles device_start).
  vm_compute. reflexivity.
Qed.

Lemma fresh_example_f64_reachable : reachable always_half_f64 fresh_example_f64.
Proof.
  apply (reachable_init always_half_f64 one_triangle device_start).
  vm_compute. reflexivity.
Qed.

Lemma C9_reconfiguration_restarts_clock_witness :
  reconfigured always_half running_example
    (snd (dynamicOffsets_input always_half true running_example)) /\
  startTime (current_doDraw running_example) = Some 5%Q /\
  startTime (current_doDraw
               (snd (dynamicOffsets_input always_half true running_example))) = None.
Proof.
  assert (Hre : reconfigured always_half running_example
                  (snd (dynamicOffsets_input always_half true running_example))).
  { apply (reconfigured_dynamicOffsets always_half true). vm_compute. reflexivity. }
  split; [exact Hre|]. split; [vm_compute; reflexivity|].
  destruct (C9_reconfiguration_restarts_clock always_half _ _ 100%Q 0%Q 0%Q Hre)
    as (_ & Hnone & _).
  exact Hnone.
Defined.

(** C8 as stated fails: no ConfigError is raised, and nothing is checked
    at [configure].  For the count -3 what ends the call is the TypeError
    of createBuffer, whose size -764 is not a GPUSize64; for the negative
    count -1/1000 createBuffer is passed (its size truncates to 3) and a
    buffer is created before new Array throws its RangeError. *)
Lemma C8_rejection_is_a_TypeError_of_createBuffer :
  negative_or_non_finite (JFinite (-3)) /\
  createBuffer (jaddZ (jmulZ (JFinite (-3)) alignedUniformBytes) BYTES_PER_ELEMENT)
    (runtime fresh_example) = (Throw TypeError, runtime fresh_example) /\
  fst (numTriangles_change always_half (JFinite (-3)) fresh_example) = Throw TypeError /\
  negative_or_non_finite (JFinite (- (1 # 1000))) /\
  fst (numTriangles_change always_half (JFinite (- (1 # 1000))) fresh_example)
    = Throw RangeError /\
  buffers (runtime (snd (numTriangles_change always_half (JFinite (- (1 # 1000)))
                           fresh_example)))
    = buffers (runtime fresh_example) ++ [3].
Proof.
  split; [reflexivity|]. split; [vm_compute; reflexivity|].
  split; [vm_compute; reflexivity|]. split; [reflexivity|].
  split; vm_compute; reflexivity.
Qed.

(** C8 (amended): when the numTriangles control delivers a negative or
    non-finite number, [configure] throws the TypeError or RangeError of the
    runtime (there is no ConfigError, and no check in [configure] itself)
    and the listener ends with that exception before doDraw is assigned: the
    draw function of the previous configuration stays in place, no queue
    operation was issued, and the next frame draws with it exactly as it
    would have without the rejected change. *)
Theorem C8_invalid_count_keeps_previous_configuration {num : Type} `{Number num}
    (random : nat -> num) (w : World num) (v : jsnumber) (t now_start now_end : num) :
  reachable random w ->
  negative_or_non_finite v ->
  exists (e : Error) (w' : World num),
    numTriangles_change random v w = (Throw e, w') /\
    (e = TypeError \/ e = RangeError) /\
    numTriangles (settings w') = v /\
    current_doDraw w' = current_doDraw w /\
    queue (runtime w') = queue (runtime w) /\
    previousFrameTimestamp w' = previousFrameTimestamp w /\
    jsTimeAvg w' = jsTimeAvg w /\ frameTimeAvg w' = frameTimeAvg w /\
    exists (w1 w1' : World num),
      frame t now_start now_end w = (Return tt, w1) /\
      frame t now_start now_end w' = (Return tt, w1') /\
      current_doDraw w1' = current_doDraw w1 /\
      queue (runtime w1') = queue (runtime w1) /\
      jsTimeAvg w1' = jsTimeAvg w1 /\ frameTimeAvg w1' = frameTimeAvg w1.
Proof.
  intros Hreach Hbad.
  pose proof (reachable_ok random w Hreach) as Hok.
  set (s1 := {| numTriangles := v; renderBundles := renderBundles (settings w);
                dynamicOffsets := dynamicOffsets (settings w) |}).
  destruct (configure_rejects random s1 (runtime w) Hbad)
    as (e & rt' & Hcfg & He & Hq & Hr).
  set (w' := {| settings := s1; runtime := rt'; current_doDraw := current_doDraw w;
                previousFrameTimestamp := previousFrameTimestamp w;
                jsTimeAvg := jsTimeAvg w; frameTimeAvg := frameTimeAvg w |}).
  assert (Hstep : numTriangles_change random v w = (Throw e, w')).
  { unfold numTriangles_change, bind, set_settings, updateSettings. simpl.
    fold s1. rewrite Hcfg. reflexivity. }
  exists e, w'. split; [exact Hstep|]. split; [exact He|].
  repeat (split; [reflexivity || exact Hq|]).
  eexists _, _.
  split; [apply frame_spec; exact Hok|].
  split; [apply frame_spec; exact Hok|].
  simpl. repeat split.
  rewrite Hq. unfold draw_ops.
  rewrite (pass_of_flags s1 (settings w)) by reflexivity. reflexivity.
Qed.

Lemma C8_invalid_count_keeps_previous_configuration_witness :
  reachable always_half fresh_example /\
  negative_or_non_finite (JFinite (-3)) /\
  negative_or_non_finite JNaN /\
  numTriangles_change always_half (JFinite (-3)) fresh_example =
    (Throw TypeError, snd (numTriangles_change always_half (JFinite (-3)) fresh_example)) /\
  current_doDraw (snd (numTriangles_change always_half JNaN fresh_example)) =
    current_doDraw fresh_example.
Proof.
  split; [exact fresh_example_reachable|].
  split; [reflexivity|]. split; [exact I|].
  split; [vm_compute; reflexivity|].
  destruct (C8_invalid_count_keeps_previous_configuration always_half fresh_example
              JNaN 0%Q 0%Q 0%Q fresh_example_reachable I)
    as (e & w' & Hstep & _ & _ & Hsame & _).
  rewrite Hstep. exact Hsame.
Defined.

(** *** The averages *)

Lemma smooth_contracts (avg sample : Q) :
  (smooth (Some avg) sample - sample == 0.8 * (avg - sample))%Q.
Proof. rewrite smooth_step. ring. Qed.

Lemma Qpower_succ_nat (x : Q) (n : nat) :
  (x ^ Z.of_nat (Datatypes.S n) == x * x ^ Z.of_nat n)%Q.
Proof.
  rewrite Nat2Z.inj_succ. unfold Z.succ.
  destruct (Qeq_dec x 0) as [Hz|Hnz].
  - rewrite Hz. rewrite Qmult_0_l. apply Qpower_0. lia.
  - rewrite Qpower_plus by exact Hnz. simpl. ring.
Qed.

Lemma smooth_repeat_converges (n : nat) :
  forall avg sample : Q,
  exists x, smooth_repeat n (Some avg) sample = Some x /\
            (x - sample == 0.8 ^ Z.of_nat n * (avg - sample))%Q.
Proof.
  induction n as [|n IH]; intros avg sample.
  - exists avg. split; [reflexivity|]. simpl. ring.
  - destruct (IH (smooth (Some avg) sample) sample) as (x & Hx & Hd).
    exists x. split; [exact Hx|].
    rewrite Hd, smooth_contracts, Qpower_succ_nat. ring.
Qed.

(** C7 as stated fails in the arithmetic the code runs in: the first update
    computes (1 - 0.2) * s + 0.2 * s in binary64, and for the sample s = 3
    that is 3.0000000000000004, not the sample. *)
Lemma C7_first_update_is_rounded :
  jsTimeAvg fresh_example_f64 = None /\
  exists w' : World float,
    frame (nlit 0) (nlit 0) (nlit 3) fresh_example_f64 = (Return tt, w') /\
    jsTimeAvg w' <> Some (nlit 3 - nlit 0)%num.
Proof.
  split; [reflexivity|].
  exists (snd (frame (nlit 0) (nlit 0) (nlit 3) fresh_example_f64)).
  split; [vm_compute; reflexivity|].
  intros Heq.
  assert (Hb : match jsTimeAvg (snd (frame (nlit 0) (nlit 0) (nlit 3) fresh_example_f64)) with
               | Some x => PrimFloat.eqb x (nlit 3 - nlit 0)%num
               | None => false
               end = true)
    by (rewrite Heq; vm_compute; reflexivity).
  vm_compute in Hb. discriminate.
Qed.

(** C7 (amended): every frame replaces each average by
    (1 - 0.2) * avg + 0.2 * sample, after seeding an undefined average with
    the sample.  In exact arithmetic the first update therefore returns the
    first sample, every later one 0.8 * avg + 0.2 * sample, and n frames with
    the same sample s shrink the distance to s by 0.8^n (an average equal to
    s stays there).  In the binary64 arithmetic of the code the first update
    of the frame-time average, whose first sample is 0, gives exactly 0;
    other samples are returned up to rounding only. *)
Theorem C7_exponential_average
    (random : nat -> Q) (w : World Q) (t now_start now_end : Q)
    (random64 : nat -> float) (w64 : World float) (t64 start64 end64 : float) :
  reachable random w ->
  reachable random64 w64 ->
  previousFrameTimestamp w64 = None -> frameTimeAvg w64 = None ->
  (exists (w' : World Q) (js fr : Q),
     frame t now_start now_end w = (Return tt, w') /\
     jsTimeAvg w' = Some js /\ frameTimeAvg w' = Some fr /\
     (js == match jsTimeAvg w with
            | None => now_end - now_start
            | Some avg => 0.8 * avg + 0.2 * (now_end - now_start)
            end)%Q /\
     (fr == let sample := match previousFrameTimestamp w with
                          | None => 0
                          | Some p => t - p
                          end in
            match frameTimeAvg w with
            | None => sample
            | Some avg => 0.8 * avg + 0.2 * sample
            end)%Q) /\
  (forall (n : nat) (avg sample : Q),
     exists x, smooth_repeat n (Some avg) sample = Some x /\
               (x - sample == 0.8 ^ Z.of_nat n * (avg - sample))%Q) /\
  (forall (n : nat) (sample : Q),
     exists x, smooth_repeat (Datatypes.S n) None sample = Some x /\ (x == sample)%Q) /\
  (exists w64' : World float,
     frame t64 start64 end64 w64 = (Return tt, w64') /\
     frameTimeAvg w64' = Some (nlit 0)).
Proof.
  intros Hreach Hreach64 Hprev64 Havg64.
  split; [|split; [|split]].
  - eexists _, _, _.
    split; [apply frame_spec, (reachable_ok random); exact Hreach|].
    split; [reflexivity|]. split; [reflexivity|].
    split.
    + destruct (jsTimeAvg w); [apply smooth_step | apply smooth_first].
    + cbv zeta. destruct (frameTimeAvg w); [apply smooth_step | apply smooth_first].
  - intros n avg sample. apply smooth_repeat_converges.
  - intros n sample.
    destruct (smooth_repeat_converges n (smooth None sample) sample) as (x & Hx & Hd).
    exists x. split; [exact Hx|].
    rewrite smooth_first in Hd.
    assert (Hzero : (x - sample == 0)%Q) by (rewrite Hd; ring).
    lra.
  - eexists. split; [apply frame_spec, (reachable_ok random64); exact Hreach64|].
    simpl. rewrite Hprev64, Havg64. vm_compute. reflexivity.
Qed.

Lemma C7_exponential_average_witness :
  reachable always_half fresh_example /\
  reachable always_half_f64 fresh_example_f64 /\
  previousFrameTimestamp fresh_example_f64 = None /\
  frameTimeAvg fresh_example_f64 = None /\
  exists (w' : World Q) (js : Q),
    frame 0%Q 0%Q 3%Q fresh_example = (Return tt, w') /\
    jsTimeAvg w' = Some js /\ (js == 3 - 0)%Q.
Proof.
  split; [exact fresh_example_reachable|].
  split; [exact fresh_example_f64_reachable|].
  split; [reflexivity|]. split; [reflexivity|].
  destruct (C7_exponential_average always_half fresh_example 0%Q 0%Q 3%Q
              always_half_f64 fresh_example_f64 (nlit 0) (nlit 0) (nlit 3)
              fresh_example_reachable fresh_example_f64_reachable eq_refl eq_refl)
    as ((w' & js & fr & Hframe & Hjs & _ & Hval & _) & _).
  exists w', js. split; [exact Hframe|]. split; [exact Hjs | exact Hval].
Defined.

(** ** Further examples *)

(* A rejected count followed by a click on the dynamicOffsets box leaves the
   old closure in place with the flag changed under it: the state in which
   the direct pass and the bundle differ. *)
Example flag_changes_under_a_kept_closure :
  let w1 := snd (numTriangles_change always_half JNaN fresh_example) in
  let w2 := snd (dynamicOffsets_input always_half true w1) in
  current_doDraw w2 = current_doDraw fresh_example /\
  dynamicOffsets (settings w2) = true /\
  renderBundle (current_doDraw w2) = sequence_of false (current_doDraw w2).
Proof. vm_compute. repeat split. Qed.

(* In binary64 the largest draw below 1 already rounds the sum up to the
   double 0.4, and the store then holds the binary32 value nearest to it. *)
Example scale_rounds_up_in_binary64 :
  PrimFloat.eqb (PrimFloat.next_down (nlit 1) * nlit 0.2 + nlit 0.2)%num (nlit 0.4%Q) = true /\
  PrimFloat.eqb (drawn_value 0 (PrimFloat.next_down (nlit 1))) (nfround (nlit 0.4%Q)) = true.
Proof. split; vm_compute; reflexivity. Qed.

(** * Further properties of the program *)

(** ** The shader *)

Lemma wgsl_lt_spec (a b : Q) : wgsl_lt a b = true <-> (a < b)%Q.
Proof.
  unfold wgsl_lt. rewrite negb_true_iff.
  destruct (Qle_bool b a) eqn:E.
  - apply Qle_bool_iff in E. split; [discriminate | intros; lra].
  - split; [intros _ | reflexivity].
    destruct (Qlt_le_dec a b) as [Hlt|Hle]; [exact Hlt|].
    apply Qle_bool_iff in Hle. congruence.
Qed.

Lemma Qfloor_unique (x : Q) (z : Z) :
  (inject_Z z <= x)%Q -> (x < inject_Z (z + 1))%Q -> Qfloor x = z.
Proof.
  intros Hlo Hhi.
  pose proof (Qfloor_le x) as H1. pose proof (Qlt_floor x) as H2.
  assert (Ha : (inject_Z (Qfloor x) < inject_Z (z + 1))%Q) by lra.
  assert (Hb : (inject_Z z < inject_Z (Qfloor x + 1))%Q) by lra.
  rewrite <- Zlt_Qlt in Ha, Hb. lia.
Qed.

(** *** In exact arithmetic *)

(* Without rounding the remainder and the fade are the expressions of the
   source as they stand. *)
Lemma wgsl_rem_exact (e1 e2 : Q) :
  wgsl_rem exact e1 e2 = (e1 - e2 * inject_Z (Qtrunc (e1 / e2)))%Q.
Proof. reflexivity. Qed.

Lemma fade_of_exact (time : Q) (u : Uniforms) :
  fade_of exact time u =
  let fade := wgsl_rem exact (scalarOffset u + time * scalar u / 10.0) 1.0 in
  if wgsl_lt fade 0.5 then (fade * 2.0)%Q else ((1.0 - fade) * 2.0)%Q.
Proof. reflexivity. Qed.

(* The remainder by 1 of a non-negative number is its fractional part. *)
Lemma wgsl_rem_one_range (x : Q) : (0 <= x)%Q -> (0 <= wgsl_rem exact x 1.0 < 1)%Q.
Proof.
  intros Hx. rewrite wgsl_rem_exact. unfold Qtrunc.
  assert (Hdiv : (x / 1.0 == x)%Q) by field.
  assert (Hpos : Qle_bool 0 (x / 1.0) = true) by (apply Qle_bool_iff; lra).
  rewrite Hpos, (Qfloor_comp _ _ Hdiv).
  pose proof (Qfloor_le x). pose proof (Qlt_floor x) as Hlt.
  rewrite inject_Z_plus in Hlt. change (inject_Z 1) with 1%Q in Hlt.
  split; lra.
Qed.

(* Of a negative number it is the negated fractional part of its absolute
   value: the sign of the dividend is kept. *)
Lemma wgsl_rem_one_negative (x : Q) : (x < 0)%Q -> (-1 < wgsl_rem exact x 1.0 <= 0)%Q.
Proof.
  intros Hx. rewrite wgsl_rem_exact. unfold Qtrunc.
  assert (Hdiv : (x / 1.0 == x)%Q) by field.
  assert (Hneg : Qle_bool 0 (x / 1.0) = false).
  { destruct (Qle_bool 0 (x / 1.0)) eqn:E; [|reflexivity].
    apply Qle_bool_iff in E. lra. }
  rewrite Hneg, (Qceiling_comp _ _ Hdiv).
  pose proof (Qle_ceiling x). pose proof (Qceiling_lt x) as Hlt.
  replace (Qceiling x - 1) with (Qceiling x + -1) in Hlt by lia.
  rewrite inject_Z_plus in Hlt. change (inject_Z (-1)) with (-1)%Q in Hlt.
  split; lra.
Qed.

Lemma wgsl_rem_one_shift (x : Q) :
  (0 <= x)%Q -> (wgsl_rem exact (x + 1) 1.0 == wgsl_rem exact x 1.0)%Q.
Proof.
  intros Hx. rewrite !wgsl_rem_exact. unfold Qtrunc.
  assert (Hdiv : (x / 1.0 == x)%Q) by field.
  assert (Hdiv1 : ((x + 1) / 1.0 == x + 1)%Q) by field.
  assert (Hpos : Qle_bool 0 (x / 1.0) = true) by (apply Qle_bool_iff; lra).
  assert (Hpos1 : Qle_bool 0 ((x + 1) / 1.0) = true) by (apply Qle_bool_iff; lra).
  rewrite Hpos, Hpos1, (Qfloor_comp _ _ Hdiv), (Qfloor_comp _ _ Hdiv1).
  pose proof (Qfloor_le x). pose proof (Qlt_floor x) as Hlt.
  rewrite inject_Z_plus in Hlt. change (inject_Z 1) with 1%Q in Hlt.
  rewrite (Qfloor_unique (x + 1) (Qfloor x + 1)).
  - rewrite inject_Z_plus. change (inject_Z 1) with 1%Q. ring.
  - rewrite inject_Z_plus. change (inject_Z 1) with 1%Q. lra.
  - rewrite !inject_Z_plus. change (inject_Z 1) with 1%Q. lra.
Qed.

Lemma wgsl_rem_one_comp (x y : Q) :
  (x == y)%Q -> (wgsl_rem exact x 1.0 == wgsl_rem exact y 1.0)%Q.
Proof.
  intros Hxy. rewrite !wgsl_rem_exact. unfold Qtrunc.
  assert (Hdiv : (x / 1.0 == y / 1.0)%Q) by (rewrite Hxy; reflexivity).
  rewrite (Qleb_comp _ _ (Qeq_refl 0) _ _ Hdiv).
  destruct (Qle_bool 0 (y / 1.0)).
  - rewrite (Qfloor_comp _ _ Hdiv), Hxy. reflexivity.
  - rewrite (Qceiling_comp _ _ Hdiv), Hxy. reflexivity.
Qed.

Lemma fade_fold_comp (f g : Q) :
  (f == g)%Q ->
  ((if wgsl_lt f 0.5 then f * 2.0 else (1.0 - f) * 2.0) ==
   (if wgsl_lt g 0.5 then g * 2.0 else (1.0 - g) * 2.0))%Q.
Proof.
  intros Hfg. unfold wgsl_lt. rewrite (Qleb_comp _ _ (Qeq_refl 0.5) _ _ Hfg).
  destruct (Qle_bool 0.5 g); simpl; rewrite Hfg; reflexivity.
Qed.

(** X1: in exact arithmetic ([exact] for the rounding of the shader), the
    fade the vertex stage computes lies in [0, 1] whenever
    scalarOffset + time * scalar / 10 is not negative; in general it lies in
    (-2, 1], the negative values arising only from a negative argument, whose
    remainder keeps its sign. *)
Theorem fade_of_range (time : Q) (u : Uniforms) :
  ((0 <= scalarOffset u + time * scalar u / 10.0 -> 0 <= fade_of exact time u <= 1) /\
   -2 < fade_of exact time u <= 1)%Q.
Proof.
  rewrite fade_of_exact. cbv zeta.
  set (x := (scalarOffset u + time * scalar u / 10.0)%Q).
  destruct (Qlt_le_dec x 0) as [Hneg|Hpos].
  - pose proof (wgsl_rem_one_negative x Hneg) as Hr.
    split; [intros; lra|].
    destruct (wgsl_lt (wgsl_rem exact x 1.0) 0.5) eqn:E.
    + lra.
    + assert (Hlt : (wgsl_rem exact x 1.0 < 0.5)%Q) by lra.
      apply wgsl_lt_spec in Hlt. congruence.
  - pose proof (wgsl_rem_one_range x Hpos) as Hr.
    assert (Hin : (0 <= (if wgsl_lt (wgsl_rem exact x 1.0) 0.5
                         then wgsl_rem exact x 1.0 * 2.0
                         else (1.0 - wgsl_rem exact x 1.0) * 2.0) <= 1)%Q).
    { destruct (wgsl_lt (wgsl_rem exact x 1.0) 0.5) eqn:E.
      - apply wgsl_lt_spec in E. lra.
      - assert (Hge : ~ (wgsl_rem exact x 1.0 < 0.5)%Q).
        { intros Hlt. apply wgsl_lt_spec in Hlt. congruence. }
        lra. }
    split; [intros _; exact Hin | lra].
Qed.

Lemma fade_of_range_witness :
  let u := {| scale := 0.3; offsetX := 0; offsetY := 0; scalar := 1.5; scalarOffset := 7.25 |}%Q in
  (0 <= scalarOffset u + 12.5 * scalar u / 10.0)%Q /\
  (0 <= fade_of exact 12.5 u <= 1)%Q.
Proof.
  intros u.
  assert (Hpos : (0 <= scalarOffset u + 12.5 * scalar u / 10.0)%Q)
    by (vm_compute; discriminate).
  split; [exact Hpos|].
  exact (proj1 (fade_of_range 12.5%Q u) Hpos).
Defined.

(** X2: in exact arithmetic only ([exact] for the rounding of the shader:
    what the f32 operations of the shader lose is not modelled here, and
    with it the fade need not repeat exactly), the fade of an instance is
    periodic in time with period 10 / scalar seconds, as long as the
    argument of the remainder is not negative.  For the scalars the table
    holds, which lie in [0.5, 2] with both ends reached, that period is at
    least 5 and at most 20 seconds. *)
Theorem fade_of_period (time : Q) (u : Uniforms) :
  (0 < scalar u)%Q ->
  (0 <= scalarOffset u + time * scalar u / 10.0)%Q ->
  (fade_of exact (time + 10 / scalar u) u == fade_of exact time u)%Q /\
  ((0.5 <= scalar u <= 2.0)%Q -> (5 <= 10 / scalar u <= 20)%Q).
Proof.
  intros Hs Hx. split.
  - rewrite !fade_of_exact. cbv zeta. apply fade_fold_comp.
    rewrite <- (wgsl_rem_one_shift _ Hx).
    apply wgsl_rem_one_comp. field. lra.
  - intros [Hlo Hhi]. split.
    + apply Qle_shift_div_l; lra.
    + apply Qle_shift_div_r; lra.
Qed.

Lemma fade_of_period_witness :
  let u := {| scale := 0.3; offsetX := 0; offsetY := 0; scalar := 2; scalarOffset := 7.25 |}%Q in
  (0 < scalar u)%Q /\
  (0 <= scalarOffset u + 3 * scalar u / 10.0)%Q /\
  (fade_of exact (3 + 10 / scalar u) u == fade_of exact 3 u)%Q /\
  (10 / scalar u == 5)%Q.
Proof.
  intros u.
  assert (Hs : (0 < scalar u)%Q) by reflexivity.
  assert (Hx : (0 <= scalarOffset u + 3 * scalar u / 10.0)%Q)
    by (vm_compute; discriminate).
  split; [exact Hs|]. split; [exact Hx|].
  split; [exact (proj1 (fade_of_period 3%Q u Hs Hx)) | reflexivity].
Defined.

(** *** In f32 arithmetic *)

Lemma binary32_rounds_within_f32 : rounds_within_f32 binary32.
Proof.
  intros lo hi x Hlo Hhi [H1 H2]. unfold is_f32 in Hlo, Hhi. split.
  - apply Qle_trans with (binary32 lo).
    + rewrite Hlo. apply Qle_refl.
    + apply binary32_mono. exact H1.
  - apply Qle_trans with (binary32 hi).
    + apply binary32_mono. exact H2.
    + rewrite Hhi. apply Qle_refl.
Qed.

Ltac is_f32_constant := unfold is_f32; vm_compute; reflexivity.

Section ClipVolume.
Variable rnd : Q -> Q.
Hypothesis rnd_f32 : rounds_within_f32 rnd.
Variables cos sin : Q -> Q.
Hypothesis cos_bounded : forall a, (- (9 # 8) <= cos a <= 9 # 8)%Q.
Hypothesis sin_bounded : forall a, (- (9 # 8) <= sin a <= 9 # 8)%Q.

Lemma scaled_small (p k : Q) :
  (- (13421773 # 134217728) <= p <= 13421773 # 134217728)%Q ->
  (0 <= k <= 13421773 # 33554432)%Q ->
  (- (21 # 512) <= rnd (p * k) <= 21 # 512)%Q.
Proof.
  intros Hp Hk. apply rnd_f32; [is_f32_constant | is_f32_constant |].
  assert (H1 : (p * k <= (13421773 # 134217728) * (13421773 # 33554432))%Q) by nra.
  assert (H2 : (- ((13421773 # 134217728) * (13421773 # 33554432)) <= p * k)%Q) by nra.
  assert (H3 : ((13421773 # 134217728) * (13421773 # 33554432) <= 21 # 512)%Q)
    by (vm_compute; discriminate).
  lra.
Qed.

Lemma turned_small (a c : Q) :
  (- (21 # 512) <= a <= 21 # 512)%Q -> (- (9 # 8) <= c <= 9 # 8)%Q ->
  (- (3 # 64) <= rnd (a * c) <= 3 # 64)%Q.
Proof.
  intros Ha Hc. apply rnd_f32; [is_f32_constant | is_f32_constant |].
  assert (H1 : (a * c <= (21 # 512) * (9 # 8))%Q) by nra.
  assert (H2 : (- ((21 # 512) * (9 # 8)) <= a * c)%Q) by nra.
  lra.
Qed.

(* A scale of at most fround(0.4) and a template vertex within fround(0.1)
   of the origin keep every rotated vertex within 3/32 of its instance
   offset, and offsets within fround(0.9) of the origin then keep it
   inside the clip volume, however each operation is rounded. *)
Lemma vert_main_inside (time : Q) (u : Uniforms) (position color : vec4 Q) :
  (0 <= scale u <= 13421773 # 33554432)%Q ->
  (- (7549747 # 8388608) <= offsetX u <= 7549747 # 8388608)%Q ->
  (- (7549747 # 8388608) <= offsetY u <= 7549747 # 8388608)%Q ->
  (- (13421773 # 134217728) <= vec_x position <= 13421773 # 134217728)%Q ->
  (- (13421773 # 134217728) <= vec_y position <= 13421773 # 134217728)%Q ->
  let out := vert_main rnd cos sin time u position color in
  (- (255 # 256) <= vec_x (Position out) <= 255 # 256)%Q /\
  (- (255 # 256) <= vec_y (Position out) <= 255 # 256)%Q /\
  (vec_z (Position out) == 0)%Q /\ (vec_w (Position out) == 1)%Q.
Proof.
  intros Hs Hx Hy Hpx Hpy out. unfold out, vert_main.
  cbn [Position vec_x vec_y vec_z vec_w].
  set (angle := rnd (rnd (rnd 3.1415926 * 2.0) * fade_of rnd time u)).
  pose proof (scaled_small _ _ Hpx Hs) as Hxpos.
  pose proof (scaled_small _ _ Hpy Hs) as Hypos.
  pose proof (turned_small _ _ Hxpos (cos_bounded angle)) as Hxc.
  pose proof (turned_small _ _ Hxpos (sin_bounded angle)) as Hxs.
  pose proof (turned_small _ _ Hypos (cos_bounded angle)) as Hyc.
  pose proof (turned_small _ _ Hypos (sin_bounded angle)) as Hys.
  set (xc := rnd (rnd (vec_x position * scale u) * cos angle)) in *.
  set (xs := rnd (rnd (vec_x position * scale u) * sin angle)) in *.
  set (yc := rnd (rnd (vec_y position * scale u) * cos angle)) in *.
  set (ys := rnd (rnd (vec_y position * scale u) * sin angle)) in *.
  assert (Hxrot : (- (3 # 32) <= rnd (xc - ys) <= 3 # 32)%Q)
    by (apply rnd_f32; [is_f32_constant | is_f32_constant | lra]).
  assert (Hyrot : (- (3 # 32) <= rnd (xs + yc) <= 3 # 32)%Q)
    by (apply rnd_f32; [is_f32_constant | is_f32_constant | lra]).
  split; [apply rnd_f32; [is_f32_constant | is_f32_constant | lra]|].
  split; [apply rnd_f32; [is_f32_constant | is_f32_constant | lra]|].
  split; reflexivity.
Qed.

End ClipVolume.

(* What the shader reads from a buffer the host filled: the f32 values the
   elements of the Float32Array hold. *)
Lemma element_at_map {A B} (f : A -> B) (a : list A) (byteOffset : Z) :
  element_at (map f a) byteOffset = option_map f (element_at a byteOffset).
Proof.
  unfold element_at.
  destruct ((0 <=? byteOffset) && (byteOffset mod BYTES_PER_ELEMENT =? 0)).
  - apply (list_lookup_fmap f a).
  - reflexivity.
Qed.

(* The vertex buffer as [init] fills it: positions within fround(0.1) of
   the origin, colours made of 0 and 1. *)
Lemma vertex_fetch_template :
  exists buffer : list double,
    mapped_vertexBuffer = Return buffer /\
    forall v, (v < 3)%nat ->
      exists position color : vec4 Q,
        vertex_fetch (map dval buffer) 0 v = Some position /\
        vertex_fetch (map dval buffer) 1 v = Some color /\
        (- (13421773 # 134217728) <= vec_x position <= 13421773 # 134217728)%Q /\
        (- (13421773 # 134217728) <= vec_y position <= 13421773 # 134217728)%Q /\
        (0 <= vec_x color <= 1)%Q /\ (0 <= vec_y color <= 1)%Q /\
        (0 <= vec_z color <= 1)%Q /\ (vec_w color == 1)%Q.
Proof.
  eexists. split; [vm_compute; reflexivity|].
  intros v Hv. destruct v as [|[|[|v]]]; try lia;
    eexists _, _; (split; [vm_compute; reflexivity|]);
    (split; [vm_compute; reflexivity|]);
    cbn [vec_x vec_y vec_z vec_w];
    repeat split; solve [vm_compute; discriminate | vm_compute; reflexivity].
Qed.

(* The struct Uniforms the shader reads at instance i of a table that
   [configure] built, in binary64 arithmetic with binary32 stores. *)
Lemma uniforms_at_table (random : nat -> double) (ub : BufferId) (q : Q) (n : nat)
    (rt : Runtime double) :
  (forall k, 0 <= dval (random k) < 1)%Q ->
  (q == inject_Z (Z.of_nat n))%Q -> Z.of_nat n <= 2 ^ 32 - 1 ->
  allocatable rt (Z.of_nat n * alignedUniformBytes) = true ->
  exists data groups rt',
    build_instances random ub (JFinite q) rt = (Return (data, groups), rt') /\
    forall i, (i < n)%nat ->
      exists u, uniforms_at (map dval data) i = Some u /\
        (0.2 <= scale u <= 13421773 # 33554432)%Q /\
        (- (7549747 # 8388608) <= offsetX u <= 7549747 # 8388608)%Q /\
        (- (7549747 # 8388608) <= offsetY u <= 7549747 # 8388608)%Q /\
        (0.5 <= scalar u <= 2.0)%Q /\ (0.0 <= scalarOffset u <= 10.0)%Q.
Proof.
  intros Hr Hq Hn Halloc.
  destruct (build_instances_spec random ub q n rt Hq Hn Halloc)
    as (data & rt' & Hrun & _ & _ & _ & _ & _ & Hfields & _).
  eexists data, _, rt'. split; [exact Hrun|].
  intros i Hi.
  pose proof (Hfields i 0%nat Hi ltac:(lia)) as F0.
  pose proof (Hfields i 1%nat Hi ltac:(lia)) as F1.
  pose proof (Hfields i 2%nat Hi ltac:(lia)) as F2.
  pose proof (Hfields i 3%nat Hi ltac:(lia)) as F3.
  pose proof (Hfields i 4%nat Hi ltac:(lia)) as F4.
  change (Z.of_nat 0) with 0 in F0. change (Z.of_nat 1) with 1 in F1.
  change (Z.of_nat 2) with 2 in F2. change (Z.of_nat 3) with 3 in F3.
  change (Z.of_nat 4) with 4 in F4.
  eexists. split.
  - unfold uniforms_at. rewrite !element_at_map.
    change 0 with (4 * 0) at 1. change 4 with (4 * 1) at 2.
    change 8 with (4 * 2). change 12 with (4 * 3). change 16 with (4 * 4).
    rewrite !element_at_slot by lia.
    rewrite F0, F1, F2, F3, F4. reflexivity.
  - cbn [scale offsetX offsetY scalar scalarOffset].
    pose proof (stored_fields_ranges _ (Hr (0 + 5 * i + randoms rt)%nat)) as (H0 & _).
    pose proof (stored_fields_ranges _ (Hr (1 + 5 * i + randoms rt)%nat)) as (_ & H1 & _).
    pose proof (stored_fields_ranges _ (Hr (2 + 5 * i + randoms rt)%nat)) as (_ & _ & H2 & _).
    pose proof (stored_fields_ranges _ (Hr (3 + 5 * i + randoms rt)%nat)) as (_ & _ & _ & H3 & _).
    pose proof (stored_fields_ranges _ (Hr (4 + 5 * i + randoms rt)%nat)) as (_ & _ & _ & _ & H4).
    repeat split; lra.
Qed.



(** ** Which counts [configure] accepts *)

Lemma new_Array_outcome {A} (x : jsnumber) :
  @new_Array A x = Throw RangeError \/ exists l, @new_Array A x = Return l.
Proof.
  destruct x as [q| |b]; simpl; auto.
  destruct (Qis_integer q && (0 <=? Qfloor q) && (Qfloor q <=? 2 ^ 32 - 1)); eauto.
Qed.

Lemma createBuffer_cases {num : Type} `{Number num} (x : jsnumber) (rt : Runtime num) :
  createBuffer x rt = (Throw TypeError, rt) \/
  exists sz,
    createBuffer x rt =
    (Return (length (buffers rt)),
     {| buffers := buffers rt ++ [sz]; queue := queue rt; randoms := randoms rt;
        heapLimit := heapLimit rt |}).
Proof.
  unfold createBuffer, bind, lift.
  destruct x as [q| |b]; simpl; auto.
  destruct ((Qtrunc q <? 0) || (2 ^ 53 - 1 <? Qtrunc q)); eauto.
Qed.

(* A count that is not an array length. *)
Lemma configure_throws {num : Type} `{Number num}
    (random : nat -> num) (s : Settings) (rt : Runtime num) :
  new_Array (A:=BindGroup) (numTriangles s) = Throw RangeError ->
  configure random s rt = (Throw TypeError, rt) \/
  exists sz, configure random s rt =
    (Throw RangeError,
     {| buffers := buffers rt ++ [sz]; queue := queue rt; randoms := randoms rt;
        heapLimit := heapLimit rt |}).
Proof.
  intros Hthrow.
  unfold configure. cbv beta delta [bind lift build_instances] zeta.
  match goal with
  | |- context [createBuffer ?x rt] =>
      destruct (createBuffer_cases x rt) as [Hc | [sz Hc]]; rewrite Hc
  end; [left; reflexivity|].
  right. exists sz. cbv beta iota.
  match goal with
  | |- context [new_Float32Array ?a ?x] =>
      destruct (new_Float32Array_outcome (num:=num) a x) as [Hf | [arr Hf]]; rewrite Hf
  end; [reflexivity|].
  cbv beta iota. rewrite Hthrow. reflexivity.
Qed.

(* A count that is an array length, of a table the host cannot allocate. *)
Lemma configure_cannot_allocate {num : Type} `{Number num}
    (random : nat -> num) (s : Settings) (q : Q) (n : nat) (rt : Runtime num) :
  numTriangles s = JFinite q ->
  (q == inject_Z (Z.of_nat n))%Q -> Z.of_nat n <= 2 ^ 32 - 1 ->
  allocatable rt (Z.of_nat n * alignedUniformBytes) = false ->
  configure random s rt =
    (Throw RangeError,
     {| buffers := buffers rt ++ [Z.of_nat n * alignedUniformBytes + BYTES_PER_ELEMENT];
        queue := queue rt; randoms := randoms rt; heapLimit := heapLimit rt |}).
Proof.
  intros Hs Hq Hn Halloc.
  assert (Hcreate :
    createBuffer (jaddZ (jmulZ (JFinite q) alignedUniformBytes) BYTES_PER_ELEMENT) rt =
    (Return (length (buffers rt)),
     {| buffers := buffers rt ++ [Z.of_nat n * alignedUniformBytes + BYTES_PER_ELEMENT];
        queue := queue rt; randoms := randoms rt; heapLimit := heapLimit rt |})).
  { apply createBuffer_inject.
    - apply buffer_size_inject; assumption.
    - rewrite alignedUniformBytes_eq, BYTES_PER_ELEMENT_eq.
      assert ((2 ^ 32 - 1) * 256 + 4 <= 2 ^ 53 - 1) by (vm_compute; discriminate).
      lia. }
  unfold configure, bind at 1. rewrite Hs, Hcreate.
  unfold bind at 1. unfold build_instances, bind at 1, lift at 1. simpl jmulZ.
  rewrite (new_Float32Array_inject _ _ _ (table_length_inject q n Hq Hn))
    by (rewrite alignedUniformFloats_eq; lia).
  replace (alignedUniformFloats * Z.of_nat n * BYTES_PER_ELEMENT)
    with (Z.of_nat n * alignedUniformBytes)
    by (rewrite alignedUniformFloats_eq, alignedUniformBytes_eq, BYTES_PER_ELEMENT_eq; lia).
  change (allocatable _ (Z.of_nat n * alignedUniformBytes))
    with (allocatable rt (Z.of_nat n * alignedUniformBytes)).
  rewrite Halloc. reflexivity.
Qed.

(* [configure] returns for a count that is an array length of a table the
   host can allocate, and throws in one of two ways for any other. *)
Lemma configure_outcome {num : Type} `{Number num}
    (random : nat -> num) (s : Settings) (rt : Runtime num) :
  ((exists q n, numTriangles s = JFinite q /\ (q == inject_Z (Z.of_nat n))%Q /\
                Z.of_nat n <= 2 ^ 32 - 1 /\
                allocatable rt (Z.of_nat n * alignedUniformBytes) = true) /\
   exists c rt', configure random s rt = (Return c, rt')) \/
  (~ (exists q n, numTriangles s = JFinite q /\ (q == inject_Z (Z.of_nat n))%Q /\
                  Z.of_nat n <= 2 ^ 32 - 1 /\
                  allocatable rt (Z.of_nat n * alignedUniformBytes) = true) /\
   (configure random s rt = (Throw TypeError, rt) \/
    exists sz, configure random s rt =
      (Throw RangeError,
       {| buffers := buffers rt ++ [sz]; queue := queue rt;
          randoms := randoms rt; heapLimit := heapLimit rt |}))).
Proof.
  assert (Hreturns : forall o rt',
            configure random s rt = (o, rt') -> (forall c, o <> Return c) ->
            ~ (exists q n, numTriangles s = JFinite q /\
                 (q == inject_Z (Z.of_nat n))%Q /\ Z.of_nat n <= 2 ^ 32 - 1 /\
                 allocatable rt (Z.of_nat n * alignedUniformBytes) = true)).
  { intros o rt' Hrun Hno (q & n & Hs & Hq & Hn & Ha).
    destruct (configure_spec random s q n rt Hs Hq Hn Ha) as (data & ts & Hrun' & _).
    rewrite Hrun in Hrun'. injection Hrun' as Ho _. exact (Hno _ Ho). }
  destruct (new_Array_outcome (A:=BindGroup) (numTriangles s)) as [Hthrow | [l Hl]].
  - right. pose proof (configure_throws random s rt Hthrow) as Hcases.
    split; [|exact Hcases].
    destruct Hcases as [Hc | [sz Hc]]; apply (Hreturns _ _ Hc); discriminate.
  - destruct (new_Array_returns _ _ Hl) as (q & Hx & Hq & Hle & _).
    destruct (allocatable rt (Z.of_nat (length l) * alignedUniformBytes)) eqn:Ha.
    + left. split; [eauto 6|].
      destruct (configure_spec random s q (length l) rt Hx Hq Hle Ha)
        as (data & ts & Hrun & _).
      eauto.
    + right.
      pose proof (configure_cannot_allocate random s q (length l) rt Hx Hq Hle Ha) as Hc.
      split; [apply (Hreturns _ _ Hc); discriminate|].
      right. eexists. exact Hc.
Qed.


(* Three rejected counts: -3 stops at createBuffer, 0.5 at new Array, and
   2^32 - 1 at the allocation of a table of nearly 2^40 bytes. *)
Example rejected_counts :
  configure always_half
    {| numTriangles := JFinite (-3); renderBundles := false; dynamicOffsets := false |}
    device_start = (Throw TypeError, device_start) /\
  configure always_half
    {| numTriangles := JFinite 0.5; renderBundles := false; dynamicOffsets := false |}
    device_start =
    (Throw RangeError, {| buffers := [96; 132]; queue := []; randoms := 0;
                           heapLimit := 2 ^ 31 |}) /\
  configure always_half
    {| numTriangles := JFinite 4294967295; renderBundles := false;
       dynamicOffsets := false |}
    device_start =
    (Throw RangeError, {| buffers := [96; 1099511627524]; queue := []; randoms := 0;
                           heapLimit := 2 ^ 31 |}).
Proof. repeat split; vm_compute; reflexivity. Qed.

(** ** How many transfers the upload issues *)

Section UploadCount.
Context {num : Type} `{Number num}.
Variable maxLen : Z.
Variable ub : BufferId.
Variable data : list num.
Hypothesis maxLen_pos : 0 < maxLen.

Lemma upload_loop_count (fuel : nat) :
  forall (offset : Z) (rt : Runtime num),
    0 <= offset ->
    Z.of_nat (length data) - offset <= Z.of_nat fuel ->
    exists ts,
      upload_loop fuel maxLen ub data offset rt =
        (Return tt, pushed rt (map (transfer_op ub data) ts)) /\
      (Z.of_nat (length data) <= offset -> ts = []) /\
      (offset < Z.of_nat (length data) ->
         (Z.of_nat (length ts) - 1) * maxLen < Z.of_nat (length data) - offset
           <= Z.of_nat (length ts) * maxLen) /\
      (forall i t, ts !! i = Some t -> (Datatypes.S i < length ts)%nat ->
                   size t = maxLen * 4) /\
      (forall t, last ts = Some t ->
         size t =
         (Z.of_nat (length data) - offset - (Z.of_nat (length ts) - 1) * maxLen) * 4).
Proof.
  induction fuel as [|fuel IH]; intros offset rt Hoff Hfuel.
  - exists []. simpl. destruct (Z.ltb_spec offset (Z.of_nat (length data))); [lia|].
    rewrite pushed_nil. repeat split; try reflexivity; try lia; intros; discriminate.
  - simpl. destruct (Z.ltb_spec offset (Z.of_nat (length data))) as [Hlt|Hge].
    + set (t := {| dst_offset := offset * 4; src_offset := offset * 4;
                   size := Z.min (Z.of_nat (length data) - offset) maxLen * 4 |}).
      destruct (IH (offset + maxLen) (pushed rt [transfer_op ub data t]))
        as (ts & Hrun & Hnil & Hcount & Hfull & Hlast); try lia.
      exists (t :: ts). split; [|split; [|split; [|split]]].
      * change (upload_loop fuel maxLen ub data (offset + maxLen)
                  (pushed rt [transfer_op ub data t]) =
                (Return tt, pushed rt (map (transfer_op ub data) (t :: ts)))).
        rewrite Hrun, pushed_pushed. reflexivity.
      * lia.
      * intros _. cbn [length].
        destruct (Z.lt_ge_cases (offset + maxLen) (Z.of_nat (length data))) as [Hmore|Hdone].
        -- specialize (Hcount Hmore). lia.
        -- rewrite (Hnil Hdone). simpl. lia.
      * intros i u Hi Hnext. destruct i as [|i]; simpl in Hi.
        -- injection Hi as <-. cbn [length] in Hnext.
           destruct ts as [|u' ts']; [simpl in Hnext; lia|].
           destruct (Z.lt_ge_cases (offset + maxLen) (Z.of_nat (length data))) as [Hmore|Hdone].
           ++ simpl. lia.
           ++ specialize (Hnil Hdone). discriminate.
        -- apply (Hfull i u Hi). cbn [length] in Hnext. lia.
      * intros u Hu. destruct ts as [|u' ts'].
        -- simpl in Hu. injection Hu as <-. simpl.
           destruct (Z.lt_ge_cases (offset + maxLen) (Z.of_nat (length data))) as [Hmore|Hdone].
           ++ specialize (Hcount Hmore). simpl in Hcount. lia.
           ++ lia.
        -- assert (Hlast' : last (u' :: ts') = Some u) by exact Hu.
           rewrite (Hlast u Hlast'). cbn [length]. lia.
    + exists []. cbn [map]. rewrite pushed_nil.
      repeat split; try reflexivity; try lia; intros; discriminate.
Qed.

End UploadCount.

(** X5: the upload loop issues the least number k of writeBuffer calls with
    k * 14 MiB >= the bytes of the table; every call but the last moves
    exactly 14 MiB and the last one moves what is left. *)
Theorem upload_issues_least_number_of_transfers {num : Type} `{Number num}
    (ub : BufferId) (data : list num) (rt : Runtime num) :
  exists ts,
    upload maxMappingLength ub data rt =
      (Return tt, pushed rt (map (transfer_op ub data) ts)) /\
    (length data = 0%nat -> ts = []) /\
    (length data <> 0%nat ->
       (Z.of_nat (length ts) - 1) * (14 * 1024 * 1024) < byteLength data
         <= Z.of_nat (length ts) * (14 * 1024 * 1024)) /\
    (forall i t, ts !! i = Some t -> (Datatypes.S i < length ts)%nat ->
                 size t = 14 * 1024 * 1024) /\
    (forall t, last ts = Some t ->
       size t = byteLength data - (Z.of_nat (length ts) - 1) * (14 * 1024 * 1024)).
Proof.
  destruct (upload_loop_count maxMappingLength ub data ltac:(reflexivity)
              (length data) 0 rt ltac:(lia) ltac:(lia))
    as (ts & Hrun & Hnil & Hcount & Hfull & Hlast).
  rewrite maxMappingLength_eq in *.
  exists ts. split; [exact Hrun|].
  unfold byteLength. rewrite BYTES_PER_ELEMENT_eq.
  split; [intros Hz; apply Hnil; lia|].
  split; [intros Hnz; specialize (Hcount ltac:(lia)); lia|].
  split.
  - intros i t Hi Hnext. rewrite (Hfull i t Hi Hnext). reflexivity.
  - intros t Ht. rewrite (Hlast t Ht). lia.
Qed.


(** ** The ranges the bind groups cover *)

(** X6: in the closure [configure] returns, every static bind group i covers
    bytes [i*256, i*256 + 24) of the uniform buffer: the start is a multiple
    of 256, the range lies inside slot i and inside the buffer, it is at
    least as long as the minBindingSize of its layout, the ranges of two
    instances never overlap, and the dynamic group with offset i*256 covers
    the same in-bounds range.  The time group covers the last 4 bytes of the
    buffer, after every instance range.  The range of the dynamic group
    without an offset, [0, 24), lies inside the buffer exactly when there is
    at least one triangle. *)
Theorem bind_ranges_inside_the_buffer {num : Type} `{Number num}
    (random : nat -> num) (s : Settings) (rt rt' : Runtime num) (c : Closure num) :
  configure random s rt = (Return c, rt') ->
  exists bufferSize,
    buffers rt' !! uniformBuffer c = Some bufferSize /\
    (forall i g, bindGroups c !! i = Some (Some g) ->
       let r := bound_range g [] in
       range_buffer r = uniformBuffer c /\
       range_offset r mod 256 = 0 /\
       Z.of_nat i * alignedUniformBytes <= range_offset r /\
       range_offset r + range_size r <= (Z.of_nat i + 1) * alignedUniformBytes /\
       range_offset r + range_size r <= bufferSize /\
       minBindingSize (bg_layout g) <= range_size r /\
       bound_range (dynamicBindGroup c) [Z.of_nat i * alignedUniformBytes] = r) /\
    (forall i j gi gj, (i < j)%nat ->
       bindGroups c !! i = Some (Some gi) -> bindGroups c !! j = Some (Some gj) ->
       range_offset (bound_range gi []) + range_size (bound_range gi [])
         <= range_offset (bound_range gj [])) /\
    (let r := bound_range (timeBindGroup c) [] in
     range_buffer r = uniformBuffer c /\
     range_offset r = Z.of_nat (triangles c) * alignedUniformBytes /\
     range_offset r + range_size r = bufferSize /\
     minBindingSize (bg_layout (timeBindGroup c)) <= range_size r) /\
    (range_offset (bound_range (dynamicBindGroup c) [0])
       + range_size (bound_range (dynamicBindGroup c) [0]) <= bufferSize
     <-> triangles c <> 0%nat).
Proof.
  intros Hrun.
  destruct (configure_inv random s rt rt' c Hrun)
    as (q & n & data & ts & _ & _ & _ & -> & -> & _).
  exists (Z.of_nat n * alignedUniformBytes + BYTES_PER_ELEMENT).
  cbn [closure_for uniformBuffer bindGroups dynamicBindGroup timeBindGroup triangles buffers].
  assert (Hgroup : forall i g,
            map (fun i => Some (static_group (length (buffers rt)) i)) (seq 0 n) !! i
              = Some (Some g) ->
            (i < n)%nat /\ g = static_group (length (buffers rt)) i).
  { intros i g Hg. rewrite list_lookup_fmap in Hg.
    destruct (seq 0 n !! i) as [k|] eqn:Hk; [|discriminate].
    apply lookup_seq in Hk. destruct Hk as [-> Hi]. simpl in Hg.
    injection Hg as <-. split; [exact Hi | reflexivity]. }
  split; [|split; [|split; [|split]]].
  - rewrite lookup_app_r by lia. rewrite Nat.sub_diag. reflexivity.
  - intros i g Hg. destruct (Hgroup i g Hg) as [Hi ->].
    rewrite bound_range_dynamic, bound_range_static.
    cbn [range_buffer range_offset range_size static_group bg_layout minBindingSize].
    rewrite alignedUniformBytes_eq, BYTES_PER_ELEMENT_eq.
    repeat split; try lia.
    rewrite Z.mod_mul by lia. reflexivity.
  - intros i j gi gj Hij Hgi Hgj.
    destruct (Hgroup i gi Hgi) as [Hi ->]. destruct (Hgroup j gj Hgj) as [Hj ->].
    rewrite !bound_range_static. cbn [range_offset range_size].
    rewrite alignedUniformBytes_eq. lia.
  - unfold bound_range.
    cbn [range_buffer range_offset range_size bg_buffer bg_offset bg_size bg_layout
         hasDynamicOffset minBindingSize].
    rewrite ?alignedUniformBytes_eq, ?BYTES_PER_ELEMENT_eq.
    repeat split; try reflexivity; lia.
  - rewrite bound_range_dynamic. cbn [range_offset range_size].
    rewrite alignedUniformBytes_eq, BYTES_PER_ELEMENT_eq. lia.
Qed.

Lemma bind_ranges_inside_the_buffer_witness :
  configure always_half two_triangles device_start =
    (Return (closure_for two_triangles 1%nat 2%nat),
     snd (configure always_half two_triangles device_start)) /\
  exists bufferSize,
    buffers (snd (configure always_half two_triangles device_start)) !! 1%nat
      = Some bufferSize /\
    range_offset (bound_range (timeBindGroup (closure_for (num:=Q) two_triangles 1%nat 2%nat)) [])
      + 4 = bufferSize.
Proof.
  assert (Hrun : configure always_half two_triangles device_start =
                 (Return (closure_for two_triangles 1%nat 2%nat),
                  snd (configure always_half two_triangles device_start)))
    by (vm_compute; reflexivity).
  split; [exact Hrun|].
  destruct (bind_ranges_inside_the_buffer always_half two_triangles _ _ _ Hrun)
    as (bufferSize & Hsize & _ & _ & (_ & _ & Hend & _) & _).
  exists bufferSize. split; [exact Hsize | exact Hend].
Defined.

(* With no triangle the buffer has 4 bytes and the dynamic group still asks
   for 24. *)
Example dynamic_group_of_no_triangles :
  exists c rt',
    configure always_half
      {| numTriangles := JFinite 0; renderBundles := false; dynamicOffsets := true |}
      device_start = (Return c, rt') /\
    buffers rt' !! uniformBuffer c = Some 4 /\
    bound_range (dynamicBindGroup c) [0] =
      {| range_buffer := uniformBuffer c; range_offset := 0; range_size := 24 |} /\
    renderBundle c = [setPipeline dynamicPipeline; setVertexBuffer 0 vertexBuffer;
                      setBindGroup 0 (timeBindGroup c) []].
Proof. eexists _, _. split; [vm_compute; reflexivity|]. repeat split. Qed.

(** ** What [configure] does to the device *)

(** X7: a call of [configure] that returns creates exactly one buffer, with
    an id no earlier buffer has, and leaves every earlier buffer as it was;
    it draws exactly 5 * numTriangles numbers from Math.random; and what it
    adds to the queue are writes to the new buffer only: no submit, and no
    write to the vertex buffer or to the uniform buffer of an earlier
    configuration. *)
Theorem configure_touches_only_its_new_buffer {num : Type} `{Number num}
    (random : nat -> num) (s : Settings) (rt rt' : Runtime num) (c : Closure num) :
  configure random s rt = (Return c, rt') ->
  buffers rt !! uniformBuffer c = None /\
  (exists bufferSize, buffers rt' = buffers rt ++ [bufferSize]) /\
  (forall b, (b < length (buffers rt))%nat -> buffers rt' !! b = buffers rt !! b) /\
  randoms rt' = (5 * triangles c + randoms rt)%nat /\
  exists ops,
    queue rt' = queue rt ++ ops /\
    Forall (fun op => written_buffer op = Some (uniformBuffer c)) ops.
Proof.
  intros Hrun.
  destruct (configure_inv random s rt rt' c Hrun)
    as (q & n & data & ts & _ & _ & _ & -> & -> & _).
  cbn [closure_for uniformBuffer triangles buffers queue randoms].
  split; [apply lookup_ge_None_2; lia|].
  split; [eauto|].
  split; [intros b Hb; apply lookup_app_l; exact Hb|].
  split; [reflexivity|].
  eexists. split; [reflexivity|].
  apply Forall_forall. intros op Hop.
  apply list_elem_of_fmap in Hop. destruct Hop as (t & -> & _). reflexivity.
Qed.

Lemma configure_touches_only_its_new_buffer_witness :
  configure always_half two_triangles device_start =
    (Return (closure_for two_triangles 1%nat 2%nat),
     snd (configure always_half two_triangles device_start)) /\
  randoms (snd (configure always_half two_triangles device_start)) = 10%nat.
Proof.
  assert (Hrun : configure always_half two_triangles device_start =
                 (Return (closure_for two_triangles 1%nat 2%nat),
                  snd (configure always_half two_triangles device_start)))
    by (vm_compute; reflexivity).
  split; [exact Hrun|].
  destruct (configure_touches_only_its_new_buffer always_half two_triangles _ _ _ Hrun)
    as (_ & _ & _ & Hr & _).
  exact Hr.
Defined.


(** ** What the draws see in the uniform buffer *)

Section MemoryFacts.
Context {num : Type} `{Number num}.
Variable enc : num -> list byte.
Hypothesis enc_length : forall x, length (enc x) = 4%nat.

Lemma length_array_bytes (a : list num) :
  length (array_bytes enc a) = (4 * length a)%nat.
Proof.
  unfold array_bytes. induction a as [|x a IH]; [reflexivity|].
  simpl. rewrite length_app, enc_length, IH. lia.
Qed.

Lemma drop_array_bytes (k : nat) :
  forall a, drop (4 * k) (array_bytes enc a) = array_bytes enc (drop k a).
Proof.
  induction k as [|k IH]; intros a; [reflexivity|].
  destruct a as [|x a]; [reflexivity|].
  unfold array_bytes in *. cbn [map concat drop].
  replace (4 * Datatypes.S k)%nat with (length (enc x) + 4 * k)%nat
    by (rewrite enc_length; lia).
  rewrite drop_app_add. apply IH.
Qed.

Lemma take_array_bytes (k : nat) :
  forall a, take (4 * k) (array_bytes enc a) = array_bytes enc (take k a).
Proof.
  induction k as [|k IH]; intros a; [reflexivity|].
  destruct a as [|x a]; [reflexivity|].
  unfold array_bytes in *. cbn [map concat take].
  replace (4 * Datatypes.S k)%nat with (length (enc x) + 4 * k)%nat
    by (rewrite enc_length; lia).
  rewrite take_app_add. f_equal. apply IH.
Qed.

Lemma foldl_write_other (b : BufferId) (ops : list (QueueOp num)) :
  forall contents,
    Forall (fun op => written_buffer op <> Some b) ops ->
    foldl (write_op enc b) contents ops = contents.
Proof.
  induction ops as [|op ops IH]; intros contents Hall; [reflexivity|].
  inversion Hall as [|? ? Hop Hrest]; subst. simpl. rewrite <- (IH contents Hrest) at 2.
  f_equal. destruct op as [b' off data doff sz|p]; [|reflexivity].
  simpl in *. destruct (Nat.eqb_spec b' b) as [->|Hne]; [congruence | reflexivity].
Qed.

Lemma foldl_write_transfers (b : BufferId) (data : list num) (ts : list Transfer) :
  forall contents,
    foldl (write_op enc b) contents (map (transfer_op b data) ts) =
    foldl (apply_transfer (array_bytes enc data)) contents ts.
Proof.
  induction ts as [|[d s z] ts IH]; intros contents; [reflexivity|].
  simpl. rewrite Nat.eqb_refl. apply IH.
Qed.

(* A slot of the table as its six leading elements. *)
Lemma read_slot (data : list num) (tail : list byte) (i : nat)
    (v0 v1 v2 v3 v4 v5 : num) :
  data !! (64 * i)%nat = Some v0 -> data !! (64 * i + 1)%nat = Some v1 ->
  data !! (64 * i + 2)%nat = Some v2 -> data !! (64 * i + 3)%nat = Some v3 ->
  data !! (64 * i + 4)%nat = Some v4 -> data !! (64 * i + 5)%nat = Some v5 ->
  take 24 (drop (256 * i) (array_bytes enc data ++ tail)) =
  array_bytes enc [v0; v1; v2; v3; v4; v5].
Proof.
  intros H0 H1 H2 H3 H4 H5.
  assert (Hlen : (64 * i + 5 < length data)%nat) by (apply lookup_lt_Some in H5; lia).
  rewrite drop_app_le by (rewrite length_array_bytes; lia).
  rewrite take_app_le by (rewrite length_drop, length_array_bytes; lia).
  replace (256 * i)%nat with (4 * (64 * i))%nat by lia.
  rewrite drop_array_bytes. change 24%nat with (4 * 6)%nat. rewrite take_array_bytes.
  f_equal. apply list_eq. intros j.
  destruct (decide (j < 6)%nat) as [Hj|Hj].
  - rewrite lookup_take_lt, lookup_drop by lia.
    destruct j as [|[|[|[|[|[|j]]]]]]; try lia;
      [rewrite Nat.add_0_r; exact H0 | exact H1 | exact H2 | exact H3
      | exact H4 | exact H5].
  - rewrite lookup_take_ge by lia. symmetry. apply lookup_ge_None_2. simpl. lia.
Qed.

End MemoryFacts.

Section UniformMemory.
Context {num : Type} `{Number num}.
Variable enc : num -> list byte.
Hypothesis enc_length : forall x, length (enc x) = 4%nat.
Variable random : nat -> num.

Lemma configure_holds (s : Settings) (rt rt' : Runtime num) (c : Closure num) :
  queue_ok rt ->
  configure random s rt = (Return c, rt') ->
  exists table,
    holds enc (fresh_world s rt' c) table (replicate 4 Byte.x00) /\
    c = closure_for s (length (buffers rt)) (triangles c) /\
    forall i tail, (i < triangles c)%nat ->
      take 24 (drop (256 * i) (table ++ tail)) = array_bytes enc (slot_values random (randoms rt) i).
Proof.
  intros Hqueue Hrun.
  destruct (configure_returns random s rt rt' c Hrun) as (q & n & Hs & Hq & Hn & Ha).
  destruct (configure_spec random s q n rt Hs Hq Hn Ha)
    as (data & ts & Hrun' & Htiles & Hlen & Hfields & Hrest).
  rewrite Hrun in Hrun'. injection Hrun' as -> ->.
  rewrite alignedUniformFloats_eq in Hlen.
  exists (array_bytes enc data).
  assert (Hbytes : length (array_bytes enc data) = (256 * n)%nat)
    by (rewrite length_array_bytes by exact enc_length; lia).
  split; [|split].
  - unfold holds. cbn [fresh_world current_doDraw runtime closure_for triangles
                       uniformBuffer timeOffset buffers].
    split; [apply closure_for_ok|].
    split; [rewrite lookup_app_r by lia; rewrite Nat.sub_diag; reflexivity|].
    split; [reflexivity|].
    split; [|split; [exact Hbytes | apply length_replicate]].
    unfold buffer_contents. cbn [buffers queue].
    rewrite lookup_app_r by lia. rewrite Nat.sub_diag. cbn [lookup list_lookup].
    rewrite foldl_app, (foldl_write_other enc (length (buffers rt)) (queue rt)),
      foldl_write_transfers.
    + rewrite (tiles_apply _ _ _ _ _ _ Htiles); try lia.
      * rewrite Z.sub_0_r. unfold byteLength. rewrite BYTES_PER_ELEMENT_eq.
        replace (Z.to_nat (4 * Z.of_nat (length data))) with (length (array_bytes enc data))
          by (rewrite Hbytes; lia).
        change (Z.to_nat 0) with 0%nat. rewrite take_0, !drop_0, firstn_all.
        cbn [app]. f_equal. rewrite drop_replicate. f_equal.
        rewrite Hbytes, alignedUniformBytes_eq, ?BYTES_PER_ELEMENT_eq. lia.
      * unfold byteLength. rewrite BYTES_PER_ELEMENT_eq, Hbytes. lia.
      * unfold byteLength.
        rewrite length_replicate, alignedUniformBytes_eq, BYTES_PER_ELEMENT_eq. lia.
    + eapply Forall_impl; [exact Hqueue|].
      intros op Hop Heq. simpl in Hop. rewrite Heq in Hop. lia.
  - reflexivity.
  - intros i tail Hi. cbn [closure_for triangles] in Hi.
    assert (Hslot : forall k, slot_index i (Z.of_nat k) = (64 * i + k)%nat)
      by (intros k; rewrite slot_index_eq; lia).
    pose proof (Hfields i 0%nat Hi ltac:(lia)) as F0.
    pose proof (Hfields i 1%nat Hi ltac:(lia)) as F1.
    pose proof (Hfields i 2%nat Hi ltac:(lia)) as F2.
    pose proof (Hfields i 3%nat Hi ltac:(lia)) as F3.
    pose proof (Hfields i 4%nat Hi ltac:(lia)) as F4.
    rewrite Hslot in F0, F1, F2, F3, F4. rewrite Nat.add_0_r in F0.
    apply (read_slot enc enc_length); try assumption.
    apply Hrest; [|lia].
    intros i' k' Hi' Hk'. rewrite slot_index_eq. lia.
Qed.

Lemma frame_holds (t now_start now_end : num) (w : World num) (table tb : list byte) :
  holds enc w table tb ->
  exists w',
    frame t now_start now_end w = (Return tt, w') /\
    holds enc w' table (enc (elapsed (current_doDraw w) t)) /\
    settings w' = settings w /\
    current_doDraw w' = ticked (current_doDraw w) t /\
    queue (runtime w') =
      queue (runtime w) ++ draw_ops (settings w) (current_doDraw w) t.
Proof.
  intros (Hok & Hsize & Htime & Hmem & Hlt & Hlb).
  eexists. split; [apply frame_spec; exact Hok|].
  split; [|repeat split].
  unfold holds.
  cbn [current_doDraw runtime ticked triangles uniformBuffer timeOffset pushed buffers queue].
  split; [apply ticked_ok; exact Hok|].
  split; [exact Hsize|]. split; [exact Htime|].
  split; [|split; [exact Hlt | apply enc_length]].
  unfold buffer_contents in *. unfold pushed. cbn [buffers queue].
  rewrite Hsize in *.
  rewrite foldl_app, Hmem. unfold draw_ops. cbn [foldl write_op].
  rewrite Nat.eqb_refl. unfold apply_transfer, slice.
  cbn [dst_offset src_offset size]. rewrite Htime.
  replace (Z.to_nat (Z.of_nat (triangles (current_doDraw w)) * alignedUniformBytes))
    with (length table) by (rewrite Hlt, alignedUniformBytes_eq; lia).
  replace (Z.to_nat (Z.of_nat (triangles (current_doDraw w)) * alignedUniformBytes
                     + BYTES_PER_ELEMENT))
    with (length (table ++ tb))
    by (rewrite length_app, Hlt, Hlb, alignedUniformBytes_eq, BYTES_PER_ELEMENT_eq; lia).
  rewrite take_app_length, drop_all, app_nil_r.
  f_equal. unfold array_bytes. cbn [map concat Z.to_nat drop].
  rewrite app_nil_r. apply take_ge. rewrite enc_length, BYTES_PER_ELEMENT_eq. simpl. lia.
Qed.

End UniformMemory.

Lemma last_cons_default {A} (l : list A) (x d : A) :
  List.last (x :: l) d = List.last l x.
Proof.
  revert x d. induction l as [|y l IH]; intros x d; [reflexivity|].
  change (List.last (x :: y :: l) d) with (List.last (y :: l) d).
  rewrite (IH y d), (IH y x). reflexivity.
Qed.

Lemma pass_of_same {num : Type} `{Number num} (s : Settings) (c c' : Closure num) :
  same_configuration c c' -> pass_of s c' = pass_of s c.
Proof.
  intros (Ht & Hu & _ & Hd & _ & Htg & Hb).
  unfold pass_of, sequence_of. rewrite Ht, Hu, Hd, Htg, Hb. reflexivity.
Qed.

Section FrameLoop.
Context {num : Type} `{Number num}.
Variable enc : num -> list byte.
Hypothesis enc_length : forall x, length (enc x) = 4%nat.

Lemma run_frames_holds (frames : list (num * num * num)) :
  forall (w : World num) (table tb : list byte) (t now_start now_end : num),
    holds enc w table tb ->
    let start := default t (startTime (current_doDraw w)) in
    exists w',
      run_frames ((t, now_start, now_end) :: frames) w = (Return tt, w') /\
      holds enc w' table
        (enc (nfround ((List.last (timestamps frames) t - start) / nlit 1000))%num) /\
      settings w' = settings w /\
      same_configuration (current_doDraw w) (current_doDraw w') /\
      startTime (current_doDraw w') = Some start /\
      last (queue (runtime w')) = Some (submit (pass_of (settings w) (current_doDraw w))) /\
      length (queue (runtime w')) =
        (length (queue (runtime w)) + 2 * Datatypes.S (length frames))%nat.
Proof.
  induction frames as [|[[t' a'] b'] frames IH];
    intros w table tb t a b Hholds start;
    destruct (frame_holds enc enc_length t a b w table tb Hholds)
      as (w1 & Hframe & Hholds1 & Hset1 & Hc1 & Hq1).
  - exists w1. cbn [run_frames]. unfold bind at 1. rewrite Hframe.
    split; [reflexivity|]. split; [exact Hholds1|]. split; [exact Hset1|].
    rewrite Hc1, Hq1.
    split; [repeat split|]. split; [reflexivity|].
    split; [unfold draw_ops; rewrite last_app; reflexivity|].
    rewrite length_app. simpl. lia.
  - destruct (IH w1 table (enc (elapsed (current_doDraw w) t)) t' a' b' Hholds1)
      as (w2 & Hrun & Hholds2 & Hset2 & Hsame2 & Hstart2 & Hlast2 & Hlen2).
    exists w2.
    assert (Hstart1 : default t' (startTime (current_doDraw w1)) = start)
      by (rewrite Hc1; reflexivity).
    rewrite Hstart1 in Hholds2, Hstart2.
    split.
    { change (run_frames ((t, a, b) :: (t', a', b') :: frames) w)
        with ((frame t a b ;; run_frames ((t', a', b') :: frames)) w).
      unfold bind at 1. rewrite Hframe. exact Hrun. }
    split.
    { cbn [timestamps map fst]. rewrite last_cons_default. exact Hholds2. }
    split; [congruence|].
    assert (Hsame1 : same_configuration (current_doDraw w) (current_doDraw w1))
      by (rewrite Hc1; repeat split).
    split.
    { destruct Hsame1 as (A1 & A2 & A3 & A4 & A5 & A6 & A7).
      destruct Hsame2 as (B1 & B2 & B3 & B4 & B5 & B6 & B7).
      repeat split; congruence. }
    split; [exact Hstart2|].
    split.
    { rewrite Hlast2, Hset1. f_equal. f_equal. apply pass_of_same. exact Hsame1. }
    rewrite Hlen2, Hq1, length_app. simpl. lia.
Qed.

End FrameLoop.

(** X8: after [configure] and any number of frames, the pass submitted last
    executes one draw per instance, in index order, and draw i sees, in bind
    group 1, the 24 bytes that encode the five values drawn for instance i
    followed by an untouched 0, and in bind group 0 the 4 bytes that encode
    (last time stamp - first time stamp) / 1000 as the Float32Array
    uniformTime holds it, rounded to binary32: the upload placed every
    slot where its bind group reads it, and the frames overwrote nothing but
    the time slot. *)
Theorem draws_see_their_instance_and_the_time {num : Type} `{Number num}
    (enc : num -> list byte) (random : nat -> num)
    (s : Settings) (rt rt' : Runtime num) (c : Closure num)
    (t now_start now_end : num) (frames : list (num * num * num))
    (group0 group1 : list byte) :
  (forall x, length (enc x) = 4%nat) ->
  queue_ok rt ->
  configure random s rt = (Return c, rt') ->
  exists w' pass,
    run_frames ((t, now_start, now_end) :: frames) (fresh_world s rt' c)
      = (Return tt, w') /\
    last (queue (runtime w')) = Some (submit pass) /\
    draw_inputs (buffer_contents enc (runtime w')) group0 group1 (replay pass) =
    map (fun i =>
           (enc (nfround ((List.last (timestamps frames) t - t) / nlit 1000))%num,
            array_bytes enc (slot_values random (randoms rt) i)))
        (seq 0 (triangles c)).
Proof.
  intros Henc Hqueue Hrun.
  destruct (configure_holds enc Henc random s rt rt' c Hqueue Hrun)
    as (table & Hholds & Hc & Hslots).
  destruct (run_frames_holds enc Henc frames _ _ _ t now_start now_end Hholds)
    as (w' & Hframes & Hholds' & _ & Hsame & _ & Hlast & _).
  cbn [fresh_world current_doDraw settings startTime default] in *.
  assert (Hstart : startTime c = None) by (rewrite Hc; reflexivity).
  rewrite Hstart in Hholds'. cbn [default] in Hholds'.
  exists w', (pass_of s c). split; [exact Hframes|]. split; [exact Hlast|].
  destruct Hholds' as (_ & _ & _ & Hmem & Hlt & Hlb).
  destruct Hsame as (Htri & Hub & _).
  rewrite Htri, Hub in *.
  assert (Hreplay : replay (pass_of s c) = sequence_of (dynamicOffsets s) c).
  { unfold pass_of. destruct (renderBundles s).
    - rewrite replay_bundle, Hc. reflexivity.
    - apply replay_encoded. }
  rewrite Hreplay.
  set (n := triangles c) in *.
  rewrite Hc at 1. fold n. rewrite draw_inputs_closure.
  apply map_ext_in. intros i Hi. apply in_seq in Hi.
  assert (Hubc : uniformBuffer c = length (buffers rt)) by (rewrite Hc; reflexivity).
  unfold read_range. cbn [range_buffer range_offset range_size].
  rewrite <- Hubc, Hmem, alignedUniformBytes_eq. f_equal.
  - replace (Z.to_nat (Z.of_nat n * 256)) with (length table) by (rewrite Hlt; lia).
    rewrite drop_app_length. apply take_ge. rewrite Hlb. simpl. lia.
  - replace (Z.to_nat (Z.of_nat i * 256)) with (256 * i)%nat by lia.
    change (Z.to_nat 24) with 24%nat. apply Hslots. lia.
Qed.

Lemma draws_see_their_instance_and_the_time_witness :
  (forall x : Q, length ((fun _ => [Byte.x00; Byte.x00; Byte.x00; Byte.x00]) x) = 4%nat) /\
  queue_ok (device_start (num:=Q)) /\
  configure always_half two_triangles device_start =
    (Return (closure_for two_triangles 1%nat 2%nat),
     snd (configure always_half two_triangles device_start)) /\
  exists w' : World Q,
    run_frames [(5, 0, 0); (7, 0, 0)]%Q fresh_example = (Return tt, w').
Proof.
  assert (Henc : forall x : Q,
            length ((fun _ => [Byte.x00; Byte.x00; Byte.x00; Byte.x00]) x) = 4%nat)
    by (intros x; reflexivity).
  assert (Hq : queue_ok (device_start (num:=Q))) by (unfold queue_ok; simpl; constructor).
  assert (Hrun : configure always_half two_triangles device_start =
                 (Return (closure_for two_triangles 1%nat 2%nat),
                  snd (configure always_half two_triangles device_start)))
    by (vm_compute; reflexivity).
  split; [exact Henc|]. split; [exact Hq|]. split; [exact Hrun|].
  destruct (draws_see_their_instance_and_the_time
              (fun _ => [Byte.x00; Byte.x00; Byte.x00; Byte.x00]) always_half
              two_triangles _ _ _ 5%Q 0%Q 0%Q [(7, 0, 0)]%Q [] [] Henc Hq Hrun)
    as (w' & pass & Hframes & _).
  exists w'. exact Hframes.
Defined.


(** ** The frame loop *)



(* What keeps the loop alive is that [configure] fills every index: with a
   hole in bindGroups the first frame throws after it has written the time,
   and the frames after it never run. *)
Example frame_with_a_hole_stops_the_loop :
  let w := fresh_world two_triangles
             (snd (configure always_half two_triangles device_start))
             closure_with_hole in
  exists w',
    run_frames [(5, 0, 0); (7, 0, 0)]%Q w = (Throw TypeError, w') /\
    written_values (queue (runtime w')) = written_values (queue (runtime w)) ++ [(5 - 5) / 1000]%Q /\
    previousFrameTimestamp w' = Some 5%Q /\
    frameTimeAvg w' = None.
Proof.
  eexists. split; [vm_compute; reflexivity|]. vm_compute. repeat split.
Qed.

(** ** Draws against the layouts of the pipelines *)

Lemma draw_calls_instances (dynamic : bool) (ub : BufferId) (dg tg : BindGroup) (n : nat) :
  bg_layout dg = dynamicBindGroupLayout ->
  bg_layout tg = timeBindGroupLayout ->
  forall (start : nat) (g1 : option (BindGroup * list Z)),
    let calls :=
      draw_calls (Some (if dynamic then dynamicPipeline else pipeline))
        (Some vertexBuffer) (Some (tg, [])) g1
        (flat_map (instance_commands dynamic ub dg) (seq start n)) in
    length calls = n /\ Forall (fun d => draw_fits d = true) calls.
Proof.
  intros Hdg Htg. induction n as [|n IH]; intros start g1.
  - split; [reflexivity | constructor].
  - cbn [seq flat_map instance_commands app].
    destruct dynamic.
    + cbn [draw_calls Z.eqb Pos.eqb].
      destruct (IH (Datatypes.S start)
                  (Some (dg, [Z.of_nat start * alignedUniformBytes]))) as [Hlen Hall].
      split; [cbn [length]; f_equal; exact Hlen|].
      constructor; [|exact Hall].
      unfold draw_fits, group_fits.
      cbn [at_pipeline at_vertexBuffer at_group0 at_group1 at_firstVertex at_vertexCount
           pipelineLayout hasDynamicOffset length forallb].
      rewrite Hdg, Htg, alignedUniformBytes_eq, Z.mod_mul by lia.
      vm_compute. reflexivity.
    + cbn [draw_calls Z.eqb Pos.eqb].
      destruct (IH (Datatypes.S start) (Some (static_group ub start, []))) as [Hlen Hall].
      split; [cbn [length]; f_equal; exact Hlen|].
      constructor; [|exact Hall].
      unfold draw_fits, group_fits.
      cbn [at_pipeline at_vertexBuffer at_group0 at_group1 at_firstVertex at_vertexCount
           pipelineLayout hasDynamicOffset length forallb static_group bg_layout].
      rewrite Htg. vm_compute. reflexivity.
Qed.

Lemma draw_calls_frame_sequence (dynamic : bool) (ub : BufferId) (dg tg : BindGroup) (n : nat) :
  bg_layout dg = dynamicBindGroupLayout ->
  bg_layout tg = timeBindGroupLayout ->
  let calls := draw_calls None None None None (frame_sequence dynamic n ub dg tg) in
  length calls = n /\ Forall (fun d => draw_fits d = true) calls.
Proof.
  intros Hdg Htg. unfold frame_sequence.
  cbn [app draw_calls Z.eqb].
  exact (draw_calls_instances dynamic ub dg tg n Hdg Htg 0%nat None).
Qed.

Section ReachableConfiguration.
Context {num : Type} `{Number num}.
Variable random : nat -> num.

Lemma same_configuration_refl (c : Closure num) : same_configuration c c.
Proof. repeat split. Qed.

Lemma same_configuration_ticked (c0 c : Closure num) (t : num) :
  same_configuration c0 c -> same_configuration c0 (ticked c t).
Proof. intros Hs. exact Hs. Qed.

(* The closure in use was built by [configure] at some earlier point, under
   the settings of that point, and has only ticked since. *)
Lemma reachable_configuration (w : World num) :
  reachable random w ->
  exists s0 ub n, same_configuration (closure_for s0 ub n) (current_doDraw w).
Proof.
  assert (Hupdate : forall s1 w o w',
            (exists s0 ub n, same_configuration (closure_for s0 ub n) (current_doDraw w)) ->
            (set_settings s1 ;; updateSettings random) w = (o, w') ->
            exists s0 ub n, same_configuration (closure_for s0 ub n) (current_doDraw w')).
  { intros s1 w0 o w' Hinv Hstep. unfold bind, set_settings in Hstep.
    destruct (updateSettings_outcome _ _ _ _ Hstep)
      as (_ & _ & _ & _ & [(_ & Hcfg) | (_ & Hsame & _)]).
    - simpl in Hcfg.
      destruct (configure_inv random _ _ _ _ Hcfg) as (q & n & d & ts & _ & _ & _ & -> & _).
      eexists _, _, _. apply same_configuration_refl.
    - rewrite Hsame. exact Hinv. }
  induction 1 as [s rt rt' c Hcfg | v w w' o Hr IH Hstep | b w w' o Hr IH Hstep
                 | b w w' o Hr IH Hstep | t a b w w' o Hr IH Hstep].
  - simpl. destruct (configure_inv random _ _ _ _ Hcfg) as (q & n & d & ts & _ & _ & _ & -> & _).
    eexists _, _, _. apply same_configuration_refl.
  - exact (Hupdate _ _ _ _ IH Hstep).
  - exact (Hupdate _ _ _ _ IH Hstep).
  - exact (Hupdate _ _ _ _ IH Hstep).
  - rewrite (frame_spec _ _ _ _ (reachable_ok random w Hr)) in Hstep.
    injection Hstep as _ <-. simpl.
    destruct IH as (s0 & ub & n & Hs). exists s0, ub, n.
    apply same_configuration_ticked. exact Hs.
Qed.

End ReachableConfiguration.



(* The two branches on settings.dynamicOffsets in recordRenderPass have to
   agree: the dynamic group under the static pipeline does not fit, nor does
   a dynamic group set without its offset. *)
Example mixed_branches_do_not_fit :
  let c := closure_for (num:=Q) two_triangles 1%nat 2%nat in
  forallb draw_fits
    (draw_calls None None None None
       [setPipeline pipeline; setVertexBuffer 0 vertexBuffer;
        setBindGroup 0 (timeBindGroup c) [];
        setBindGroup 1 (dynamicBindGroup c) [256]; draw 3 1 0 0]) = false /\
  forallb draw_fits
    (draw_calls None None None None
       [setPipeline dynamicPipeline; setVertexBuffer 0 vertexBuffer;
        setBindGroup 0 (timeBindGroup c) [];
        setBindGroup 1 (dynamicBindGroup c) []; draw 3 1 0 0]) = false /\
  forallb draw_fits
    (draw_calls None None None None
       [setPipeline pipeline; setVertexBuffer 0 vertexBuffer;
        setBindGroup 0 (timeBindGroup c) [];
        setBindGroup 1 (static_group 1%nat 0%nat) []; draw 4 1 0 0]) = false.
Proof. vm_compute. repeat split. Qed.

(** ** The displays *)

Section DisplayFacts.
Context {num : Type} `{Number num}.
Variable random : nat -> num.

Lemma run_events_snoc (es : list (Event num)) (e : Event num) :
  forall p : Page num,
    run_events random (es ++ [e]) p =
    match run_events random es p with
    | Some p' => if enabled e p' then Some (snd (handle random e p')) else None
    | None => None
    end.
Proof.
  induction es as [|e' es IH]; intros p.
  - simpl. destruct (enabled e p); reflexivity.
  - cbn [app run_events]. destruct (enabled e' p); [apply IH | reflexivity].
Qed.

Lemma elapsed_timeouts_snoc (es : list (Event num)) (e : Event num) :
  elapsed_timeouts (es ++ [e]) =
  (elapsed_timeouts es + match e with timeout_elapsed => 1 | _ => 0 end)%nat.
Proof.
  induction es as [|e' es IH].
  - destruct e; reflexivity.
  - cbn [app elapsed_timeouts]. destruct e'; rewrite IH; reflexivity.
Qed.

Lemma page_inv_listener (start : Page num) (es : list (Event num)) (e : Event num)
    (p0 : Page num) (s1 : Settings) :
  (forall o w',
     (set_settings s1 ;; updateSettings random) (world p0) = (o, w') ->
     reachable random w') ->
  elapsed_timeouts (es ++ [e]) = elapsed_timeouts es ->
  page_inv random start es p0 ->
  page_inv random start (es ++ [e])
    (with_world p0 (snd ((set_settings s1 ;; updateSettings random) (world p0)))).
Proof.
  intros Hstep Hcount (Hreach & Htime & Hlen & Hjs & Hempty & Hshown).
  destruct ((set_settings s1 ;; updateSettings random) (world p0)) as [o w'] eqn:Hrun.
  pose proof (Hstep _ _ eq_refl) as Hreach'.
  unfold bind, set_settings in Hrun.
  destruct (updateSettings_outcome random _ _ _ Hrun) as (_ & _ & _ & Hfr & _).
  cbn [frameTimeAvg] in Hfr.
  unfold page_inv, with_world.
  cbn [world avgFrameDisplay avgJavascript updateDisplay timeouts snd].
  rewrite Hcount, Hfr.
  repeat (split; [assumption|]).
  intros i x y Hx Hy. destruct (Hshown i x y Hx Hy) as (Hnx & Hny & es1 & es2 & p1 & -> & Hp1 & Hv).
  split; [exact Hnx|]. split; [exact Hny|].
  exists es1, (es2 ++ [e]), p1. rewrite app_assoc. auto.
Qed.

Lemma page_inv_run (start : Page num) (es : list (Event num)) :
  page_inv random start [] start ->
  forall p, run_events random es start = Some p -> page_inv random start es p.
Proof.
  intros Hstart. induction es as [|e es IH] using rev_ind; intros p Hrun.
  - injection Hrun as <-. exact Hstart.
  - rewrite run_events_snoc in Hrun.
    destruct (run_events random es start) as [p0|] eqn:Hp0; [|discriminate].
    destruct (enabled e p0) eqn:Hen; [|discriminate].
    injection Hrun as <-.
    specialize (IH p0 eq_refl).
    destruct e as [v|b|b|t now_start now_end|].
    + apply page_inv_listener; [| | exact IH].
      * intros o w' Hs. exact (reachable_numTriangles random v (world p0) w' o (proj1 IH) Hs).
      * rewrite elapsed_timeouts_snoc. lia.
    + apply page_inv_listener; [| | exact IH].
      * intros o w' Hs. exact (reachable_dynamicOffsets random b (world p0) w' o (proj1 IH) Hs).
      * rewrite elapsed_timeouts_snoc. lia.
    + apply page_inv_listener; [| | exact IH].
      * intros o w' Hs. exact (reachable_renderBundles random b (world p0) w' o (proj1 IH) Hs).
      * rewrite elapsed_timeouts_snoc. lia.
    + destruct IH as (Hreach & Htime & Hlen & Hjs & Hempty & Hshown).
      pose proof (frame_spec t now_start now_end (world p0)
                    (reachable_ok random _ Hreach)) as Hframe.
      match type of Hframe with _ = (_, ?x) => set (w1 := x) in * end.
      assert (Hreach1 : reachable random w1)
        by (exact (reachable_frame random t now_start now_end _ w1 (Return tt) Hreach Hframe)).
      assert (Hold : forall i x y,
                avgFrameDisplay p0 !! i = Some x -> avgJavascript p0 !! i = Some y ->
                x <> None /\ y <> None /\
                exists es1 es2 p1,
                  es ++ [animation_frame t now_start now_end] = es1 ++ es2 /\
                  run_events random es1 start = Some p1 /\
                  frameTimeAvg (world p1) = x /\ jsTimeAvg (world p1) = y).
      { intros i x y Hx Hy.
        destruct (Hshown i x y Hx Hy) as (Hnx & Hny & es1 & es2 & p1 & -> & Hp1 & Hv).
        split; [exact Hnx|]. split; [exact Hny|].
        exists es1, (es2 ++ [animation_frame t now_start now_end]), p1.
        rewrite app_assoc. auto. }
      unfold page_inv, handle, frame_page. rewrite Hframe. cbv beta iota.
      rewrite elapsed_timeouts_snoc, Nat.add_0_r.
      destruct (updateDisplay p0) eqn:Hflag.
      * cbn [snd world avgFrameDisplay avgJavascript updateDisplay timeouts length].
        split; [exact Hreach1|]. split; [lia|]. split; [lia|]. split; [lia|].
        split; [split; discriminate|].
        intros [|i] x y Hx Hy.
        -- cbn in Hx, Hy. injection Hx as <-. injection Hy as <-.
           split; [discriminate|]. split; [discriminate|].
           exists (es ++ [animation_frame t now_start now_end]), [],
             {| world := w1;
                avgFrameDisplay := frameTimeAvg w1 :: avgFrameDisplay p0;
                avgJavascript := jsTimeAvg w1 :: avgJavascript p0;
                updateDisplay := false;
                timeouts := Datatypes.S (timeouts p0) |}.
           split; [rewrite app_nil_r; reflexivity|].
           split; [|split; reflexivity].
           rewrite run_events_snoc, Hp0. cbn [enabled].
           unfold handle, frame_page. rewrite Hframe. cbv beta iota.
           rewrite Hflag. reflexivity.
        -- exact (Hold i x y Hx Hy).
      * unfold with_world.
        cbn [snd world avgFrameDisplay avgJavascript updateDisplay timeouts].
        rewrite Hflag.
        split; [exact Hreach1|]. split; [exact Htime|]. split; [exact Hlen|].
        split; [exact Hjs|].
        split; [|exact Hold].
        split; [|discriminate].
        intros Hnil. rewrite Hnil, Htime in Hlen. simpl in Hlen. lia.
    + destruct IH as (Hreach & Htime & Hlen & Hjs & Hempty & Hshown).
      cbn [enabled] in Hen. apply Nat.ltb_lt in Hen.
      destruct (updateDisplay p0) eqn:Hflag; [lia|].
      unfold page_inv, handle, timeout_callback.
      cbn [snd world avgFrameDisplay avgJavascript updateDisplay timeouts].
      rewrite elapsed_timeouts_snoc, Htime. cbn [Nat.pred].
      split; [exact Hreach|]. split; [reflexivity|]. split; [lia|].
      split; [exact Hjs|]. split; [exact Hempty|].
      intros i x y Hx Hy.
      destruct (Hshown i x y Hx Hy) as (Hnx & Hny & es1 & es2 & p1 & -> & Hp1 & Hv).
      split; [exact Hnx|]. split; [exact Hny|].
      exists es1, (es2 ++ [timeout_elapsed]), p1. rewrite app_assoc. auto.
Qed.

End DisplayFacts.

(** X11: after any callbacks of the browser (the three listeners, frames,
    and timers that elapse only once set) from the end of [init]: the
    variables outside the display are in a state the program reaches without
    the display; at most one timer is pending, and one is pending exactly
    while updateDisplay is false; the displays were written once per timer
    that has elapsed and once more if a timer is pending, so never twice
    without a timer elapsing in between; both displays are written together;
    the frame display is empty exactly until the first frame has run; and
    what each write put into the two displays are the two averages as they
    were after one and the same earlier callback, never undefined. *)
Theorem display_is_throttled {num : Type} `{Number num}
    (random : nat -> num) (s : Settings) (rt rt' : Runtime num) (c : Closure num)
    (es : list (Event num)) (p : Page num) :
  configure random s rt = (Return c, rt') ->
  run_events random es (page_start (fresh_world s rt' c)) = Some p ->
  reachable random (world p) /\
  timeouts p = (if updateDisplay p then 0 else 1)%nat /\
  length (avgFrameDisplay p) = (elapsed_timeouts es + timeouts p)%nat /\
  length (avgJavascript p) = length (avgFrameDisplay p) /\
  (avgFrameDisplay p = [] <-> frameTimeAvg (world p) = None) /\
  (forall i x y,
     avgFrameDisplay p !! i = Some x -> avgJavascript p !! i = Some y ->
     x <> None /\ y <> None /\
     exists es1 es2 p1,
       es = es1 ++ es2 /\
       run_events random es1 (page_start (fresh_world s rt' c)) = Some p1 /\
       frameTimeAvg (world p1) = x /\ jsTimeAvg (world p1) = y).
Proof.
  intros Hcfg Hrun.
  apply (page_inv_run random (page_start (fresh_world s rt' c)) es); [|exact Hrun].
  unfold page_inv, page_start.
  cbn [world avgFrameDisplay avgJavascript updateDisplay timeouts length elapsed_timeouts
       fresh_world frameTimeAvg].
  split; [exact (reachable_init random s rt rt' c Hcfg)|].
  repeat (split; [reflexivity|]).
  split; [split; reflexivity|].
  intros i x y Hx. rewrite lookup_nil in Hx. discriminate.
Qed.

Lemma display_is_throttled_witness :
  configure always_half two_triangles device_start =
    (Return (closure_for two_triangles 1%nat 2%nat),
     snd (configure always_half two_triangles device_start)) /\
  exists p : Page Q,
    run_events always_half
      [animation_frame 5 0 1; animation_frame 21 1 3; timeout_elapsed;
       animation_frame 37 3 4]%Q
      (page_start (fresh_world two_triangles
                     (snd (configure always_half two_triangles device_start))
                     (closure_for two_triangles 1%nat 2%nat))) = Some p /\
    length (avgFrameDisplay p) = 2%nat.
Proof.
  assert (Hcfg : configure always_half two_triangles device_start =
                 (Return (closure_for two_triangles 1%nat 2%nat),
                  snd (configure always_half two_triangles device_start)))
    by (vm_compute; reflexivity).
  split; [exact Hcfg|].
  eexists. split; [vm_compute; reflexivity|].
  match goal with
  | |- length (avgFrameDisplay ?p) = _ =>
      destruct (display_is_throttled always_half two_triangles _ _ _
                  [animation_frame 5 0 1; animation_frame 21 1 3; timeout_elapsed;
                   animation_frame 37 3 4]%Q p Hcfg ltac:(vm_compute; reflexivity))
        as (_ & _ & Hlen & _)
  end.
  exact Hlen.
Defined.

(** ** The averages over a run of frames *)

Section SteadyFrames.
Variable random : nat -> Q.
Variables t0 d js : Q.

Lemma steady_frames_run (k : nat) :
  forall (i : nat) (w : World Q) (p a j0 : Q),
    reachable random w ->
    previousFrameTimestamp w = Some p ->
    (p + d == t0 + inject_Z (Z.of_nat i) * d)%Q ->
    frameTimeAvg w = Some a ->
    jsTimeAvg w = Some j0 ->
    exists (w' : World Q) (fr ja : Q),
      run_frames (steady_frames t0 d js i k) w = (Return tt, w') /\
      reachable random w' /\
      frameTimeAvg w' = Some fr /\
      (fr - d == 0.8 ^ Z.of_nat k * (a - d))%Q /\
      jsTimeAvg w' = Some ja /\
      (ja - js == 0.8 ^ Z.of_nat k * (j0 - js))%Q.
Proof.
  induction k as [|k IH]; intros i w p a j0 Hreach Hprev Hp Havg Hjs.
  - exists w, a, j0. split; [reflexivity|]. split; [exact Hreach|].
    split; [exact Havg|]. split; [simpl; ring|]. split; [exact Hjs|]. simpl; ring.
  - pose proof (frame_spec (t0 + inject_Z (Z.of_nat i) * d)%Q 0%Q js w
                  (reachable_ok random w Hreach)) as Hframe.
    rewrite Hprev, Havg, Hjs in Hframe.
    match type of Hframe with _ = (_, ?x) => set (w1 := x) in * end.
    assert (Hreach1 : reachable random w1)
      by (exact (reachable_frame random _ _ _ w w1 (Return tt) Hreach Hframe)).
    assert (Hnext : (t0 + inject_Z (Z.of_nat i) * d + d
                     == t0 + inject_Z (Z.of_nat (Datatypes.S i)) * d)%Q).
    { rewrite Nat2Z.inj_succ. unfold Z.succ. rewrite inject_Z_plus. ring. }
    destruct (IH (Datatypes.S i) w1 _ _ _ Hreach1 eq_refl Hnext eq_refl eq_refl)
      as (w' & fr & ja & Hrun & Hreach' & Hfr & Hfrv & Hja & Hjav).
    exists w', fr, ja.
    split.
    { unfold steady_frames. cbn [seq map run_frames]. unfold bind at 1.
      rewrite Hframe. exact Hrun. }
    split; [exact Hreach'|]. split; [exact Hfr|].
    split.
    { rewrite Hfrv, smooth_step, Qpower_succ_nat.
      assert (Hs : (t0 + inject_Z (Z.of_nat i) * d - p == d)%Q)
        by (rewrite <- Hp; ring).
      simpl. rewrite Hs. ring. }
    split; [exact Hja|].
    rewrite Hjav, smooth_step, Qpower_succ_nat. simpl. ring.
Qed.

End SteadyFrames.

(** X12: the two averages start differently.  After [configure], k + 1
    frames that follow one another at a steady interval d, each spending js
    in the script, all return; the average of the script time then is js,
    as from the first frame on, but the average of the frame time is
    d * (1 - 0.8^k): the first frame has no predecessor and feeds the sample
    0 into the average, so the displayed frame time starts at 0 and stays
    below d by the factor 0.8^k. *)
Theorem frame_time_average_starts_from_zero
    (random : nat -> Q) (s : Settings) (rt rt' : Runtime Q) (c : Closure Q)
    (t0 d js : Q) (k : nat) :
  configure random s rt = (Return c, rt') ->
  exists (w' : World Q) (fr ja : Q),
    run_frames (steady_frames t0 d js 0 (Datatypes.S k)) (fresh_world s rt' c)
      = (Return tt, w') /\
    frameTimeAvg w' = Some fr /\
    (fr == d * (1 - 0.8 ^ Z.of_nat k))%Q /\
    jsTimeAvg w' = Some ja /\
    (ja == js)%Q.
Proof.
  intros Hcfg.
  pose proof (reachable_init random s rt rt' c Hcfg) as Hreach.
  pose proof (frame_spec (t0 + inject_Z (Z.of_nat 0) * d)%Q 0%Q js (fresh_world s rt' c)
                (reachable_ok random _ Hreach)) as Hframe.
  cbn [fresh_world previousFrameTimestamp frameTimeAvg jsTimeAvg] in Hframe.
  match type of Hframe with _ = (_, ?x) => set (w1 := x) in * end.
  assert (Hreach1 : reachable random w1)
    by (exact (reachable_frame random _ _ _ _ w1 (Return tt) Hreach Hframe)).
  assert (Hnext : (t0 + inject_Z (Z.of_nat 0) * d + d
                   == t0 + inject_Z (Z.of_nat 1) * d)%Q) by (simpl; ring).
  destruct (steady_frames_run random t0 d js k 1%nat w1 _ _ _
              Hreach1 eq_refl Hnext eq_refl eq_refl)
    as (w' & fr & ja & Hrun & _ & Hfr & Hfrv & Hja & Hjav).
  exists w', fr, ja.
  split.
  { unfold steady_frames. cbn [seq map run_frames]. unfold bind at 1.
    rewrite Hframe. exact Hrun. }
  split; [exact Hfr|].
  split.
  { assert (Hz : (smooth None (nlit 0) == 0)%Q) by (rewrite smooth_first; reflexivity).
    rewrite Hz in Hfrv.
    assert (Heq : (fr == d + 0.8 ^ Z.of_nat k * (0 - d))%Q) by (rewrite <- Hfrv; ring).
    rewrite Heq. ring. }
  split; [exact Hja|].
  assert (Hj : (smooth None (js - 0)%num == js)%Q) by (rewrite smooth_first; simpl; ring).
  rewrite Hj in Hjav.
  assert (Heq : (ja == js + 0.8 ^ Z.of_nat k * (js - js))%Q) by (rewrite <- Hjav; ring).
  rewrite Heq. ring.
Qed.

Lemma frame_time_average_starts_from_zero_witness :
  configure always_half two_triangles device_start =
    (Return (closure_for two_triangles 1%nat 2%nat),
     snd (configure always_half two_triangles device_start)) /\
  exists (w' : World Q) (fr : Q),
    run_frames (steady_frames 5 16 1 0 3)
      (fresh_world two_triangles
         (snd (configure always_half two_triangles device_start))
         (closure_for two_triangles 1%nat 2%nat)) = (Return tt, w') /\
    frameTimeAvg w' = Some fr /\
    (fr == 16 * (1 - 0.8 ^ 2))%Q.
Proof.
  assert (Hcfg : configure always_half two_triangles device_start =
                 (Return (closure_for two_triangles 1%nat 2%nat),
                  snd (configure always_half two_triangles device_start)))
    by (vm_compute; reflexivity).
  split; [exact Hcfg|].
  destruct (frame_time_average_starts_from_zero always_half two_triangles _ _ _
              5%Q 16%Q 1%Q 2%nat Hcfg)
    as (w' & fr & ja & Hrun & Hfr & Hfrv & _).
  exists w', fr. split; [exact Hrun|]. split; [exact Hfr | exact Hfrv].
Defined.

(** ** The colours *)

Lemma fade_of_unit (time : Q) (u : Uniforms) :
  (0 <= scalarOffset u + time * scalar u / 10.0)%Q -> (0 <= fade_of exact time u <= 1)%Q.
Proof.
  intros Hpos. rewrite fade_of_exact. cbv zeta.
  pose proof (wgsl_rem_one_range _ Hpos) as Hr.
  destruct (wgsl_lt (wgsl_rem exact (scalarOffset u + time * scalar u / 10.0) 1.0) 0.5) eqn:E.
  - apply wgsl_lt_spec in E. lra.
  - assert (Hge : ~ (wgsl_rem exact (scalarOffset u + time * scalar u / 10.0) 1.0 < 0.5)%Q).
    { intros Hlt. apply wgsl_lt_spec in Hlt. congruence. }
    lra.
Qed.

Lemma fade_argument_nonneg (time : Q) (u : Uniforms) :
  (0 <= time)%Q -> (0.5 <= scalar u)%Q -> (0 <= scalarOffset u)%Q ->
  (0 <= scalarOffset u + time * scalar u / 10.0)%Q.
Proof.
  intros Ht Hs Ho.
  assert (Hprod : (0 <= time * scalar u)%Q) by nra.
  assert (Hdiv : (time * scalar u / 10.0 == (time * scalar u) * (1 # 10))%Q)
    by (field; discriminate).
  rewrite Hdiv. lra.
Qed.

(** X13: the colour of every fragment corner, with the shader in exact
    arithmetic only ([exact] for its rounding: on the device every f32
    operation rounds its result, so there the sums below hold up to that
    rounding and not exactly).  The instance table is the one [configure]
    builds in binary64 with binary32 stores from draws in [0, 1), the vertex
    buffer the one [init] fills.  For every instance, every vertex and every
    time that is not negative, the fade lies in [0, 1] and the colour that
    [frag_main] returns for the output of [vert_main] is the colour of the
    vertex with fade added to red and 1 - fade to green: red and green each
    exceed those of the vertex by at most 1 and together by exactly 1, blue
    is that of the vertex, and alpha is 2, the 1.0 of the shader on top of
    the 1 of the vertex. *)
Theorem colours_add_the_fade (cos sin : Q -> Q) (random : nat -> double)
    (ub : BufferId) (q : Q) (n : nat) (rt : Runtime double) :
  (forall k, 0 <= dval (random k) < 1)%Q ->
  (q == inject_Z (Z.of_nat n))%Q -> Z.of_nat n <= 2 ^ 32 - 1 ->
  allocatable rt (Z.of_nat n * alignedUniformBytes) = true ->
  exists buffer data groups rt',
    mapped_vertexBuffer = Return buffer /\
    build_instances random ub (JFinite q) rt = (Return (data, groups), rt') /\
    forall i v, (i < n)%nat -> (v < 3)%nat ->
      exists u position color,
        uniforms_at (map dval data) i = Some u /\
        vertex_fetch (map dval buffer) 0 v = Some position /\
        vertex_fetch (map dval buffer) 1 v = Some color /\
        forall time, (0 <= time)%Q ->
          let out := frag_main (v_color (vert_main exact cos sin time u position color)) in
          (0 <= fade_of exact time u <= 1)%Q /\
          (vec_x color <= vec_x out <= vec_x color + 1)%Q /\
          (vec_y color <= vec_y out <= vec_y color + 1)%Q /\
          (vec_x out + vec_y out == vec_x color + vec_y color + 1)%Q /\
          (vec_z out == vec_z color)%Q /\
          (vec_w out == 2)%Q.
Proof.
  intros Hr Hq Hn Halloc.
  destruct vertex_fetch_template as (buffer & Hbuffer & Hfetch).
  destruct (uniforms_at_table random ub q n rt Hr Hq Hn Halloc)
    as (data & groups & rt' & Hrun & Hu).
  exists buffer, data, groups, rt'. split; [exact Hbuffer|]. split; [exact Hrun|].
  intros i v Hi Hv.
  destruct (Hu i Hi) as (u & Hat & _ & _ & _ & Hs & Ho).
  destruct (Hfetch v Hv)
    as (position & color & Hp & Hc & _ & _ & _ & _ & _ & Hw).
  exists u, position, color. repeat (split; [assumption|]).
  intros time Ht.
  assert (Hfade : (0 <= fade_of exact time u <= 1)%Q).
  { apply fade_of_unit, fade_argument_nonneg; [exact Ht | lra | lra]. }
  unfold frag_main, vert_main. cbn [v_color vec_x vec_y vec_z vec_w].
  set (fade := fade_of exact time u) in *. unfold exact.
  split; [exact Hfade|].
  split; [lra|]. split; [lra|]. split; [ring|]. split; [ring|].
  rewrite Hw. reflexivity.
Qed.

Lemma colours_add_the_fade_witness :
  (forall k : nat, 0 <= dval ((fun _ => Double (1 # 2)) k) < 1)%Q /\
  (2 == inject_Z (Z.of_nat 2))%Q /\ Z.of_nat 2 <= 2 ^ 32 - 1 /\
  allocatable (device_start (num:=double)) (Z.of_nat 2 * alignedUniformBytes) = true /\
  exists data groups rt',
    build_instances (fun _ => Double (1 # 2)) 1%nat (JFinite 2) device_start
      = (Return (data, groups), rt').
Proof.
  assert (Hr : (forall k : nat, 0 <= dval ((fun _ => Double (1 # 2)) k) < 1)%Q)
    by (intros k; cbn [dval]; lra).
  split; [exact Hr|]. split; [reflexivity|].
  split; [vm_compute; discriminate|]. split; [reflexivity|].
  destruct (colours_add_the_fade (fun _ => 3 # 5) (fun _ => 4 # 5)
              (fun _ => Double (1 # 2)) 1%nat 2 2%nat device_start Hr
              ltac:(reflexivity) ltac:(vm_compute; discriminate) ltac:(reflexivity))
    as (buffer & data & groups & rt' & _ & Hrun & _).
  exists data, groups, rt'. exact Hrun.
Defined.

(* Before time 0, or with a negative scalar, the argument of the remainder
   can be negative, and the fade with it: the colour then leaves the range
   above.  And what exact arithmetic gives is not what binary32 gives: at
   a tenth of a second the fade is 1/50 in the one and, with every
   operation rounded to nearest, another number in the other. *)
Example fade_below_zero :
  let u := {| scale := 0.3; offsetX := 0; offsetY := 0; scalar := 1; scalarOffset := 0 |}%Q in
  (fade_of exact (-1) u == -(1 # 5))%Q /\
  (fade_of exact (1 # 10) u == 1 # 50)%Q /\
  ~ (fade_of binary32 (binary32 (1 # 10)) u == 1 # 50)%Q.
Proof. vm_compute. repeat split; discriminate. Qed.

(** ** Clicks on the two checkboxes *)

Section Clicks.
Context {num : Type} `{Number num}.
Variable random : nat -> num.

Lemma listener_outcome (s1 : Settings) (w : World num) :
  let r := (set_settings s1 ;; updateSettings random) w in
  fst r <> Diverge /\
  settings (snd r) = s1 /\
  previousFrameTimestamp (snd r) = previousFrameTimestamp w /\
  jsTimeAvg (snd r) = jsTimeAvg w /\ frameTimeAvg (snd r) = frameTimeAvg w /\
  ((exists q n, numTriangles s1 = JFinite q /\ (q == inject_Z (Z.of_nat n))%Q /\
                Z.of_nat n <= 2 ^ 32 - 1 /\
                allocatable (runtime w) (Z.of_nat n * alignedUniformBytes) = true) ->
   fst r = Return tt /\
   configure random s1 (runtime w) = (Return (current_doDraw (snd r)), runtime (snd r)) /\
   startTime (current_doDraw (snd r)) = None /\
   renderBundle (current_doDraw (snd r))
     = sequence_of (dynamicOffsets s1) (current_doDraw (snd r))) /\
  (~ (exists q n, numTriangles s1 = JFinite q /\ (q == inject_Z (Z.of_nat n))%Q /\
                  Z.of_nat n <= 2 ^ 32 - 1 /\
                  allocatable (runtime w) (Z.of_nat n * alignedUniformBytes) = true) ->
   (fst r = Throw TypeError \/ fst r = Throw RangeError) /\
   current_doDraw (snd r) = current_doDraw w /\
   queue (runtime (snd r)) = queue (runtime w) /\
   randoms (runtime (snd r)) = randoms (runtime w)).
Proof.
  unfold bind, set_settings, updateSettings.
  cbn [settings runtime current_doDraw previousFrameTimestamp jsTimeAvg frameTimeAvg].
  destruct (configure_outcome random s1 (runtime w))
    as [(Hyes & _) | (Hno & Hcases)].
  - (* the count is an array length and the table can be allocated *)
    destruct Hyes as (q & n & Hx & Hq & Hle & Ha).
    destruct (configure_spec random s1 q n (runtime w) Hx Hq Hle Ha)
      as (data & ts & Hrun & _).
    rewrite Hrun.
    cbn [fst snd settings runtime current_doDraw previousFrameTimestamp jsTimeAvg
         frameTimeAvg].
    split; [discriminate|]. repeat (split; [reflexivity|]).
    split.
    + intros _. repeat split.
    + intros Hno. exfalso. apply Hno. eauto 6.
  - (* any other count *)
    destruct Hcases as [Hc | [sz Hc]]; rewrite Hc;
      cbn [fst snd settings runtime current_doDraw previousFrameTimestamp jsTimeAvg
           frameTimeAvg queue randoms];
      (split; [discriminate|]); repeat (split; [reflexivity|]);
      (split; [intros Hyes; contradiction|]); intros _; repeat split; auto.
Qed.

End Clicks.


